(** * Health-Calculator: the calculators of [app.py], embedded and verified

    The program is a page of health calculators (BMI, BMR, Navy body fat,
    ideal weight) and a tip carousel.  Every calculator is a closed formula
    on Python [float]s, so the embedding starts with a model of IEEE-754
    binary64 arithmetic as Python exposes it:

    - a finite double is the rational number it denotes (the two zeros are
      identified: Python's comparisons do not tell them apart and every
      division by a zero raises), next to the two infinities and NaN;
    - an operation computes the exact rational result and rounds it to the
      nearest double, ties to even ([rnd]);
    - operations that raise in Python return in the [result] monad.

    The numbers of the calculators are floats; the age and the feet are
    [int]s, modelled by [Z].  The C library functions the program reaches
    ([pow] through [**], and [log10]) are parameters of the functions that
    call them: CPython does not fix their last bit.  [round], [//], [int],
    [min] and [max] follow CPython's [floatobject.c]. *)

From Stdlib Require Import ZArith QArith Qround Qabs Qpower Qreduction.
From Stdlib Require Import Lia Lqa Bool List.
From Stdlib Require Import Ascii String.
From Stdlib Require Floats.
Import ListNotations.

Local Open Scope Z_scope.

(* ================================================================== *)
(** * Binary64 over the rationals *)
(* ================================================================== *)

Module F64.

Inductive f64 : Type :=
| Fin (q : Q)
| PInf
| NInf
| NaN.

(** Round to the nearest integer, ties to the even one. *)
Definition rne (x : Q) : Z :=
  let f := Qfloor x in
  match Qcompare (x - inject_Z f) (1 # 2) with
  | Lt => f
  | Gt => f + 1
  | Eq => if Z.even f then f else f + 1
  end.

(** The smallest positive double is [2^-1074]; every finite double is an
    integer number of such units, with at most 53 significant bits. *)
Definition unit_exp : Z := 1074.
Definition units : Z := 2 ^ unit_exp.
Definition huge : Z := 2 ^ (1024 + unit_exp).

(** Number of low bits that a value of [x] units loses to fit 53 bits. *)
Definition ulp_shift (x : Q) : Z := Z.max 0 (Z.log2 (Qfloor x) - 52).

(** Rounding to the nearest multiple of [2^t]. *)
Definition grid (t : Z) (x : Q) : Z := rne (x / inject_Z (2 ^ t)) * 2 ^ t.

(** Nearest 53-bit integer to a non-negative rational, ties to even. *)
Definition rn53 (x : Q) : Z := grid (ulp_shift x) x.

Definition round_units (x : Q) : Z :=
  if Qle_bool 0 x then rn53 x else - rn53 (- x).

Definition of_units (k : Z) : f64 :=
  if huge <=? k then PInf
  else if k <=? - huge then NInf
  else Fin (Qred (inject_Z k / inject_Z units)).

(** [rnd q]: the double nearest to the rational [q]. *)
Definition rnd (q : Q) : f64 := of_units (round_units (q * inject_Z units)).

(** ** Comparisons (false on NaN) *)

Definition flt (x y : f64) : bool :=
  match x, y with
  | NaN, _ | _, NaN => false
  | Fin a, Fin b => negb (Qle_bool b a)
  | NInf, NInf => false
  | NInf, _ => true
  | _, NInf => false
  | PInf, _ => false
  | _, PInf => true
  end.

Definition fle (x y : f64) : bool :=
  match x, y with
  | NaN, _ | _, NaN => false
  | Fin a, Fin b => Qle_bool a b
  | NInf, _ => true
  | _, NInf => false
  | _, PInf => true
  | PInf, _ => false
  end.

(** ** Arithmetic (IEEE-754, round to nearest even) *)

Definition fneg (x : f64) : f64 :=
  match x with
  | Fin a => Fin (Qred (- a))
  | PInf => NInf
  | NInf => PInf
  | NaN => NaN
  end.

Definition fadd (x y : f64) : f64 :=
  match x, y with
  | NaN, _ | _, NaN => NaN
  | Fin a, Fin b => rnd (a + b)
  | PInf, NInf | NInf, PInf => NaN
  | PInf, _ | _, PInf => PInf
  | NInf, _ | _, NInf => NInf
  end.

Definition fsub (x y : f64) : f64 := fadd x (fneg y).

Definition sign_inf (neg : bool) : f64 := if neg then NInf else PInf.

Definition is_neg (x : f64) : bool :=
  match x with
  | Fin a => negb (Qle_bool 0 a)
  | NInf => true
  | _ => false
  end.

Definition is_zero (x : f64) : bool :=
  match x with Fin a => Qeq_bool a 0 | _ => false end.

Definition fmul (x y : f64) : f64 :=
  match x, y with
  | NaN, _ | _, NaN => NaN
  | Fin a, Fin b => rnd (a * b)
  | _, _ =>
      if is_zero x || is_zero y then NaN
      else sign_inf (xorb (is_neg x) (is_neg y))
  end.

(** IEEE division; Python never reaches the zero-divisor rows, it raises
    before dividing. *)
Definition fdiv (x y : f64) : f64 :=
  match x, y with
  | NaN, _ | _, NaN => NaN
  | Fin a, Fin b =>
      if Qeq_bool b 0
      then (if Qeq_bool a 0 then NaN else sign_inf (is_neg x))
      else rnd (a / b)
  | Fin _, _ => Fin 0
  | _, Fin _ => sign_inf (xorb (is_neg x) (is_neg y))
  | _, _ => NaN
  end.

(** A decimal literal of the source denotes the nearest double. *)
Definition lit (q : Q) : f64 := rnd q.

End F64.

Import F64.


(* ================================================================== *)
(** * Python values and operators *)
(* ================================================================== *)

Module Py.

Inductive exn : Type :=
| ZeroDivisionError
| OverflowError
| ValueError
| TypeError.

Inductive result (A : Type) : Type :=
| Ok (a : A)
| Raise (e : exn).
Arguments Ok {A} a.
Arguments Raise {A} e.

Definition bind {A B : Type} (m : result A) (k : A -> result B) : result B :=
  match m with
  | Ok a => k a
  | Raise e => Raise e
  end.

(** [try: body except Exception: handler]. *)
Definition try_except {A : Type} (body : result A) (handler : exn -> result A)
  : result A :=
  match body with
  | Ok a => Ok a
  | Raise e => handler e
  end.

Declare Scope py_scope.
Delimit Scope py_scope with py.
Notation "x <- m ;; k" := (bind m (fun x => k))
  (at level 61, m at next level, right associativity) : py_scope.

Local Open Scope py_scope.

(** An [int] operand of a float operator is converted first; an [int] too
    large for a double raises. *)
Definition of_int (z : Z) : result f64 :=
  match rnd (inject_Z z) with
  | Fin q => Ok (Fin q)
  | _ => Raise OverflowError
  end.

(** [x / y] on floats. *)
Definition py_div (x y : f64) : result f64 :=
  if is_zero y then Raise ZeroDivisionError else Ok (fdiv x y).

(** [x ** 2] on a float: CPython's [float_pow] with the exponent [2.0].
    It settles NaN, the infinities, zero and one itself, passes the absolute
    value of anything else to the C library's [pow], and raises
    [OverflowError] when that reports a range error by returning an
    infinity. *)
Definition float_pow_2 (libm_pow : f64 -> f64 -> f64) (x : f64) : result f64 :=
  match x with
  | NaN => Ok NaN
  | PInf | NInf => Ok PInf
  | Fin a =>
      if Qeq_bool a 0 then Ok (Fin 0)
      else
        let iv := Qabs a in
        if Qeq_bool iv 1 then Ok (Fin 1)
        else
          match libm_pow (Fin iv) (Fin 2) with
          | PInf | NInf => Raise OverflowError
          | r => Ok r
          end
  end.

(** [round(x, ndigits)] on a float, for [ndigits >= 0]: the decimal with
    [ndigits] places nearest to the exact value of [x] (ties to even),
    converted back to the nearest double; non-finite values round to
    themselves, and beyond 323 places nothing changes. *)
Definition py_round (x : f64) (ndigits : nat) : f64 :=
  match x with
  | Fin a =>
      if (323 <? ndigits)%nat then x
      else
        let p := inject_Z (10 ^ Z.of_nat ndigits) in
        rnd (inject_Z (rne (a * p)) / p)
  | _ => x
  end.

Definition Qtrunc (q : Q) : Z := if Qle_bool 0 q then Qfloor q else Qceiling q.

(** C's [fmod]: exact, with the sign of the dividend. *)
Definition fmod (x y : f64) : f64 :=
  match x, y with
  | NaN, _ | _, NaN => NaN
  | PInf, _ | NInf, _ => NaN
  | Fin a, PInf | Fin a, NInf => x
  | Fin a, Fin b =>
      if Qeq_bool b 0 then NaN
      else Fin (Qred (a - b * inject_Z (Qtrunc (a / b))))
  end.

Definition ffloor (x : f64) : f64 :=
  match x with
  | Fin a => Fin (inject_Z (Qfloor a))
  | _ => x
  end.

(** [x // y] on floats: CPython's [float_floor_div]. *)
Definition float_floor_div (vx wx : f64) : result f64 :=
  if is_zero wx then Raise ZeroDivisionError
  else
    let md := fmod vx wx in
    let div := fdiv (fsub vx md) wx in
    let div :=
      if negb (is_zero md) && negb (Bool.eqb (is_neg wx) (is_neg md))
      then fsub div (Fin 1) else div in
    if negb (is_zero div) then
      let fl := ffloor div in
      Ok (if flt (lit (1 # 2)) (fsub div fl) then fadd fl (Fin 1) else fl)
    else Ok (Fin 0).

(** [int(x)] on a float. *)
Definition py_int (x : f64) : result Z :=
  match x with
  | Fin a => Ok (Qtrunc a)
  | NaN => Raise ValueError
  | PInf | NInf => Raise OverflowError
  end.

(** [math.log10]: a domain error outside the positive numbers, the C
    library's [log10] inside; a NaN or an infinity that the library
    produces from a finite argument is reported as a domain error too. *)
Definition math_log10 (libm_log10 : f64 -> f64) (x : f64) : result f64 :=
  match x with
  | NaN => Ok NaN
  | PInf => Ok PInf
  | NInf => Raise ValueError
  | Fin a =>
      if Qle_bool a 0 then Raise ValueError
      else
        match libm_log10 x with
        | Fin r => Ok (Fin r)
        | _ => Raise ValueError
        end
  end.

(** The builtins [min] and [max] on two arguments: the first one wins
    unless the second is strictly better. *)
Definition py_min (a b : f64) : f64 := if flt b a then b else a.
Definition py_max (a b : f64) : f64 := if flt a b then b else a.

(** [str.lower] on the ASCII letters.  No other character has a lowercase
    form with a letter of "male" in it, so the test of the gender is the
    same as on Python's strings. *)
Definition lower_ascii (c : ascii) : ascii :=
  let n := nat_of_ascii c in
  if ((65 <=? n) && (n <=? 90))%nat then ascii_of_nat (n + 32) else c.

Fixpoint lower (s : string) : string :=
  match s with
  | EmptyString => EmptyString
  | String c r => String (lower_ascii c) (lower r)
  end.

Definition str_in (s : string) (l : list string) : bool :=
  existsb (String.eqb s) l.

End Py.

Import Py.
Local Open Scope py_scope.
Local Open Scope string_scope.
Local Open Scope Z_scope.

(* ================================================================== *)
(** * The calculators of [app.py] *)
(* ================================================================== *)

Definition c2_54 : f64 := lit (254 # 100).

Definition cm_to_feet_inches (cm : f64) : result (Z * f64) :=
  inches <- py_div cm c2_54 ;;
  q <- float_floor_div inches (Fin 12) ;;
  feet <- py_int q ;;
  f12 <- of_int (feet * 12) ;;
  Ok (feet, fsub inches f12).

Definition feet_inches_to_cm (feet : Z) (inches : f64) : result f64 :=
  f12 <- of_int (feet * 12) ;;
  let total_inches := fadd f12 inches in
  Ok (fmul total_inches c2_54).

Definition is_male (gender : string) : bool :=
  str_in (lower gender) ["male"; "m"].

Section Bmi.

Variable libm_pow : f64 -> f64 -> f64.

Definition calculate_bmi (weight_kg height_cm : f64) : result (option f64) :=
  if fle height_cm (Fin 0) then Ok None
  else
    height_m <- py_div height_cm (Fin 100) ;;
    sq <- float_pow_2 libm_pow height_m ;;
    bmi <- py_div weight_kg sq ;;
    Ok (Some (py_round bmi 2)).

End Bmi.

Definition bmi_category (bmi : option f64) : string :=
  match bmi with
  | None => "Invalid"
  | Some bmi =>
      if flt bmi (lit (185 # 10)) then "Underweight"
      else if fle (lit (185 # 10)) bmi && flt bmi (Fin 25) then "Normal"
      else if fle (Fin 25) bmi && flt bmi (Fin 30) then "Overweight"
      else "Obese"
  end.

(** [age] is an [int]: [5 * age] is an integer product, converted when it
    meets the float sum. *)
Definition calculate_bmr (gender : string) (age : Z) (weight_kg height_cm : f64)
  : result f64 :=
  bmr <-
    (if is_male gender then
       a5 <- of_int (5 * age) ;;
       Ok (fadd (fsub (fadd (fmul (Fin 10) weight_kg)
                            (fmul (lit (625 # 100)) height_cm)) a5)
                (Fin 5))
     else
       a5 <- of_int (5 * age) ;;
       Ok (fsub (fsub (fadd (fmul (Fin 10) weight_kg)
                            (fmul (lit (625 # 100)) height_cm)) a5)
                (Fin 161))) ;;
  Ok (py_round bmr 0).

Section BodyFat.

Variable libm_log10 : f64 -> f64.

Definition navy_val_male (log_girth log_height : f64) : f64 :=
  fadd (fsub (lit (10324 # 10000)) (fmul (lit (19077 # 100000)) log_girth))
       (fmul (lit (15456 # 100000)) log_height).

Definition navy_val_female (log_girth log_height : f64) : f64 :=
  fadd (fsub (lit (129579 # 100000)) (fmul (lit (35004 # 100000)) log_girth))
       (fmul (lit (22100 # 100000)) log_height).

(** [waist_cm + hip_cm] when [hip_cm] may be [None]. *)
Definition add_hip (waist_cm : f64) (hip_cm : option f64) : result f64 :=
  match hip_cm with
  | Some hip => Ok (fadd waist_cm hip)
  | None => Raise TypeError
  end.

(** The body of the [try] block. *)
Definition body_fat_navy_body (gender : string)
  (waist_cm neck_cm height_cm : f64) (hip_cm : option f64) : result f64 :=
  if is_male gender then
    l1 <- math_log10 libm_log10 (fsub waist_cm neck_cm) ;;
    l2 <- math_log10 libm_log10 height_cm ;;
    let val := navy_val_male l1 l2 in
    q <- py_div (Fin 495) val ;;
    let bf := fsub q (Fin 450) in
    Ok (py_round bf 1)
  else
    wh <- add_hip waist_cm hip_cm ;;
    l1 <- math_log10 libm_log10 (fsub wh neck_cm) ;;
    l2 <- math_log10 libm_log10 height_cm ;;
    let val := navy_val_female l1 l2 in
    q <- py_div (Fin 495) val ;;
    let bf := fsub q (Fin 450) in
    Ok (py_round bf 1).

Definition body_fat_navy (gender : string)
  (waist_cm neck_cm height_cm : f64) (hip_cm : option f64)
  : result (option f64) :=
  try_except
    (bf <- body_fat_navy_body gender waist_cm neck_cm height_cm hip_cm ;;
     Ok (Some bf))
    (fun _ => Ok None).

End BodyFat.

Definition bf_interpretation (gender : string) (age : Z) (bf : option f64)
  : string :=
  match bf with
  | None => "Invalid data for estimation"
  | Some bf =>
      if is_male gender then
        if flt bf (Fin 6) then "Essential fat"
        else if fle (Fin 6) bf && flt bf (Fin 14) then "Athlete"
        else if fle (Fin 14) bf && flt bf (Fin 18) then "Fit"
        else if fle (Fin 18) bf && flt bf (Fin 25) then "Average"
        else "Obese"
      else
        if flt bf (Fin 14) then "Essential fat"
        else if fle (Fin 14) bf && flt bf (Fin 21) then "Athlete"
        else if fle (Fin 21) bf && flt bf (Fin 25) then "Fit"
        else if fle (Fin 25) bf && flt bf (Fin 32) then "Average"
        else "Obese"
  end.

(** The range of the Ideal Weight tab, from the two estimates. *)
Definition ideal_weight_range (dev ham : f64) : f64 * f64 :=
  let lower := py_round (fmul (py_min dev ham) (lit (95 # 100))) 1 in
  let upper := py_round (fmul (py_max dev ham) (lit (105 # 100))) 1 in
  (lower, upper).

(** The carousel cursor lives in the session under the key [tip_idx];
    an absent key reads as 0. *)
Record session_state : Type := { tip_idx : option Z }.

Definition get_tip_idx (st : session_state) : Z :=
  match tip_idx st with
  | Some i => i
  | None => 0
  end.

Definition on_prev (st : session_state) : session_state :=
  {| tip_idx := Some (Z.max 0 (get_tip_idx st - 1)) |}.

Definition on_next (st : session_state) : session_state :=
  {| tip_idx := Some (get_tip_idx st + 1) |}.

Fixpoint repeat_click (n : nat) (click : session_state -> session_state)
  (st : session_state) : session_state :=
  match n with
  | O => st
  | S k => click (repeat_click k click st)
  end.

(** A reference C library: [pow(x, 2.0)] correctly rounded. *)
Definition pow_rn (x y : f64) : f64 := fmul x x.

(** What the theorems below ask of the C library: through [**], squaring is
    monotone on the non-negative floats. *)
Definition sq_monotone (libm_pow : f64 -> f64 -> f64) : Prop :=
  forall (a b : Q) (ra rb : f64),
    (0 <= a)%Q -> (a <= b)%Q ->
    float_pow_2 libm_pow (Fin a) = Ok ra ->
    float_pow_2 libm_pow (Fin b) = Ok rb ->
    fle ra rb = true.

(** Half an ulp of the doubles of magnitude at most [2^k]. *)
Definition eps (k : Z) : Q := inject_Z (2 ^ k) / inject_Z (2 ^ 53).

(* ================================================================== *)
(** * The rest of [app.py] *)
(* ================================================================== *)

(** The strings of the tips are the bytes of their UTF-8 source text. *)
Definition HEALTH_TIPS : list string :=
  [ "Drink 8 glasses of water daily 💧";
    "Get at least 7 hours of sleep 🛌";
    "Stretch for 5 minutes every hour 🧘";
    "Aim for 150 minutes of moderate exercise per week 🏃";
    "Include vegetables and protein with every meal 🥗";
    "Walk for 30 minutes after lunch if possible 🚶" ].

(** A [dict] with string keys, in the order of its literal; [None] stands
    for the [KeyError] of a missing key. *)
Definition dict_get {V : Type} (d : list (string * V)) (key : string)
  : option V :=
  option_map snd (find (fun kv => String.eqb (fst kv) key) d).

Definition ACTIVITY_MULTIPLIERS : list (string * f64) :=
  [ ("Sedentary (little or no exercise)", lit (12 # 10));
    ("Light (1-3 days/week)", lit (1375 # 1000));
    ("Moderate (3-5 days/week)", lit (155 # 100));
    ("Active (6-7 days/week)", lit (1725 # 1000));
    ("Very Active (hard exercise or physical job)", lit (19 # 10)) ].

(** The BMR tab: [round(bmr * ACTIVITY_MULTIPLIERS[activity], 0)]. *)
Definition tdee_of (bmr : f64) (activity : string) : option f64 :=
  match dict_get ACTIVITY_MULTIPLIERS activity with
  | Some m => Some (py_round (fmul bmr m) 0)
  | None => None
  end.

Definition ideal_weight_devine (gender : string) (height_cm : f64)
  : result f64 :=
  height_in <- py_div height_cm c2_54 ;;
  let base := if is_male gender then Fin 50 else lit (455 # 10) in
  let extra_inches := py_max (Fin 0) (fsub height_in (Fin 60)) in
  let ideal := fadd base (fmul (lit (23 # 10)) extra_inches) in
  Ok (py_round ideal 1).

Definition ideal_weight_hamwi (gender : string) (height_cm : f64)
  : result f64 :=
  height_in <- py_div height_cm c2_54 ;;
  let '(base, per_inch) :=
    if is_male gender then (Fin 48, lit (27 # 10))
    else (lit (455 # 10), lit (23 # 10)) in
  let extra_inches := py_max (Fin 0) (fsub height_in (Fin 60)) in
  let ideal := fadd base (fmul per_inch extra_inches) in
  Ok (py_round ideal 1).

(** The Ideal Weight tab: both estimates and the range drawn from them. *)
Definition ideal_weight_tab (sex : string) (height_cm : f64)
  : result (f64 * f64 * (f64 * f64)) :=
  dev <- ideal_weight_devine sex height_cm ;;
  ham <- ideal_weight_hamwi sex height_cm ;;
  Ok (dev, ham, ideal_weight_range dev ham).








(** [l[i]] on a list: a negative index counts from the end; [None] stands
    for an [IndexError]. *)
Definition py_index {A : Type} (l : list A) (i : Z) : option A :=
  let n := Z.of_nat (List.length l) in
  let j := if i <? 0 then i + n else i in
  if (j <? 0) || (n <=? j) then None else nth_error l (Z.to_nat j).

(** The tip on display: [HEALTH_TIPS[tip_idx % len(HEALTH_TIPS)]]. *)
Definition tip_to_show (st : session_state) : option string :=
  py_index HEALTH_TIPS (get_tip_idx st mod Z.of_nat (List.length HEALTH_TIPS)).

Inductive click : Type := Prev | Next.

Definition on_click (c : click) (st : session_state) : session_state :=
  match c with
  | Prev => on_prev st
  | Next => on_next st
  end.

(** A run of the page: the clicks in the order they happen. *)
Definition run_clicks (cs : list click) (st : session_state) : session_state :=
  fold_left (fun s c => on_click c s) cs st.

Definition fresh_session : session_state := {| tip_idx := None |}.

(** One run of the script through the Health Tips tab.  The page runs the
    script from the top on every interaction, and a button is [True] only in
    the run that its click started.  [Prev] is handled before the tip is
    drawn and [Next] after it: the run returns the tip it draws and the
    session it leaves.  [None] is a run that neither button started: the
    first load, or another widget. *)
Definition tips_tab_run (pressed : option click) (st : session_state)
  : option string * session_state :=
  let st := match pressed with Some Prev => on_prev st | _ => st end in
  let shown := tip_to_show st in
  let st := match pressed with Some Next => on_next st | _ => st end in
  (shown, st).

(** The page after its first load and the runs that follow: the tip that
    the last run drew, and the session. *)
Definition page_after (events : list (option click)) (st : session_state)
  : option string * session_state :=
  fold_left (fun p e => tips_tab_run e (snd p)) events (tips_tab_run None st).

Definition tip_on_display (events : list (option click)) (st : session_state)
  : option string :=
  fst (page_after events st).

(** Half a step of the decimals with [n] places. *)
Definition half_step (n : nat) : Q := (1 # 2) / inject_Z (10 ^ Z.of_nat n).

(** The number of [Next] clicks in a run. *)
Definition nexts (cs : list click) : nat :=
  List.length
    (filter (fun c => match c with Next => true | Prev => false end) cs).

(** What the BMI tab asks of the C library: on a height in metres between
    0.49 and 3.01, [pow(x, 2.0)] is a number within [1e-9] of the square. *)
Definition sq_accurate (libm_pow : f64 -> f64 -> f64) : Prop :=
  forall a : Q, (49 # 100 <= a)%Q -> (a <= 301 # 100)%Q ->
    exists s : Q,
      libm_pow (Fin a) (Fin 2) = Fin s
      /\ (a * a - (1 # 1000000000) <= s)%Q
      /\ (s <= a * a + (1 # 1000000000))%Q.

(** The BMR tab: the BMR and, from the activity chosen, the TDEE; [None]
    stands for a [KeyError] of the dictionary. *)
Definition bmr_tab (sex : string) (age : Z) (weight_kg height_cm : f64)
  (activity : string) : result (option (f64 * f64)) :=
  bmr <- calculate_bmr sex age weight_kg height_cm ;;
  Ok (option_map (fun tdee => (bmr, tdee)) (tdee_of bmr activity)).

(** The Body Fat tab: the hip is asked for, and passed on, only for a gender
    whose lowercase form is "female" or "f"; otherwise [hip_cm] stays
    [None]. *)
Definition is_female (gender : string) : bool :=
  str_in (lower gender) ["female"; "f"].

Definition body_fat_tab (libm_log10 : f64 -> f64) (sex : string)
  (waist_cm neck_cm height_cm hip_entry : f64) : result (option f64) :=
  let hip_cm := if is_female sex then Some hip_entry else None in
  body_fat_navy libm_log10 sex waist_cm neck_cm height_cm hip_cm.

(** What the Body Fat tab asks of the C library: on the positive numbers up
    to 1000, [log10] is a number between -400 and 3, and at least 1 from 10
    on. *)
Definition log10_plausible (libm_log10 : f64 -> f64) : Prop :=
  forall a : Q, (0 < a)%Q -> (a <= 1000)%Q ->
    exists r : Q,
      libm_log10 (Fin a) = Fin r
      /\ (- (400) <= r)%Q /\ (r <= 3)%Q
      /\ ((10 <= a)%Q -> (1 <= r)%Q).

(** Reading a primitive float of the kernel into the model. *)
Module Binary64.

Import Floats.

Definition of_prim (x : float) : f64 :=
  match Prim2SF x with
  | S754_zero _ => Fin 0
  | S754_infinity s => if s then F64.NInf else F64.PInf
  | S754_nan => F64.NaN
  | S754_finite s m e =>
      let v := (inject_Z (Zpos m) * Qpower 2 e)%Q in
      Fin (Qred (if s then - v else v))
  end.

End Binary64.

(* ================================================================== *)
(** * Rounding to the nearest double: order and error *)
(* ================================================================== *)

(** ** Rounding to an integer *)

Lemma rne_comp (x y : Q) : x == y -> rne x = rne y.
Proof.
  intros E. unfold rne. rewrite <- (Qfloor_comp _ _ E).
  assert (C : (x - inject_Z (Qfloor x) ?= 1 # 2)%Q
              = (y - inject_Z (Qfloor x) ?= 1 # 2)%Q).
  { apply Qcompare_comp; [lra | reflexivity]. }
  rewrite C. reflexivity.
Qed.

Lemma rne_bounds (x : Q) :
  (inject_Z (rne x) - (1 # 2) <= x <= inject_Z (rne x) + (1 # 2))%Q.
Proof.
  unfold rne.
  pose proof (Qfloor_le x) as Hl. pose proof (Qlt_floor x) as Hu.
  rewrite inject_Z_plus in Hu. change (inject_Z 1) with 1%Q in Hu.
  destruct (Qcompare_spec (x - inject_Z (Qfloor x)) (1 # 2)) as [E|L|G].
  - destruct (Z.even (Qfloor x)); rewrite ?inject_Z_plus;
      change (inject_Z 1) with 1%Q; lra.
  - lra.
  - rewrite inject_Z_plus. change (inject_Z 1) with 1%Q. lra.
Qed.

Lemma rne_floor (x : Q) : Qfloor x <= rne x <= Qfloor x + 1.
Proof.
  unfold rne.
  destruct (Qcompare (x - inject_Z (Qfloor x)) (1 # 2));
    try destruct (Z.even (Qfloor x)); lia.
Qed.

Lemma rne_mono (x y : Q) : (x <= y)%Q -> rne x <= rne y.
Proof.
  intros Hxy. pose proof (Qfloor_resp_le _ _ Hxy) as Hf.
  destruct (Z.eq_dec (Qfloor x) (Qfloor y)) as [E|N].
  - unfold rne. rewrite <- E.
    destruct (Qcompare_spec (x - inject_Z (Qfloor x)) (1 # 2)) as [E1|L1|G1];
      destruct (Qcompare_spec (y - inject_Z (Qfloor x)) (1 # 2)) as [E2|L2|G2];
      try destruct (Z.even (Qfloor x)); try lia; exfalso; lra.
  - pose proof (rne_floor x). pose proof (rne_floor y). lia.
Qed.

Lemma rne_Z (n : Z) : rne (inject_Z n) = n.
Proof.
  unfold rne. rewrite Qfloor_Z.
  destruct (Qcompare_spec (inject_Z n - inject_Z n) (1 # 2)) as [E|L|G];
    try reflexivity; exfalso; lra.
Qed.

(* ------------------------------------------------------------------ *)
(** ** Rounding on a grid of step [2^t] *)

Lemma pow2_pos (t : Z) : 0 <= t -> 0 < 2 ^ t.
Proof. intros. apply Z.pow_pos_nonneg; lia. Qed.

Lemma pow2Q_pos (t : Z) : 0 <= t -> (0 < inject_Z (2 ^ t))%Q.
Proof.
  intros H. change 0%Q with (inject_Z 0). rewrite <- Zlt_Qlt.
  now apply pow2_pos.
Qed.

(** A multiple of the step below (above) [x] stays below (above) its
    rounding. *)
Lemma grid_ge (t b : Z) (x : Q) :
  0 <= t -> (inject_Z (b * 2 ^ t) <= x)%Q -> b * 2 ^ t <= grid t x.
Proof.
  intros Ht Hx. unfold grid. pose proof (pow2_pos t Ht) as Hp.
  apply Z.mul_le_mono_nonneg_r; [lia|].
  rewrite <- (rne_Z b). apply rne_mono.
  apply Qle_shift_div_l; [now apply pow2Q_pos|].
  now rewrite <- inject_Z_mult.
Qed.

Lemma grid_le (t b : Z) (x : Q) :
  0 <= t -> (x <= inject_Z (b * 2 ^ t))%Q -> grid t x <= b * 2 ^ t.
Proof.
  intros Ht Hx. unfold grid. pose proof (pow2_pos t Ht) as Hp.
  apply Z.mul_le_mono_nonneg_r; [lia|].
  rewrite <- (rne_Z b). apply rne_mono.
  apply Qle_shift_div_r; [now apply pow2Q_pos|].
  now rewrite <- inject_Z_mult.
Qed.

Lemma grid_mono (t : Z) (x y : Q) :
  0 <= t -> (x <= y)%Q -> grid t x <= grid t y.
Proof.
  intros Ht Hxy. unfold grid. pose proof (pow2_pos t Ht) as Hp.
  apply Z.mul_le_mono_nonneg_r; [lia|]. apply rne_mono.
  apply Qmult_le_compat_r; [exact Hxy|].
  apply Qlt_le_weak, Qinv_lt_0_compat. now apply pow2Q_pos.
Qed.

(** The rounding error is at most half a step. *)
Lemma grid_err (t : Z) (x : Q) :
  0 <= t ->
  (inject_Z (grid t x) - (1 # 2) * inject_Z (2 ^ t) <= x
   <= inject_Z (grid t x) + (1 # 2) * inject_Z (2 ^ t))%Q.
Proof.
  intros Ht. unfold grid. pose proof (pow2Q_pos t Ht) as Hp.
  pose proof (rne_bounds (x / inject_Z (2 ^ t))) as [Hl Hu].
  rewrite inject_Z_mult.
  set (p := inject_Z (2 ^ t)) in *. set (r := inject_Z (rne (x / p))) in *.
  set (q := (x / p)%Q) in *.
  assert (Hx : x == q * p) by (unfold q; field; lra).
  assert (H1 : ((r - (1 # 2)) * p <= q * p)%Q)
    by (apply Qmult_le_compat_r; lra).
  assert (H2 : (q * p <= (r + (1 # 2)) * p)%Q)
    by (apply Qmult_le_compat_r; lra).
  rewrite Hx. split.
  - setoid_replace (r * p - (1 # 2) * p)%Q with ((r - (1 # 2)) * p)%Q by ring.
    exact H1.
  - setoid_replace (r * p + (1 # 2) * p)%Q with ((r + (1 # 2)) * p)%Q by ring.
    exact H2.
Qed.

Lemma grid_comp (t : Z) (x y : Q) : x == y -> grid t x = grid t y.
Proof.
  intros E. unfold grid. f_equal. apply rne_comp. now rewrite E.
Qed.

(* ------------------------------------------------------------------ *)
(** ** Rounding to 53 significant bits *)

Lemma ulp_shift_nonneg (x : Q) : 0 <= ulp_shift x.
Proof. unfold ulp_shift. lia. Qed.

Lemma ulp_shift_mono (x y : Q) : (x <= y)%Q -> ulp_shift x <= ulp_shift y.
Proof.
  intros H. unfold ulp_shift.
  pose proof (Z.log2_le_mono _ _ (Qfloor_resp_le _ _ H)). lia.
Qed.

Lemma ulp_shift_comp (x y : Q) : x == y -> ulp_shift x = ulp_shift y.
Proof. intros E. unfold ulp_shift. now rewrite (Qfloor_comp _ _ E). Qed.

Lemma floor_lt_pow (x : Q) : Qfloor x < 2 ^ (53 + ulp_shift x).
Proof.
  unfold ulp_shift. set (k := Qfloor x).
  destruct (Z.le_gt_cases k 0) as [Hk|Hk].
  - pose proof (pow2_pos (53 + Z.max 0 (Z.log2 k - 52))). lia.
  - destruct (Z.log2_spec k Hk) as [_ Hu].
    eapply Z.lt_le_trans; [exact Hu|].
    apply Z.pow_le_mono_r; lia.
Qed.

Lemma lt_pow (x : Q) : (x < inject_Z (2 ^ (53 + ulp_shift x)))%Q.
Proof.
  pose proof (floor_lt_pow x) as H. pose proof (Qlt_floor x) as Hx.
  eapply Qlt_le_trans; [exact Hx|]. rewrite <- Zle_Qle. lia.
Qed.

Lemma pow_le_floor (x : Q) :
  0 < ulp_shift x -> 2 ^ (52 + ulp_shift x) <= Qfloor x.
Proof.
  unfold ulp_shift. set (k := Qfloor x). intros Ht.
  assert (Hk : 0 < k).
  { destruct (Z.le_gt_cases k 0) as [Hk|Hk]; [|exact Hk].
    rewrite (Z.log2_nonpos k Hk) in Ht. lia. }
  destruct (Z.log2_spec k Hk) as [Hl _].
  replace (52 + Z.max 0 (Z.log2 k - 52)) with (Z.log2 k) by lia. exact Hl.
Qed.

Lemma ulp_shift_le (j : Z) (x : Q) :
  0 <= j -> (x < inject_Z (2 ^ (53 + j)))%Q -> ulp_shift x <= j.
Proof.
  intros Hj Hx.
  destruct (Z.le_gt_cases (ulp_shift x) j) as [H|H]; [exact H|exfalso].
  assert (Hp : 0 < ulp_shift x) by lia.
  pose proof (pow_le_floor x Hp) as Hf.
  pose proof (Qfloor_le x) as Hfx.
  assert (Hle : 2 ^ (53 + j) <= 2 ^ (52 + ulp_shift x))
    by (apply Z.pow_le_mono_r; lia).
  assert (Hq : (inject_Z (2 ^ (53 + j)) <= inject_Z (Qfloor x))%Q)
    by (rewrite <- Zle_Qle; lia).
  lra.
Qed.

Lemma rn53_nonneg (x : Q) : (0 <= x)%Q -> 0 <= rn53 x.
Proof.
  intros H. unfold rn53.
  apply (grid_ge (ulp_shift x) 0 x (ulp_shift_nonneg x)). exact H.
Qed.

Lemma rn53_mono (x y : Q) : (x <= y)%Q -> rn53 x <= rn53 y.
Proof.
  intros Hxy. unfold rn53.
  pose proof (ulp_shift_mono _ _ Hxy) as Ht.
  pose proof (ulp_shift_nonneg x) as Hx0.
  destruct (Z.eq_dec (ulp_shift x) (ulp_shift y)) as [E|N].
  - rewrite E. apply grid_mono; [lia|exact Hxy].
  - set (tx := ulp_shift x) in *. set (ty := ulp_shift y) in *.
    assert (Hup : grid tx x <= 2 ^ 53 * 2 ^ tx).
    { apply grid_le; [lia|]. rewrite <- Z.pow_add_r by lia.
      apply Qlt_le_weak. exact (lt_pow x). }
    assert (Hlo : 2 ^ (52 + ty - ty) * 2 ^ ty <= grid ty y).
    { apply grid_ge; [lia|]. rewrite <- Z.pow_add_r by lia.
      replace (52 + ty - ty + ty) with (52 + ty) by lia.
      pose proof (pow_le_floor y ltac:(fold ty; lia)) as Hf. fold ty in Hf.
      pose proof (Qfloor_le y) as Hy.
      assert (Hq : (inject_Z (2 ^ (52 + ty)) <= inject_Z (Qfloor y))%Q)
        by (rewrite <- Zle_Qle; lia).
      lra. }
    rewrite <- Z.pow_add_r in Hup, Hlo by lia.
    replace (52 + ty - ty + ty) with (52 + ty) in Hlo by lia.
    assert (Hm : 2 ^ (53 + tx) <= 2 ^ (52 + ty))
      by (apply Z.pow_le_mono_r; lia).
    lia.
Qed.

Lemma rn53_comp (x y : Q) : x == y -> rn53 x = rn53 y.
Proof.
  intros E. unfold rn53. rewrite (ulp_shift_comp _ _ E). now apply grid_comp.
Qed.

(* ------------------------------------------------------------------ *)
(** ** Rounding a rational to a double *)

Lemma Qle_bool_false (a b : Q) : Qle_bool a b = false -> (b < a)%Q.
Proof.
  intros H. apply Qnot_le_lt. intros L.
  apply Qle_bool_iff in L. congruence.
Qed.

Lemma Qle_bool_comp (a b c d : Q) :
  a == c -> b == d -> Qle_bool a b = Qle_bool c d.
Proof.
  intros E1 E2. destruct (Qle_bool c d) eqn:H.
  - apply Qle_bool_iff. apply Qle_bool_iff in H. lra.
  - apply Qle_bool_false in H. destruct (Qle_bool a b) eqn:H'; [|reflexivity].
    apply Qle_bool_iff in H'. lra.
Qed.

Lemma round_units_mono (x y : Q) :
  (x <= y)%Q -> round_units x <= round_units y.
Proof.
  intros Hxy. unfold round_units.
  destruct (Qle_bool 0 x) eqn:Hx; destruct (Qle_bool 0 y) eqn:Hy.
  - now apply rn53_mono.
  - apply Qle_bool_iff in Hx. apply Qle_bool_false in Hy. lra.
  - apply Qle_bool_false in Hx. apply Qle_bool_iff in Hy.
    pose proof (rn53_nonneg (- x) ltac:(lra)).
    pose proof (rn53_nonneg y Hy). lia.
  - apply Qle_bool_false in Hx. apply Qle_bool_false in Hy.
    pose proof (rn53_mono (- y) (- x) ltac:(lra)). lia.
Qed.

Lemma round_units_comp (x y : Q) : x == y -> round_units x = round_units y.
Proof.
  intros E. unfold round_units.
  rewrite (Qle_bool_comp 0 x 0 y (Qeq_refl 0) E).
  rewrite (rn53_comp x y E). rewrite (rn53_comp (- x) (- y)); [reflexivity|].
  now rewrite E.
Qed.

Lemma units_pos : 0 < units.
Proof. unfold units, unit_exp. now apply pow2_pos. Qed.

Lemma unitsQ_pos : (0 < inject_Z units)%Q.
Proof. change 0%Q with (inject_Z 0). rewrite <- Zlt_Qlt. exact units_pos. Qed.

Lemma of_units_mono (j k : Z) : j <= k -> fle (of_units j) (of_units k) = true.
Proof.
  intros H. unfold of_units.
  assert (Hh : 0 < huge) by (unfold huge, unit_exp; now apply pow2_pos).
  destruct (Z.leb_spec huge j); destruct (Z.leb_spec huge k);
    destruct (Z.leb_spec j (- huge)); destruct (Z.leb_spec k (- huge));
    try reflexivity; try lia.
  cbn [fle]. apply Qle_bool_iff. rewrite !Qred_correct.
  apply Qmult_le_compat_r.
  - now rewrite <- Zle_Qle.
  - apply Qlt_le_weak, Qinv_lt_0_compat, unitsQ_pos.
Qed.

Lemma rnd_comp (a b : Q) : a == b -> rnd a = rnd b.
Proof.
  intros E. unfold rnd. f_equal. apply round_units_comp. now rewrite E.
Qed.

(** Rounding to the nearest double is monotone. *)
Lemma rnd_mono (a b : Q) : (a <= b)%Q -> fle (rnd a) (rnd b) = true.
Proof.
  intros H. unfold rnd. apply of_units_mono, round_units_mono.
  apply Qmult_le_compat_r; [exact H|]. apply Qlt_le_weak, unitsQ_pos.
Qed.

(* ------------------------------------------------------------------ *)
(** ** The rounding error *)

Lemma rn53_bound (j : Z) (x : Q) :
  0 <= j -> (0 <= x)%Q -> (x <= inject_Z (2 ^ (52 + j)))%Q ->
  0 <= rn53 x <= 2 ^ (52 + j)
  /\ (inject_Z (rn53 x) - (1 # 2) * inject_Z (2 ^ j) <= x
      <= inject_Z (rn53 x) + (1 # 2) * inject_Z (2 ^ j))%Q.
Proof.
  intros Hj H0 Hx.
  assert (Ht : ulp_shift x <= j).
  { apply ulp_shift_le; [exact Hj|].
    eapply Qle_lt_trans; [exact Hx|]. rewrite <- Zlt_Qlt.
    apply Z.pow_lt_mono_r; lia. }
  pose proof (ulp_shift_nonneg x) as Ht0.
  split; [split; [now apply rn53_nonneg|]|].
  - unfold rn53.
    replace (2 ^ (52 + j)) with (2 ^ (52 + j - ulp_shift x) * 2 ^ ulp_shift x)
      by (rewrite <- Z.pow_add_r by lia; f_equal; lia).
    apply grid_le; [lia|].
    rewrite <- Z.pow_add_r by lia.
    replace (52 + j - ulp_shift x + ulp_shift x) with (52 + j) by lia.
    exact Hx.
  - unfold rn53. pose proof (grid_err (ulp_shift x) x Ht0) as [Hl Hu].
    assert (Hp : (inject_Z (2 ^ ulp_shift x) <= inject_Z (2 ^ j))%Q)
      by (rewrite <- Zle_Qle; apply Z.pow_le_mono_r; lia).
    generalize dependent (inject_Z (2 ^ ulp_shift x)).
    generalize (inject_Z (2 ^ j)) (inject_Z (grid (ulp_shift x) x)).
    intros pj g pt Hl Hu Hp. clear - Hl Hu Hp. split; lra.
Qed.

Lemma round_units_bound (j : Z) (x : Q) :
  0 <= j -> (Qabs x <= inject_Z (2 ^ (52 + j)))%Q ->
  Z.abs (round_units x) <= 2 ^ (52 + j)
  /\ (Qabs (inject_Z (round_units x) - x) <= (1 # 2) * inject_Z (2 ^ j))%Q.
Proof.
  intros Hj Hx. unfold round_units.
  apply Qabs_Qle_condition in Hx. destruct Hx as [Hx1 Hx2].
  destruct (Qle_bool 0 x) eqn:E.
  - apply Qle_bool_iff in E.
    destruct (rn53_bound j x Hj E Hx2) as [Hr [Hl Hu]].
    split; [lia|]. apply Qabs_Qle_condition. split; lra.
  - apply Qle_bool_false in E.
    destruct (rn53_bound j (- x) Hj ltac:(lra) ltac:(lra)) as [Hr [Hl Hu]].
    split; [lia|]. rewrite inject_Z_opp.
    apply Qabs_Qle_condition. split; lra.
Qed.

(** A rational of magnitude at most [2^k] rounds to a finite double of
    magnitude at most [2^k], and the two differ by at most [2^(k-53)]. *)
Lemma rnd_err (k : Z) (q : Q) :
  0 <= k <= 1000 -> (Qabs q <= inject_Z (2 ^ k))%Q ->
  exists r : Q,
    rnd q = Fin r
    /\ (Qabs (r - q) <= inject_Z (2 ^ k) / inject_Z (2 ^ 53))%Q
    /\ (Qabs r <= inject_Z (2 ^ k))%Q.
Proof.
  intros Hk Hq. unfold rnd.
  set (x := (q * inject_Z units)%Q).
  set (j := k + 1022).
  pose proof unitsQ_pos as HU.
  assert (HkU : 2 ^ (52 + j) = 2 ^ k * units).
  { unfold units, unit_exp, j. rewrite <- Z.pow_add_r by lia. f_equal. lia. }
  assert (HjU : 2 ^ j * 2 ^ 53 = 2 ^ k * 2 * units).
  { unfold units, unit_exp, j. transitivity (2 ^ (Z.succ k + 1074)).
    - rewrite <- Z.pow_add_r by lia. f_equal. lia.
    - rewrite Z.pow_add_r, Z.pow_succ_r by lia.
      generalize (2 ^ k) (2 ^ 1074). intros. ring. }
  assert (Hx : (Qabs x <= inject_Z (2 ^ (52 + j)))%Q).
  { unfold x. rewrite Qabs_Qmult, HkU, inject_Z_mult.
    rewrite (Qabs_pos (inject_Z units)) by lra.
    apply Qmult_le_compat_r; [exact Hq|lra]. }
  destruct (round_units_bound j x ltac:(unfold j; lia) Hx) as [Hr He].
  set (m := round_units x) in *.
  assert (Hh : 2 ^ (52 + j) < huge).
  { unfold huge, unit_exp, j. apply Z.pow_lt_mono_r; lia. }
  unfold of_units.
  destruct (Z.leb_spec huge m); [lia|]. destruct (Z.leb_spec m (- huge)); [lia|].
  exists (Qred (inject_Z m / inject_Z units)). split; [reflexivity|].
  rewrite !Qred_correct.
  assert (Hpk : (0 < inject_Z (2 ^ k))%Q) by (apply pow2Q_pos; lia).
  assert (Hp53 : (0 < inject_Z (2 ^ 53))%Q) by (apply pow2Q_pos; lia).
  assert (HjQ : inject_Z (2 ^ j) * inject_Z (2 ^ 53)
                == inject_Z (2 ^ k) * 2 * inject_Z units).
  { rewrite <- !inject_Z_mult. rewrite HjU.
    rewrite !inject_Z_mult. reflexivity. }
  split.
  - setoid_replace (inject_Z m / inject_Z units - q)%Q
      with ((inject_Z m - x) / inject_Z units)%Q by (unfold x; field; lra).
    unfold Qdiv at 1. rewrite Qabs_Qmult.
    rewrite (Qabs_pos (/ inject_Z units)) by (apply Qlt_le_weak, Qinv_lt_0_compat; lra).
    apply Qle_shift_div_l; [exact Hp53|].
    setoid_replace (Qabs (inject_Z m - x) * / inject_Z units * inject_Z (2 ^ 53))%Q
      with ((Qabs (inject_Z m - x) * inject_Z (2 ^ 53)) / inject_Z units)%Q
      by (field; lra).
    apply Qle_shift_div_r; [exact HU|].
    eapply Qle_trans.
    + apply Qmult_le_compat_r; [exact He|lra].
    + setoid_replace ((1 # 2) * inject_Z (2 ^ j) * inject_Z (2 ^ 53))%Q
        with ((1 # 2) * (inject_Z (2 ^ j) * inject_Z (2 ^ 53)))%Q by ring.
      rewrite HjQ. apply Qle_lteq. right. ring.
  - unfold Qdiv. rewrite Qabs_Qmult.
    rewrite (Qabs_pos (/ inject_Z units)) by (apply Qlt_le_weak, Qinv_lt_0_compat; lra).
    apply Qle_shift_div_r; [exact HU|].
    change (inject_Z m) with (m # 1). rewrite <- Zabs_Qabs.
    change (Z.abs m # 1) with (inject_Z (Z.abs m)).
    rewrite <- inject_Z_mult, <- Zle_Qle. lia.
Qed.

(* ================================================================== *)
(** * Agreement with the kernel's binary64 *)
(* ================================================================== *)

(** Rocq's primitive floats are IEEE-754 binary64, like Python's.  The
    checks below run the model next to them, on the decimal literals of
    the program (written in the hexadecimal form that Python's [float.hex]
    prints) and on its operations, up to overflow and underflow. *)
Module Binary64Check.

Import Floats Binary64.

Local Open Scope float_scope.

Example lit_2_54 : of_prim 0x1.451eb851eb852p+1 = lit (254 # 100).
Proof. vm_compute. reflexivity. Qed.

Example lit_18_49 : of_prim 0x1.27d70a3d70a3dp+4 = lit (1849 # 100).
Proof. vm_compute. reflexivity. Qed.

Example lit_0_95 : of_prim 0x1.e666666666666p-1 = lit (95 # 100).
Proof. vm_compute. reflexivity. Qed.

Example lit_1_05 : of_prim 0x1.0cccccccccccdp+0 = lit (105 # 100).
Proof. vm_compute. reflexivity. Qed.

Example lit_1e_200 : of_prim 0x1.87e92154ef7acp-665 = lit (1 # 10 ^ 200).
Proof. vm_compute. reflexivity. Qed.

Example div_170_100 : of_prim (170 / 100) = fdiv (Fin 170) (Fin 100).
Proof. vm_compute. reflexivity. Qed.

Example div_170_2_54 :
  of_prim (170 / 0x1.451eb851eb852p+1) = fdiv (Fin 170) (lit (254 # 100)).
Proof. vm_compute. reflexivity. Qed.

Example div_1_3 : of_prim (1 / 3) = fdiv (Fin 1) (Fin 3).
Proof. vm_compute. reflexivity. Qed.

Example mul_63_0_95 :
  of_prim (63 * 0x1.e666666666666p-1) = fmul (Fin 63) (lit (95 # 100)).
Proof. vm_compute. reflexivity. Qed.

Example mul_1_7_1_7 :
  of_prim (0x1.b333333333333p+0 * 0x1.b333333333333p+0)
  = fmul (lit (17 # 10)) (lit (17 # 10)).
Proof. vm_compute. reflexivity. Qed.

Example add_0_1_0_2 :
  of_prim (0x1.999999999999ap-4 + 0x1.999999999999ap-3)
  = fadd (lit (1 # 10)) (lit (2 # 10)).
Proof. vm_compute. reflexivity. Qed.

Example sub_inches_60 :
  of_prim (170 / 0x1.451eb851eb852p+1 - 60)
  = fsub (fdiv (Fin 170) (lit (254 # 100))) (Fin 60).
Proof. vm_compute. reflexivity. Qed.

Example bmr_sum :
  of_prim (10 * 70 + 6.25 * 170 - 150 + 5)
  = fadd (fsub (fadd (fmul (Fin 10) (Fin 70)) (fmul (lit (625 # 100)) (Fin 170)))
               (Fin 150)) (Fin 5).
Proof. vm_compute. reflexivity. Qed.

Example mul_overflow : of_prim (0x1p+1023 * 4) = fmul (Fin (2 ^ 1023)) (Fin 4).
Proof. vm_compute. reflexivity. Qed.

Example mul_subnormal :
  of_prim (0x1.87e92154ef7acp-665 * 0x1p-400)
  = fmul (lit (1 # 10 ^ 200)) (fdiv (Fin 1) (Fin (2 ^ 400))).
Proof. vm_compute. reflexivity. Qed.

Example mul_underflow :
  of_prim (0x1.f5a549627a36cp-672 * 0x1.f5a549627a36cp-672)
  = fmul (lit (1 # 10 ^ 202)) (lit (1 # 10 ^ 202)).
Proof. vm_compute. reflexivity. Qed.

End Binary64Check.

(* ================================================================== *)
(** * Facts about comparisons *)
(* ================================================================== *)

Lemma flt_Fin (a b : Q) : flt (Fin a) (Fin b) = true <-> (a < b)%Q.
Proof.
  cbn [flt]. split.
  - intros H. apply Qle_bool_false. now apply negb_true_iff.
  - intros H. apply negb_true_iff. destruct (Qle_bool b a) eqn:E; [|reflexivity].
    apply Qle_bool_iff in E. lra.
Qed.

Lemma fle_Fin (a b : Q) : fle (Fin a) (Fin b) = true <-> (a <= b)%Q.
Proof. cbn [fle]. apply Qle_bool_iff. Qed.

Lemma flt_false_Fin (a b : Q) : flt (Fin a) (Fin b) = false <-> (b <= a)%Q.
Proof.
  cbn [flt]. rewrite negb_false_iff. apply Qle_bool_iff.
Qed.

Lemma fle_false_Fin (a b : Q) : fle (Fin a) (Fin b) = false <-> (b < a)%Q.
Proof.
  cbn [fle]. split.
  - apply Qle_bool_false.
  - intros H. destruct (Qle_bool a b) eqn:E; [|reflexivity].
    apply Qle_bool_iff in E. lra.
Qed.

Lemma flt_fle_false (x y : f64) : flt x y = true -> fle y x = false.
Proof.
  destruct x as [a| | |], y as [b| | |]; cbn [flt fle]; try congruence.
  intros H. now apply negb_true_iff.
Qed.

(** The decimal literals of the thresholds, as doubles. *)
Lemma lit_18_5 : lit (185 # 10) = Fin (37 # 2).
Proof. vm_compute. reflexivity. Qed.

Ltac cmp_to_Q :=
  repeat match goal with
  | H : flt (Fin _) (Fin _) = true |- _ => apply flt_Fin in H
  | H : flt (Fin _) (Fin _) = false |- _ => apply flt_false_Fin in H
  | H : fle (Fin _) (Fin _) = true |- _ => apply fle_Fin in H
  | H : fle (Fin _) (Fin _) = false |- _ => apply fle_false_Fin in H
  end.

Ltac case_cmp :=
  repeat match goal with
  | |- context [flt ?x ?y] => destruct (flt x y) eqn:?
  | |- context [fle ?x ?y] => destruct (fle x y) eqn:?
  end.

Ltac by_thresholds :=
  case_cmp; cbn [andb]; cmp_to_Q;
  first [reflexivity | discriminate | exfalso; lra].

(* ================================================================== *)
(** * BMI categories *)
(* ================================================================== *)

(** C3. [bmi_category] answers "Invalid" for [None] and buckets a number
    by half-open intervals closed on the left: below 18.5 Underweight,
    from 18.5 below 25 Normal, from 25 below 30 Overweight, from 30 on
    Obese; the five boundary values of the specification fall where it
    says. *)
Theorem bmi_category_buckets :
  bmi_category None = "Invalid"
  /\ (forall bmi : f64,
        (flt bmi (lit (185 # 10)) = true ->
           bmi_category (Some bmi) = "Underweight")
        /\ (fle (lit (185 # 10)) bmi = true -> flt bmi (Fin 25) = true ->
           bmi_category (Some bmi) = "Normal")
        /\ (fle (Fin 25) bmi = true -> flt bmi (Fin 30) = true ->
           bmi_category (Some bmi) = "Overweight")
        /\ (fle (Fin 30) bmi = true ->
           bmi_category (Some bmi) = "Obese")
        /\ In (bmi_category (Some bmi))
              ["Underweight"; "Normal"; "Overweight"; "Obese"])
  /\ bmi_category (Some (lit (185 # 10))) = "Normal"
  /\ bmi_category (Some (lit (1849 # 100))) = "Underweight"
  /\ bmi_category (Some (Fin 25)) = "Overweight"
  /\ bmi_category (Some (lit (2999 # 100))) = "Overweight"
  /\ bmi_category (Some (Fin 30)) = "Obese".
Proof.
  split; [reflexivity|]. split.
  - intros bmi.
    assert (Hlabel : In (bmi_category (Some bmi))
                        ["Underweight"; "Normal"; "Overweight"; "Obese"]).
    { unfold bmi_category.
      destruct (flt bmi (lit (185 # 10))); [cbn; auto|].
      destruct (fle (lit (185 # 10)) bmi && flt bmi (Fin 25)); [cbn; auto|].
      destruct (fle (Fin 25) bmi && flt bmi (Fin 30)); cbn; auto. }
    split; [|split; [|split; [|split; [|exact Hlabel]]]]; clear Hlabel;
      unfold bmi_category; rewrite lit_18_5;
      destruct bmi as [a| | |]; intros;
      try discriminate; try reflexivity; by_thresholds.
  - repeat split; vm_compute; reflexivity.
Qed.

(* ================================================================== *)
(** * BMR *)
(* ================================================================== *)

(** C1, as the code has it.  For a 30 year old man of 70 kg and 170 cm the
    Mifflin-St Jeor sum 10*70 + 6.25*170 - 5*30 + 5 is 1617.5, computed
    without rounding error, and [round] takes the tie to the even
    neighbour: the result is 1618. *)
Theorem calculate_bmr_male_30_70_170 :
  is_male "male" = true
  /\ fadd (fsub (fadd (fmul (Fin 10) (Fin 70)) (fmul (lit (625 # 100)) (Fin 170)))
                (Fin 150))
          (Fin 5) = lit (16175 # 10)
  /\ py_round (lit (16175 # 10)) 0 = Fin 1618
  /\ calculate_bmr "male" 30 (Fin 70) (Fin 170) = Ok (Fin 1618).
Proof. repeat split; vm_compute; reflexivity. Qed.

(** C1 as stated fails: the result is neither 1643 nor 1642. *)
Lemma calculate_bmr_male_30_70_170_not_1643 :
  ~ (calculate_bmr "male" 30 (Fin 70) (Fin 170) = Ok (Fin 1643)
     \/ calculate_bmr "male" 30 (Fin 70) (Fin 170) = Ok (Fin 1642)).
Proof.
  assert (E : calculate_bmr "male" 30 (Fin 70) (Fin 170) = Ok (Fin 1618))
    by (vm_compute; reflexivity).
  rewrite E. intros [H|H]; discriminate H.
Qed.

(* ================================================================== *)
(** * Ideal weight range *)
(* ================================================================== *)

(** C5, as the code has it.  The range is 0.95 times the smaller and 1.05
    times the larger estimate, each rounded to one decimal; for the
    estimates 65.0 and 63.0 that is (59.8, 68.2): the products are
    59.849999999999994 and 68.25, and the tie 68.25 goes to the even
    digit. *)
Theorem ideal_weight_range_spec :
  (forall dev ham : f64,
     ideal_weight_range dev ham
     = (py_round (fmul (py_min dev ham) (lit (95 # 100))) 1,
        py_round (fmul (py_max dev ham) (lit (105 # 100))) 1))
  /\ py_min (Fin 65) (Fin 63) = Fin 63
  /\ py_max (Fin 65) (Fin 63) = Fin 65
  /\ fmul (Fin 65) (lit (105 # 100)) = lit (6825 # 100)
  /\ ideal_weight_range (Fin 65) (Fin 63) = (lit (598 # 10), lit (682 # 10)).
Proof.
  split; [reflexivity|]. repeat split; vm_compute; reflexivity.
Qed.

(** C5 as stated fails: the range of 65.0 and 63.0 is not (59.85, 68.25). *)
Lemma ideal_weight_range_65_63_not_unrounded :
  ideal_weight_range (Fin 65) (Fin 63) <> (lit (5985 # 100), lit (6825 # 100)).
Proof. vm_compute. intros H. discriminate H. Qed.

(* ================================================================== *)
(** * Body fat interpretation *)
(* ================================================================== *)

(** C8, as the code has it.  Without a body-fat value the label is
    "Invalid data for estimation", whatever the gender and the age. *)
Theorem bf_interpretation_none (gender : string) (age : Z) :
  bf_interpretation gender age None = "Invalid data for estimation".
Proof. reflexivity. Qed.

(** C8 as stated fails: the label is not the bare word "Invalid". *)
Lemma bf_interpretation_none_not_Invalid :
  bf_interpretation "male" 0 None <> "Invalid".
Proof. cbn. intros H. discriminate H. Qed.

(* ================================================================== *)
(** * Tip carousel *)
(* ================================================================== *)

Lemma get_on_next (st : session_state) :
  get_tip_idx (on_next st) = get_tip_idx st + 1.
Proof. reflexivity. Qed.

Lemma get_on_prev (st : session_state) :
  get_tip_idx (on_prev st) = Z.max 0 (get_tip_idx st - 1).
Proof. reflexivity. Qed.

Lemma get_repeat_next (n : nat) (st : session_state) :
  get_tip_idx (repeat_click n on_next st) = get_tip_idx st + Z.of_nat n.
Proof.
  induction n as [|n IH]; cbn [repeat_click].
  - lia.
  - rewrite get_on_next, IH. lia.
Qed.

(** [Prev] undoes as many steps as it is pressed while the cursor stays
    above the clamp. *)
Lemma get_repeat_prev (n : nat) (st : session_state) :
  Z.of_nat n <= get_tip_idx st ->
  get_tip_idx (repeat_click n on_prev st) = get_tip_idx st - Z.of_nat n.
Proof.
  induction n as [|n IH]; cbn [repeat_click]; intros H.
  - lia.
  - rewrite get_on_prev, IH; lia.
Qed.

(** C9. [Prev] stores [max(0, index - 1)]: from 0 it stays at 0 and the
    index it stores is never negative.  [N] times [Next] followed by [N]
    times [Prev] gives the original index back whenever none of the [Prev]
    steps is clamped, that is, whenever each of them starts from an index of
    at least 1; this is the case for every session whose index is not
    negative. *)
Theorem prev_next_carousel (st : session_state) (n : nat) :
  get_tip_idx (on_prev st) = Z.max 0 (get_tip_idx st - 1)
  /\ (get_tip_idx st = 0 -> get_tip_idx (on_prev st) = 0)
  /\ 0 <= get_tip_idx (on_prev st)
  /\ ((forall k : nat, (k < n)%nat ->
         1 <= get_tip_idx (repeat_click k on_prev (repeat_click n on_next st))) ->
      get_tip_idx (repeat_click n on_prev (repeat_click n on_next st))
      = get_tip_idx st)
  /\ (0 <= get_tip_idx st ->
      get_tip_idx (repeat_click n on_prev (repeat_click n on_next st))
      = get_tip_idx st).
Proof.
  split; [reflexivity|]. split; [intros E; rewrite get_on_prev, E; reflexivity|].
  split; [rewrite get_on_prev; lia|].
  assert (Hback : 0 <= get_tip_idx st ->
            get_tip_idx (repeat_click n on_prev (repeat_click n on_next st))
            = get_tip_idx st).
  { intros H0. rewrite get_repeat_prev; rewrite get_repeat_next; lia. }
  split; [|exact Hback].
  intros Hfree. destruct n as [|n]; [reflexivity|].
  apply Hback.
  (* the last [Prev] starts from an index of at least 1 *)
  pose proof (Hfree n (Nat.lt_succ_diag_r n)) as Hlast.
  destruct (Z.le_gt_cases 0 (get_tip_idx st)) as [H|H]; [exact H|exfalso].
  set (s0 := repeat_click (S n) on_next st) in *.
  assert (Hs0 : get_tip_idx s0 <= Z.of_nat n)
    by (unfold s0; rewrite get_repeat_next; lia).
  assert (Hdown : forall k : nat, (k <= n)%nat ->
            get_tip_idx (repeat_click k on_prev s0) <= Z.of_nat n - Z.of_nat k).
  { induction k as [|k IHk]; intros Hk; cbn [repeat_click].
    - lia.
    - rewrite get_on_prev.
      pose proof (Hfree k ltac:(lia)). specialize (IHk ltac:(lia)). lia. }
  specialize (Hdown n (Nat.le_refl n)). lia.
Qed.

(* ================================================================== *)
(** * Body fat, Navy method *)
(* ================================================================== *)

Lemma is_male_iff (gender : string) :
  is_male gender = true <-> lower gender = "male" \/ lower gender = "m".
Proof.
  unfold is_male, str_in. cbn [existsb]. rewrite orb_false_r, orb_true_iff.
  rewrite !String.eqb_eq. reflexivity.
Qed.

Lemma rnd_0 : rnd 0 = Fin 0.
Proof. vm_compute. reflexivity. Qed.

(** A finite girth difference that is not positive in exact arithmetic is
    not positive as a double either. *)
Lemma fsub_nonpos (a b : Q) :
  (a <= b)%Q -> fle (fsub (Fin a) (Fin b)) (Fin 0) = true.
Proof.
  intros H. unfold fsub, fneg, fadd. rewrite <- rnd_0. apply rnd_mono.
  rewrite Qred_correct. lra.
Qed.

Lemma math_log10_nonpos (lg : f64 -> f64) (x : f64) :
  fle x (Fin 0) = true -> math_log10 lg x = Raise ValueError.
Proof.
  destruct x as [a| | |]; cbn [fle math_log10]; try discriminate; try reflexivity.
  intros H. now rewrite H.
Qed.

Section BodyFatFacts.

Variable libm_log10 : f64 -> f64.

Local Abbreviation navy := (body_fat_navy libm_log10).
Local Abbreviation navy_body := (body_fat_navy_body libm_log10).
Local Abbreviation log10 := (math_log10 libm_log10).

Lemma navy_of_body (gender : string) (w n h : f64) (hip : option f64) :
  navy gender w n h hip
  = match navy_body gender w n h hip with
    | Ok bf => Ok (Some bf)
    | Raise _ => Ok None
    end.
Proof.
  unfold body_fat_navy, try_except, bind.
  destruct (navy_body gender w n h hip); reflexivity.
Qed.

Lemma navy_caught (gender : string) (w n h : f64) (hip : option f64) (e : exn) :
  navy_body gender w n h hip = Raise e -> navy gender w n h hip = Ok None.
Proof. intros H. now rewrite navy_of_body, H. Qed.

Lemma navy_male_girth (gender : string) (w n h : f64) (hip : option f64) :
  is_male gender = true -> fle (fsub w n) (Fin 0) = true ->
  navy gender w n h hip = Ok None.
Proof.
  intros Hm Hle. apply (navy_caught _ _ _ _ _ ValueError).
  unfold body_fat_navy_body. rewrite Hm.
  now rewrite (math_log10_nonpos _ _ Hle).
Qed.

(** C4, as the code has it.  [body_fat_navy] always returns: whatever the
    [try] block raises is answered with [None].  The block raises, so the
    answer is [None], when the argument of a logarithm is not positive (the
    girth difference or the height), when the hip is missing for a woman
    and when the divisor [val] is zero; in particular for a man whose waist
    is not larger than his neck, such as waist 30, neck 37, height 170,
    when both are numbers, and more generally whenever their difference is
    not NaN, that is, unless both are the same infinity. *)
Theorem body_fat_navy_never_raises
  (gender : string) (w n h : f64) (hip : option f64) :
  (exists v, navy gender w n h hip = Ok v)
  /\ (forall e, navy_body gender w n h hip = Raise e ->
        navy gender w n h hip = Ok None)
  /\ (is_male gender = true -> fle (fsub w n) (Fin 0) = true ->
        navy gender w n h hip = Ok None)
  /\ (is_male gender = true -> forall a b : Q, w = Fin a -> n = Fin b ->
        (a <= b)%Q -> navy gender w n h hip = Ok None)
  /\ (is_male gender = true -> fle w n = true -> fsub w n <> NaN ->
        navy gender w n h hip = Ok None)
  /\ (is_male gender = false -> forall hp, hip = Some hp ->
        fle (fsub (fadd w hp) n) (Fin 0) = true ->
        navy gender w n h hip = Ok None)
  /\ (is_male gender = false -> hip = None -> navy gender w n h hip = Ok None)
  /\ (fle h (Fin 0) = true -> navy gender w n h hip = Ok None)
  /\ (is_male gender = true -> forall l1 l2,
        log10 (fsub w n) = Ok l1 -> log10 h = Ok l2 ->
        is_zero (navy_val_male l1 l2) = true ->
        navy gender w n h hip = Ok None)
  /\ (is_male gender = false -> forall hp l1 l2, hip = Some hp ->
        log10 (fsub (fadd w hp) n) = Ok l1 -> log10 h = Ok l2 ->
        is_zero (navy_val_female l1 l2) = true ->
        navy gender w n h hip = Ok None)
  /\ navy "male" (Fin 30) (Fin 37) (Fin 170) None = Ok None.
Proof.
  split.
  { rewrite navy_of_body. destruct (navy_body gender w n h hip); eauto. }
  split; [intros e; apply navy_caught|].
  split; [apply navy_male_girth|].
  split.
  { intros Hm a b -> -> Hab. apply navy_male_girth; [exact Hm|].
    now apply fsub_nonpos. }
  split.
  { intros Hm Hle Hnan. apply navy_male_girth; [exact Hm|].
    destruct w as [a| | |], n as [b| | |]; cbn [fle] in Hle;
      try discriminate Hle; try reflexivity;
      try (exfalso; apply Hnan; reflexivity).
    apply fsub_nonpos. now apply Qle_bool_iff. }
  split.
  { intros Hf hp -> Hle. apply (navy_caught _ _ _ _ _ ValueError).
    unfold body_fat_navy_body, add_hip. rewrite Hf. cbn [bind].
    now rewrite (math_log10_nonpos _ _ Hle). }
  split.
  { intros Hf ->. apply (navy_caught _ _ _ _ _ TypeError).
    unfold body_fat_navy_body, add_hip. now rewrite Hf. }
  split.
  { intros Hh. rewrite navy_of_body. unfold body_fat_navy_body, add_hip.
    rewrite (math_log10_nonpos _ _ Hh).
    destruct (is_male gender).
    - destruct (log10 (fsub w n)); reflexivity.
    - destruct hip as [hp|]; [|reflexivity]. cbn [bind].
      destruct (log10 (fsub (fadd w hp) n)); reflexivity. }
  split.
  { intros Hm l1 l2 H1 H2 Hz. apply (navy_caught _ _ _ _ _ ZeroDivisionError).
    unfold body_fat_navy_body. rewrite Hm, H1, H2. cbn [bind].
    unfold py_div. now rewrite Hz. }
  split.
  { intros Hf hp l1 l2 -> H1 H2 Hz.
    apply (navy_caught _ _ _ _ _ ZeroDivisionError).
    unfold body_fat_navy_body, add_hip. rewrite Hf. cbn [bind].
    rewrite H1, H2. cbn [bind]. unfold py_div. now rewrite Hz. }
  apply navy_male_girth; [reflexivity|]. vm_compute. reflexivity.
Qed.

(** C10. For a gender whose lowercase form is "male" or "m" the hip
    circumference is not read: two calls that differ only in [hip_cm],
    [None] included, return the same. *)
Theorem body_fat_navy_male_ignores_hip
  (gender : string) (w n h : f64) (hip1 hip2 : option f64) :
  lower gender = "male" \/ lower gender = "m" ->
  navy gender w n h hip1 = navy gender w n h hip2.
Proof.
  intros Hg. apply is_male_iff in Hg.
  rewrite !navy_of_body. unfold body_fat_navy_body. now rewrite Hg.
Qed.

End BodyFatFacts.

Lemma fmul_NaN_r (x : f64) : fmul x NaN = NaN.
Proof. destruct x; reflexivity. Qed.

Lemma fsub_NaN_r (x : f64) : fsub x NaN = NaN.
Proof. destruct x; reflexivity. Qed.

Lemma navy_val_male_NaN (l2 : f64) : navy_val_male NaN l2 = NaN.
Proof. unfold navy_val_male. now rewrite fmul_NaN_r, fsub_NaN_r. Qed.

(** C4 as stated fails: an infinite waist with an equal neck is a waist that
    is not larger than the neck, yet the difference is NaN, [math.log10] of
    NaN is NaN and nothing raises: for a man of 170 cm, with every C library
    whose [log10] of 170 is a number, and for an infinite height with every
    C library, the result is NaN and not [None]. *)
Lemma body_fat_navy_infinite_waist_not_None :
  fle PInf PInf = true
  /\ fle NInf NInf = true
  /\ (forall (libm_log10 : f64 -> f64) (r : Q),
        libm_log10 (Fin 170) = Fin r ->
        body_fat_navy libm_log10 "male" PInf PInf (Fin 170) None
        = Ok (Some NaN)
        /\ body_fat_navy libm_log10 "male" NInf NInf (Fin 170) None
           = Ok (Some NaN))
  /\ (forall libm_log10 : f64 -> f64,
        body_fat_navy libm_log10 "male" PInf PInf PInf None = Ok (Some NaN)).
Proof.
  split; [reflexivity|]. split; [reflexivity|]. split.
  - intros lg r Hr.
    assert (E : math_log10 lg (Fin 170) = Ok (Fin r))
      by (cbn [math_log10]; change (Qle_bool 170 0) with false; now rewrite Hr).
    split; rewrite navy_of_body; unfold body_fat_navy_body;
      change (is_male "male") with true; rewrite E;
      cbn [fsub fneg fadd math_log10 bind];
      rewrite navy_val_male_NaN; reflexivity.
  - intros lg. rewrite navy_of_body. unfold body_fat_navy_body.
    change (is_male "male") with true. cbn [fsub fneg fadd math_log10 bind].
    rewrite navy_val_male_NaN. reflexivity.
Qed.

Lemma body_fat_navy_male_ignores_hip_witness :
  (lower "Male" = "male" \/ lower "Male" = "m")
  /\ body_fat_navy (fun _ => Fin 2) "Male" (Fin 80) (Fin 37) (Fin 170) None
     = body_fat_navy (fun _ => Fin 2) "Male" (Fin 80) (Fin 37) (Fin 170)
         (Some (Fin 95)).
Proof.
  split; [left; reflexivity|].
  apply (body_fat_navy_male_ignores_hip (fun _ => Fin 2) "Male").
  left. reflexivity.
Defined.

(* ================================================================== *)
(** * BMI *)
(* ================================================================== *)

Lemma flt_zero_fle (h : f64) : flt (Fin 0) h = true -> fle h (Fin 0) = false.
Proof. apply flt_fle_false. Qed.

Section BmiFacts.

Variable libm_pow : f64 -> f64 -> f64.

Local Abbreviation bmi := (calculate_bmi libm_pow).

Lemma bmi_guard (w h : f64) : fle h (Fin 0) = true -> bmi w h = Ok None.
Proof. intros H. unfold calculate_bmi. now rewrite H. Qed.

Lemma bmi_unfold (w h : f64) :
  fle h (Fin 0) = false ->
  bmi w h
  = (height_m <- py_div h (Fin 100) ;;
     sq <- float_pow_2 libm_pow height_m ;;
     q <- py_div w sq ;;
     Ok (Some (py_round q 2))).
Proof. intros H. unfold calculate_bmi. now rewrite H. Qed.

Lemma bmi_none_guard (w h : f64) : bmi w h = Ok None -> fle h (Fin 0) = true.
Proof.
  destruct (fle h (Fin 0)) eqn:E; [reflexivity|].
  rewrite (bmi_unfold _ _ E). unfold bind.
  destruct (py_div h (Fin 100)); [|discriminate].
  destruct (float_pow_2 libm_pow a); [|discriminate].
  destruct (py_div w a0); discriminate.
Qed.

(** C2, as the code has it.  [calculate_bmi] returns [None] exactly when
    the height is at most 0, in particular for weight 70 and height 0.  For
    a height above 0 whose square in metres, [(height_cm / 100) ** 2],
    evaluates to a float other than zero, it returns the weight divided by
    that square, rounded to 2 decimals. *)
Theorem calculate_bmi_spec (w h : f64) :
  (bmi w h = Ok None <-> fle h (Fin 0) = true)
  /\ (flt (Fin 0) h = true ->
      forall sq : f64,
        float_pow_2 libm_pow (fdiv h (Fin 100)) = Ok sq ->
        is_zero sq = false ->
        bmi w h = Ok (Some (py_round (fdiv w sq) 2)))
  /\ bmi (Fin 70) (Fin 0) = Ok None.
Proof.
  split; [split; [apply bmi_none_guard | apply bmi_guard]|].
  split; [|apply bmi_guard; reflexivity].
  intros Hpos sq Hsq Hnz.
  rewrite (bmi_unfold _ _ (flt_zero_fle _ Hpos)).
  change (py_div h (Fin 100)) with (Ok (fdiv h (Fin 100))). cbn [bind].
  rewrite Hsq. cbn [bind]. unfold py_div. now rewrite Hnz.
Qed.

End BmiFacts.

Lemma calculate_bmi_spec_witness :
  flt (Fin 0) (Fin 170) = true
  /\ calculate_bmi pow_rn (Fin 70) (Fin 170) = Ok (Some (lit (2422 # 100))).
Proof.
  split; [reflexivity|].
  destruct (calculate_bmi_spec pow_rn (Fin 70) (Fin 170)) as (_ & H & _).
  rewrite (H eq_refl (pow_rn (lit (17 # 10)) (Fin 2)));
    [vm_compute; reflexivity | vm_compute; reflexivity | reflexivity].
Defined.

(** C2 as stated fails: the height 1e-200 is above 0, yet its square in
    metres underflows to zero and the division raises. *)
Lemma calculate_bmi_tiny_height_raises :
  flt (Fin 0) (lit (1 # 10 ^ 200)) = true
  /\ calculate_bmi pow_rn (Fin 70) (lit (1 # 10 ^ 200))
     = Raise ZeroDivisionError.
Proof. split; vm_compute; reflexivity. Qed.

(* ================================================================== *)
(** * Monotonicity of the BMI *)
(* ================================================================== *)

Lemma of_units_not_nan (k : Z) : of_units k <> NaN.
Proof.
  unfold of_units. destruct (huge <=? k); [discriminate|].
  destruct (k <=? - huge); discriminate.
Qed.

Lemma rnd_not_nan (q : Q) : rnd q <> NaN.
Proof. apply of_units_not_nan. Qed.

Lemma fle_PInf (x : f64) : x <> NaN -> fle x PInf = true.
Proof. destruct x; cbn; congruence. Qed.

Lemma fle_NInf (x : f64) : x <> NaN -> fle NInf x = true.
Proof. destruct x; cbn; congruence. Qed.

Lemma Qeq_bool_pos (d : Q) : (0 < d)%Q -> Qeq_bool d 0 = false.
Proof.
  intros H. destruct (Qeq_bool d 0) eqn:E; [|reflexivity].
  apply Qeq_bool_iff in E. lra.
Qed.

Lemma fdiv_pos (a d : Q) : (0 < d)%Q -> fdiv (Fin a) (Fin d) = rnd (a / d).
Proof. intros H. cbn [fdiv]. now rewrite (Qeq_bool_pos d H). Qed.

Lemma Qdiv_le_num (a b d : Q) : (0 < d)%Q -> (a <= b)%Q -> (a / d <= b / d)%Q.
Proof.
  intros Hd H. apply Qmult_le_compat_r; [exact H|].
  apply Qlt_le_weak, Qinv_lt_0_compat, Hd.
Qed.

Lemma Qdiv_le_den (w c d : Q) :
  (0 <= w)%Q -> (0 < c)%Q -> (c <= d)%Q -> (w / d <= w / c)%Q.
Proof.
  intros Hw Hc Hcd.
  apply Qle_shift_div_l; [exact Hc|].
  setoid_replace (w / d * c)%Q with (w * c / d)%Q by (field; lra).
  apply Qle_shift_div_r; [lra|].
  rewrite (Qmult_comm w c), (Qmult_comm w d).
  apply Qmult_le_compat_r; assumption.
Qed.

(** [round(x, ndigits)] is monotone. *)
Lemma py_round_mono (x y : f64) (n : nat) :
  fle x y = true -> fle (py_round x n) (py_round y n) = true.
Proof.
  intros H.
  assert (Hp : (0 < inject_Z (10 ^ Z.of_nat n))%Q).
  { change 0%Q with (inject_Z 0). rewrite <- Zlt_Qlt.
    apply Z.pow_pos_nonneg; lia. }
  destruct x as [a| | |], y as [b| | |]; cbn [fle] in H; try discriminate;
    cbn [py_round]; try reflexivity;
    destruct (323 <? n)%nat; try reflexivity;
    try (apply fle_PInf, rnd_not_nan); try (apply fle_NInf, rnd_not_nan).
  - exact H.
  - apply Qle_bool_iff in H. apply rnd_mono, Qdiv_le_num; [exact Hp|].
    rewrite <- Zle_Qle. apply rne_mono.
    apply Qmult_le_compat_r; [exact H|lra].
Qed.

Lemma float_pow_2_rn (a : Q) (r : f64) :
  (0 <= a)%Q -> float_pow_2 pow_rn (Fin a) = Ok r -> r = rnd (a * a).
Proof.
  intros Ha. cbn [float_pow_2].
  destruct (Qeq_bool a 0) eqn:E0.
  - apply Qeq_bool_iff in E0. intros [= <-].
    rewrite <- rnd_0. apply rnd_comp. rewrite E0. reflexivity.
  - destruct (Qeq_bool (Qabs a) 1) eqn:E1.
    + apply Qeq_bool_iff in E1. rewrite (Qabs_pos a Ha) in E1. intros [= <-].
      change (Fin 1) with (rnd 1). apply rnd_comp. rewrite E1. reflexivity.
    + unfold pow_rn. cbn [fmul].
      assert (E : rnd (Qabs a * Qabs a) = rnd (a * a))
        by (apply rnd_comp; rewrite (Qabs_pos a Ha); reflexivity).
      rewrite E. destruct (rnd (a * a)); intros [= <-]; reflexivity.
Qed.

Lemma pow_rn_sq_monotone : sq_monotone pow_rn.
Proof.
  intros a b ra rb Ha Hab Hra Hrb.
  rewrite (float_pow_2_rn a ra Ha Hra), (float_pow_2_rn b rb ltac:(lra) Hrb).
  apply rnd_mono.
  apply Qle_trans with (b * a)%Q.
  - apply Qmult_le_compat_r; assumption.
  - rewrite (Qmult_comm b a). apply Qmult_le_compat_r; [assumption|lra].
Qed.

Section BmiMonotone.

Variable libm_pow : f64 -> f64 -> f64.
Hypothesis pow_mono : sq_monotone libm_pow.

Local Abbreviation bmi := (calculate_bmi libm_pow).
Local Abbreviation sqr := (float_pow_2 libm_pow).

Lemma height_m_nonneg (h : Q) : (0 <= h)%Q -> fle (Fin 0) (rnd (h / 100)) = true.
Proof.
  intros H. rewrite <- rnd_0. apply rnd_mono.
  apply Qle_shift_div_l; lra.
Qed.

Lemma bmi_inv (w h : Q) (b : f64) :
  (0 < h)%Q -> bmi (Fin w) (Fin h) = Ok (Some b) ->
  exists sq : f64,
    sqr (rnd (h / 100)) = Ok sq /\ is_zero sq = false
    /\ b = py_round (fdiv (Fin w) sq) 2.
Proof.
  intros Hh. rewrite bmi_unfold by (apply fle_false_Fin; exact Hh).
  change (py_div (Fin h) (Fin 100)) with (Ok (rnd (h / 100))). cbn [bind].
  destruct (sqr (rnd (h / 100))) as [sq|e]; [|discriminate]. cbn [bind].
  unfold py_div. destruct (is_zero sq) eqn:Ez; [discriminate|]. cbn [bind].
  intros [= <-]. exists sq. auto.
Qed.

Lemma sqr_nonneg (x sq : f64) :
  fle (Fin 0) x = true -> sqr x = Ok sq -> fle (Fin 0) sq = true.
Proof.
  destruct x as [a| | |]; cbn [fle]; try discriminate.
  - intros Ha Hs. apply Qle_bool_iff in Ha.
    apply (pow_mono 0%Q a (Fin 0) sq); [lra|exact Ha|reflexivity|exact Hs].
  - intros _ [= <-]. reflexivity.
Qed.

Lemma sqr_mono (x y sx sy : f64) :
  fle (Fin 0) x = true -> fle x y = true ->
  sqr x = Ok sx -> sqr y = Ok sy -> fle sx sy = true.
Proof.
  intros H0 Hxy Hx Hy.
  pose proof (sqr_nonneg x sx H0 Hx) as Hsx.
  destruct x as [a| | |], y as [b| | |]; cbn [fle] in H0, Hxy; try discriminate.
  - apply Qle_bool_iff in H0. apply Qle_bool_iff in Hxy.
    exact (pow_mono a b sx sy H0 Hxy Hx Hy).
  - cbn in Hy. injection Hy as <-.
    destruct sx; cbn in Hsx |- *; congruence.
  - cbn in Hx, Hy. injection Hx as <-. injection Hy as <-. reflexivity.
Qed.

Lemma pos_of_nonneg_nonzero (c : Q) :
  Qle_bool 0 c = true -> Qeq_bool c 0 = false -> (0 < c)%Q.
Proof.
  intros H0 Hz. apply Qle_bool_iff in H0.
  destruct (Qlt_le_dec 0 c) as [L|G]; [exact L|exfalso].
  assert (E : c == 0) by lra. apply Qeq_bool_iff in E. congruence.
Qed.

Lemma fdiv_anti (w : Q) (s1 s2 : f64) :
  (0 <= w)%Q -> fle (Fin 0) s1 = true -> is_zero s1 = false ->
  fle s1 s2 = true ->
  fle (fdiv (Fin w) s2) (fdiv (Fin w) s1) = true.
Proof.
  intros Hw H0 Hz H12.
  destruct s1 as [c1| | |], s2 as [c2| | |]; cbn [fle is_zero] in H0, Hz, H12;
    try discriminate.
  - pose proof (pos_of_nonneg_nonzero c1 H0 Hz) as Hc1.
    apply Qle_bool_iff in H12.
    rewrite !fdiv_pos by lra. apply rnd_mono. now apply Qdiv_le_den.
  - pose proof (pos_of_nonneg_nonzero c1 H0 Hz) as Hc1.
    rewrite fdiv_pos by lra. cbn [fdiv]. rewrite <- rnd_0. apply rnd_mono.
    apply Qle_shift_div_l; lra.
  - reflexivity.
Qed.

Lemma fdiv_mono (w1 w2 : Q) (s : f64) :
  (w1 <= w2)%Q -> fle (Fin 0) s = true -> is_zero s = false ->
  fle (fdiv (Fin w1) s) (fdiv (Fin w2) s) = true.
Proof.
  intros Hw H0 Hz.
  destruct s as [c| | |]; cbn [fle is_zero] in H0, Hz; try discriminate.
  - pose proof (pos_of_nonneg_nonzero c H0 Hz) as Hc.
    rewrite !fdiv_pos by lra. apply rnd_mono. now apply Qdiv_le_num.
  - reflexivity.
Qed.

(** C6, as the code has it.  On a C library whose [pow] squares
    monotonically, and for finite positive weights and heights on which
    [calculate_bmi] returns a number: a larger height never gives a larger
    BMI (weight fixed) and a larger weight never gives a smaller one (height
    fixed).  Because of the rounding to 2 decimals the results may be
    equal. *)
Theorem calculate_bmi_monotone :
  (forall (w h1 h2 : Q) (b1 b2 : f64),
     (0 < w)%Q -> (0 < h1)%Q -> (h1 <= h2)%Q ->
     bmi (Fin w) (Fin h1) = Ok (Some b1) ->
     bmi (Fin w) (Fin h2) = Ok (Some b2) ->
     fle b2 b1 = true)
  /\ (forall (w1 w2 h : Q) (b1 b2 : f64),
     (0 < w1)%Q -> (w1 <= w2)%Q -> (0 < h)%Q ->
     bmi (Fin w1) (Fin h) = Ok (Some b1) ->
     bmi (Fin w2) (Fin h) = Ok (Some b2) ->
     fle b1 b2 = true).
Proof.
  split.
  - intros w h1 h2 b1 b2 Hw Hh1 Hh12 E1 E2.
    destruct (bmi_inv _ _ _ Hh1 E1) as (s1 & Hs1 & Hz1 & ->).
    destruct (bmi_inv _ _ _ (Qlt_le_trans _ _ _ Hh1 Hh12) E2)
      as (s2 & Hs2 & Hz2 & ->).
    apply py_round_mono.
    pose proof (height_m_nonneg h1 ltac:(lra)) as Hm1.
    assert (Hm : fle (rnd (h1 / 100)) (rnd (h2 / 100)) = true)
      by (apply rnd_mono, Qdiv_le_num; [reflexivity|exact Hh12]).
    apply fdiv_anti; [lra| |exact Hz1|].
    + exact (sqr_nonneg _ _ Hm1 Hs1).
    + exact (sqr_mono _ _ _ _ Hm1 Hm Hs1 Hs2).
  - intros w1 w2 h b1 b2 Hw1 Hw12 Hh E1 E2.
    destruct (bmi_inv _ _ _ Hh E1) as (s1 & Hs1 & Hz1 & ->).
    destruct (bmi_inv _ _ _ Hh E2) as (s2 & Hs2 & Hz2 & ->).
    rewrite Hs1 in Hs2. injection Hs2 as <-.
    apply py_round_mono, fdiv_mono; [exact Hw12| |exact Hz1].
    exact (sqr_nonneg _ _ (height_m_nonneg h ltac:(lra)) Hs1).
Qed.

End BmiMonotone.

Lemma calculate_bmi_monotone_witness :
  sq_monotone pow_rn
  /\ calculate_bmi pow_rn (Fin 70) (Fin 170) = Ok (Some (lit (2422 # 100)))
  /\ calculate_bmi pow_rn (Fin 70) (Fin 180) = Ok (Some (lit (216 # 10)))
  /\ calculate_bmi pow_rn (Fin 80) (Fin 180) = Ok (Some (lit (2469 # 100)))
  /\ fle (lit (216 # 10)) (lit (2422 # 100)) = true
  /\ fle (lit (216 # 10)) (lit (2469 # 100)) = true.
Proof.
  split; [exact pow_rn_sq_monotone|].
  assert (E1 : calculate_bmi pow_rn (Fin 70) (Fin 170)
               = Ok (Some (lit (2422 # 100)))) by (vm_compute; reflexivity).
  assert (E2 : calculate_bmi pow_rn (Fin 70) (Fin 180)
               = Ok (Some (lit (216 # 10)))) by (vm_compute; reflexivity).
  assert (E3 : calculate_bmi pow_rn (Fin 80) (Fin 180)
               = Ok (Some (lit (2469 # 100)))) by (vm_compute; reflexivity).
  destruct (calculate_bmi_monotone pow_rn pow_rn_sq_monotone) as [Hh Hw].
  split; [exact E1|]. split; [exact E2|]. split; [exact E3|]. split.
  - apply (Hh 70 170 180)%Q; [reflexivity|reflexivity|discriminate|exact E1|exact E2].
  - apply (Hw 70 80 180)%Q; [reflexivity|discriminate|reflexivity|exact E2|exact E3].
Defined.

(** C6 as stated fails: a larger weight, or a larger height, can give the
    same BMI. *)
Lemma calculate_bmi_not_strict :
  flt (Fin 70) (lit (70001 # 1000)) = true
  /\ calculate_bmi pow_rn (Fin 70) (Fin 100) = Ok (Some (Fin 70))
  /\ calculate_bmi pow_rn (lit (70001 # 1000)) (Fin 100) = Ok (Some (Fin 70))
  /\ flt (Fin 170) (lit (170001 # 1000)) = true
  /\ calculate_bmi pow_rn (Fin 70) (Fin 170) = Ok (Some (lit (2422 # 100)))
  /\ calculate_bmi pow_rn (Fin 70) (lit (170001 # 1000))
     = Ok (Some (lit (2422 # 100))).
Proof. repeat split; vm_compute; reflexivity. Qed.

(* ================================================================== *)
(** * Centimetres to feet and inches and back *)
(* ================================================================== *)

Lemma rnd_near (k : Z) (q : Q) :
  0 <= k <= 1000 ->
  (- inject_Z (2 ^ k) <= q)%Q -> (q <= inject_Z (2 ^ k))%Q ->
  exists r : Q,
    rnd q = Fin r
    /\ (q - eps k <= r)%Q /\ (r <= q + eps k)%Q
    /\ (- inject_Z (2 ^ k) <= r)%Q /\ (r <= inject_Z (2 ^ k))%Q.
Proof.
  intros Hk Hl Hu.
  destruct (rnd_err k q Hk) as (r & Hr & He & Hb).
  { apply Qabs_Qle_condition. split; assumption. }
  exists r. split; [exact Hr|]. fold (eps k) in He.
  apply Qabs_Qle_condition in He. apply Qabs_Qle_condition in Hb.
  destruct He, Hb. repeat split; try assumption; lra.
Qed.

Ltac num_consts :=
  repeat match goal with
  | H : context [eps ?k] |- _ =>
      let e := eval vm_compute in (eps k) in change (eps k) with e in H
  | H : context [inject_Z (2 ^ ?k)] |- _ =>
      let e := eval vm_compute in (inject_Z (2 ^ k)) in
      change (inject_Z (2 ^ k)) with e in H
  | |- context [inject_Z (2 ^ ?k)] =>
      let e := eval vm_compute in (inject_Z (2 ^ k)) in
      change (inject_Z (2 ^ k)) with e
  end.

(** [destruct_rnd k q as r]: name the double that [q] rounds to, with its
    error and magnitude bounds; leaves the two magnitude conditions. *)
Tactic Notation "round" constr(k) constr(q) "as" ident(r) ident(Hr) :=
  let Hl := fresh "Hlo" in
  let Hu := fresh "Hhi" in
  assert (Hl : (- inject_Z (2 ^ k) <= q)%Q);
  [ num_consts
  | assert (Hu : (q <= inject_Z (2 ^ k))%Q);
    [ num_consts
    | destruct (rnd_near k q ltac:(lia) Hl Hu) as (r & Hr & ? & ? & ? & ?);
      clear Hl Hu; num_consts ] ].

Lemma Qtrunc_near (v : Q) :
  (v - 1 <= inject_Z (Qtrunc v))%Q /\ (inject_Z (Qtrunc v) <= v + 1)%Q.
Proof.
  unfold Qtrunc. destruct (Qle_bool 0 v).
  - pose proof (Qfloor_le v) as Hf. pose proof (Qlt_floor v) as H.
    rewrite inject_Z_plus in H. change (inject_Z 1) with 1%Q in H.
    split; lra.
  - pose proof (Qle_ceiling v) as Hc. pose proof (Qceiling_lt v) as H'.
    unfold Z.sub in H'. rewrite inject_Z_plus in H'.
    rewrite inject_Z_opp in H'. change (inject_Z 1) with 1%Q in H'.
    split; lra.
Qed.

Lemma Qtrunc_bound (v : Q) (n : Z) :
  (- inject_Z n <= v)%Q -> (v <= inject_Z n)%Q -> - n <= Qtrunc v <= n.
Proof.
  intros Hl Hu. unfold Qtrunc.
  assert (H1 : (- n <= Qfloor v)%Z).
  { rewrite <- (Qfloor_Z (- n)). apply Qfloor_resp_le.
    now rewrite inject_Z_opp. }
  assert (H2 : (Qceiling v <= n)%Z).
  { rewrite <- (Qceiling_Z n). now apply Qceiling_resp_le. }
  pose proof (Qle_floor_ceiling v) as H. rewrite <- Zle_Qle in H.
  destruct (Qle_bool 0 v); lia.
Qed.

Lemma Qfloor_bound (v : Q) (n : Z) :
  (- inject_Z n <= v)%Q -> (v <= inject_Z n)%Q ->
  (- inject_Z n <= inject_Z (Qfloor v))%Q /\ (inject_Z (Qfloor v) <= inject_Z n)%Q.
Proof.
  intros Hl Hu.
  assert (H1 : (- n <= Qfloor v)%Z).
  { rewrite <- (Qfloor_Z (- n)). apply Qfloor_resp_le.
    now rewrite inject_Z_opp. }
  pose proof (Qfloor_le v). split.
  - rewrite <- inject_Z_opp, <- Zle_Qle. exact H1.
  - lra.
Qed.

Lemma fsub_Fin (a b : Q) : fsub (Fin a) (Fin b) = rnd (a - b).
Proof.
  unfold fsub, fneg, fadd. apply rnd_comp. rewrite Qred_correct. reflexivity.
Qed.

Lemma floor_div_12 (i : Q) :
  (- (128) <= i)%Q -> (i <= 128)%Q ->
  exists q : Q,
    float_floor_div (Fin i) (Fin 12) = Ok (Fin q)
    /\ (- (128) <= q)%Q /\ (q <= 128)%Q.
Proof.
  intros Hil Hiu. unfold float_floor_div.
  change (is_zero (Fin 12)) with false. cbv iota zeta.
  cbn [fmod]. change (Qeq_bool 12 0) with false. cbv iota.
  set (m := Qred (i - 12 * inject_Z (Qtrunc (i / 12)))).
  assert (Hm : (- (12) <= m)%Q /\ (m <= 12)%Q).
  { unfold m. rewrite Qred_correct.
    pose proof (Qtrunc_near (i / 12)) as [H1 H2].
    assert (Hv : i / 12 * 12 == i) by (field; discriminate).
    generalize dependent (i / 12)%Q. intros v.
    generalize (inject_Z (Qtrunc v)). intros T **. split; lra. }
  destruct Hm as [Hml Hmu].
  rewrite fsub_Fin.
  round 8 (i - m)%Q as r1 Hr1; [lra|lra|]. rewrite Hr1.
  rewrite fdiv_pos by reflexivity.
  assert (Hv : r1 / 12 * 12 == r1) by (field; discriminate).
  set (v := (r1 / 12)%Q) in *.
  round 5 v as d Hd; [lra|lra|]. rewrite Hd.
  set (adjust := negb (is_zero (Fin m))
                 && negb (Bool.eqb (is_neg (Fin 12)) (is_neg (Fin m)))).
  assert (Hdiv : exists d' : Q,
             (if adjust then fsub (Fin d) (Fin 1) else Fin d) = Fin d'
             /\ (- (64) <= d')%Q /\ (d' <= 64)%Q).
  { destruct adjust.
    - rewrite fsub_Fin. round 6 (d - 1)%Q as d' Hd'; [lra|lra|].
      exists d'. repeat split; [exact Hd'|lra|lra].
    - exists d. repeat split; lra. }
  destruct Hdiv as (d' & -> & Hdl & Hdu).
  destruct (negb (is_zero (Fin d'))).
  - cbn [ffloor].
    destruct (Qfloor_bound d' 64 Hdl Hdu) as [Hfl Hfu].
    change (inject_Z 64) with 64%Q in Hfl, Hfu.
    set (fl := inject_Z (Qfloor d')) in *.
    destruct (flt (lit (1 # 2)) (fsub (Fin d') (Fin fl))).
    + cbn [fadd]. round 7 (fl + 1)%Q as q Hq; [lra|lra|].
      exists q. rewrite Hq. repeat split; lra.
    + exists fl. repeat split; lra.
  - exists 0%Q. repeat split; lra.
Qed.

Lemma c2_54_val : c2_54 = Fin (2859785763380265 # 1125899906842624).
Proof. vm_compute. reflexivity. Qed.

Lemma of_int_small (z : Z) :
  - 2048 <= z <= 2048 ->
  exists f : Q,
    of_int z = Ok (Fin f) /\ (- (2048) <= f)%Q /\ (f <= 2048)%Q.
Proof.
  intros Hz. unfold of_int.
  round 11 (inject_Z z) as f Hf.
  - change (- (2048 # 1))%Q with (inject_Z (- 2048)). rewrite <- Zle_Qle. lia.
  - change (2048 # 1)%Q with (inject_Z 2048). rewrite <- Zle_Qle. lia.
  - exists f. rewrite Hf. repeat split; lra.
Qed.

(** C7. For every height from 50 to 300 cm the conversion to feet and
    inches succeeds, the conversion back succeeds on its result, and the
    value that comes back is within 0.01 of the original. *)
Theorem cm_feet_inches_round_trip (cm : Q) :
  (50 <= cm)%Q -> (cm <= 300)%Q ->
  exists (feet : Z) (rem_in back : Q),
    cm_to_feet_inches (Fin cm) = Ok (feet, Fin rem_in)
    /\ feet_inches_to_cm feet (Fin rem_in) = Ok (Fin back)
    /\ (Qabs (back - cm) <= 1 # 100)%Q.
Proof.
  intros Hlo Hhi. unfold cm_to_feet_inches, feet_inches_to_cm.
  rewrite c2_54_val.
  set (K := (2859785763380265 # 1125899906842624)%Q).
  assert (HK : (0 < K)%Q) by reflexivity.
  unfold py_div. change (is_zero (Fin K)) with false. cbv iota. cbn [bind].
  rewrite fdiv_pos by exact HK.
  assert (Hu : cm / K * K == cm) by (field; discriminate).
  set (u := (cm / K)%Q) in *. subst K.
  round 7 u as i Hi; [lra|lra|]. rewrite Hi.
  destruct (floor_div_12 i) as (q & Hq & Hql & Hqu); [lra|lra|].
  rewrite Hq. cbn [bind py_int].
  pose proof (Qtrunc_bound q 128 Hql Hqu) as Hfeet.
  set (feet := Qtrunc q) in *.
  destruct (of_int_small (feet * 12) ltac:(lia)) as (f12 & Hf & Hfl & Hfu).
  rewrite Hf. cbn [bind]. rewrite fsub_Fin.
  round 12 (i - f12)%Q as rem_in Hrem; [lra|lra|]. rewrite Hrem.
  round 13 (f12 + rem_in)%Q as total Htot; [lra|lra|].
  round 15 (total * (2859785763380265 # 1125899906842624))%Q as back Hback;
    [lra|lra|].
  exists feet, rem_in, back. split; [reflexivity|]. split.
  - rewrite Hf. cbn [bind fadd]. rewrite Htot. cbn [fmul]. rewrite Hback.
    reflexivity.
  - apply Qabs_Qle_condition. split; lra.
Qed.

Lemma cm_feet_inches_round_trip_witness :
  (50 <= 170)%Q /\ (170 <= 300)%Q
  /\ exists (feet : Z) (rem_in back : Q),
       cm_to_feet_inches (Fin 170) = Ok (feet, Fin rem_in)
       /\ feet_inches_to_cm feet (Fin rem_in) = Ok (Fin back)
       /\ (Qabs (back - 170) <= 1 # 100)%Q.
Proof.
  split; [discriminate|]. split; [discriminate|].
  apply (cm_feet_inches_round_trip 170); discriminate.
Defined.

(* ================================================================== *)
(** * BMI on the accepted heights *)
(* ================================================================== *)

(** On the heights that the page accepts (50 to 300 cm, also in feet and
    inches) the guard does not fire, the square is a positive number and a BMI
    is returned, here with the correctly rounded [pow]. *)
Lemma calculate_bmi_returns_in_range (w : f64) (h : Q) :
  (50 <= h)%Q -> (h <= 300)%Q ->
  exists sq : Q,
    (0 < sq)%Q
    /\ calculate_bmi pow_rn w (Fin h) = Ok (Some (py_round (fdiv w (Fin sq)) 2)).
Proof.
  intros Hlo Hhi.
  rewrite bmi_unfold by (apply fle_false_Fin; lra).
  change (py_div (Fin h) (Fin 100)) with (Ok (rnd (h / 100))). cbn [bind].
  assert (Hu : h / 100 * 100 == h) by (field; discriminate).
  set (u := (h / 100)%Q) in *.
  round 2 u as hm Hhm; [lra|lra|]. rewrite Hhm.
  assert (Hhm0 : (0 <= hm)%Q) by lra.
  assert (Hsq : exists sq : Q, float_pow_2 pow_rn (Fin hm) = Ok (Fin sq)
                               /\ (0 < sq)%Q).
  { destruct (float_pow_2 pow_rn (Fin hm)) as [r|e] eqn:E.
    - rewrite (float_pow_2_rn hm r Hhm0 E).
      assert (Hl : (1 # 5 <= hm * hm)%Q) by nra.
      assert (Hh : (hm * hm <= 16)%Q) by nra.
      round 4 (hm * hm)%Q as sq Hs; [lra|lra|].
      exists sq. rewrite Hs. split; [reflexivity|lra].
    - exfalso. revert E. cbn [float_pow_2].
      destruct (Qeq_bool hm 0); [discriminate|].
      destruct (Qeq_bool (Qabs hm) 1); [discriminate|].
      unfold pow_rn. cbn [fmul].
      assert (Hl : (- (16) <= Qabs hm * Qabs hm)%Q)
        by (rewrite (Qabs_pos hm Hhm0); nra).
      assert (Hh : (Qabs hm * Qabs hm <= 16)%Q)
        by (rewrite (Qabs_pos hm Hhm0); nra).
      round 4 (Qabs hm * Qabs hm)%Q as sq Hs; [lra|lra|].
      rewrite Hs. discriminate. }
  destruct Hsq as (sq & -> & Hpos). cbn [bind].
  exists sq. split; [exact Hpos|].
  unfold py_div. cbn [is_zero]. now rewrite (Qeq_bool_pos sq Hpos).
Qed.

(* ================================================================== *)
(** * Numbers that rounding leaves alone *)
(* ================================================================== *)

Lemma grid_exact (t b : Z) : 0 <= t -> grid t (inject_Z (b * 2 ^ t)) = b * 2 ^ t.
Proof.
  intros Ht. apply Z.le_antisymm.
  - apply grid_le; [exact Ht|]. apply Qle_refl.
  - apply grid_ge; [exact Ht|]. apply Qle_refl.
Qed.

(** An integer with at most 53 significant bits is its own rounding. *)
Lemma rn53_exact (b j : Z) :
  0 <= j -> 0 <= b < 2 ^ 53 -> rn53 (inject_Z (b * 2 ^ j)) = b * 2 ^ j.
Proof.
  intros Hj Hb. unfold rn53.
  set (t := ulp_shift (inject_Z (b * 2 ^ j))).
  assert (Ht0 : 0 <= t) by apply ulp_shift_nonneg.
  assert (Ht : t <= j).
  { apply ulp_shift_le; [exact Hj|]. rewrite <- Zlt_Qlt.
    rewrite Z.pow_add_r by lia. pose proof (pow2_pos j Hj). nia. }
  replace (b * 2 ^ j) with (b * 2 ^ (j - t) * 2 ^ t).
  - apply grid_exact. exact Ht0.
  - rewrite <- Z.mul_assoc, <- Z.pow_add_r by lia. do 2 f_equal. lia.
Qed.

Lemma round_units_exact (b j : Z) :
  0 <= j -> - 2 ^ 53 < b < 2 ^ 53 ->
  round_units (inject_Z (b * 2 ^ j)) = b * 2 ^ j.
Proof.
  intros Hj Hb. unfold round_units. pose proof (pow2_pos j Hj) as Hp.
  destruct (Qle_bool 0 (inject_Z (b * 2 ^ j))) eqn:E.
  - apply Qle_bool_iff in E. change 0%Q with (inject_Z 0) in E.
    rewrite <- Zle_Qle in E. apply rn53_exact; [exact Hj|nia].
  - apply Qle_bool_false in E. change 0%Q with (inject_Z 0) in E.
    rewrite <- Zlt_Qlt in E. rewrite <- inject_Z_opp.
    replace (- (b * 2 ^ j)) with (- b * 2 ^ j) by ring.
    rewrite rn53_exact; [ring|exact Hj|nia].
Qed.

Lemma Qred_Z (z : Z) : Qred (inject_Z z) = inject_Z z.
Proof.
  unfold Qred, inject_Z.
  pose proof (Z.ggcd_gcd z 1) as Hg.
  pose proof (Z.ggcd_correct_divisors z 1) as Hd.
  destruct (Z.ggcd z 1) as [g [aa bb]]. cbn [fst snd] in *.
  rewrite Z.gcd_1_r in Hg. subst g. destruct Hd as [Ha Hb].
  rewrite Z.mul_1_l in Ha, Hb. subst aa bb. reflexivity.
Qed.

(** An integer below [2^53] in magnitude is a double. *)
Lemma rnd_Z (z : Z) :
  - 2 ^ 53 < z < 2 ^ 53 -> rnd (inject_Z z) = Fin (inject_Z z).
Proof.
  intros Hz. unfold rnd.
  assert (E : round_units (inject_Z z * inject_Z units) = z * units).
  { rewrite <- inject_Z_mult. unfold units, unit_exp.
    apply round_units_exact; [lia|exact Hz]. }
  rewrite E. unfold of_units.
  assert (Hh : 2 ^ 53 * units < huge).
  { unfold huge, units, unit_exp. rewrite <- Z.pow_add_r by lia.
    apply Z.pow_lt_mono_r; lia. }
  pose proof units_pos as HU.
  destruct (Z.leb_spec huge (z * units)); [nia|].
  destruct (Z.leb_spec (z * units) (- huge)); [nia|].
  f_equal.
  assert (Eq : inject_Z (z * units) / inject_Z units == inject_Z z).
  { rewrite inject_Z_mult. field. pose proof unitsQ_pos. lra. }
  rewrite (Qred_complete _ _ Eq). apply Qred_Z.
Qed.

(* ================================================================== *)
(** * Order through the float operators *)
(* ================================================================== *)

Lemma Qle_bool_pos (c : Q) : (0 < c)%Q -> Qle_bool 0 c = true.
Proof. intros H. apply Qle_bool_iff. lra. Qed.

Ltac order_cases x y H :=
  destruct x as [?a| | |], y as [?b| | |]; cbn [fle] in H; try discriminate H;
  try (apply Qle_bool_iff in H).

Lemma fdiv_const_mono (c : Q) (x y : f64) :
  (0 < c)%Q -> fle x y = true ->
  fle (fdiv x (Fin c)) (fdiv y (Fin c)) = true.
Proof.
  intros Hc H. order_cases x y H; cbn [fdiv is_neg xorb sign_inf];
    rewrite ?(Qeq_bool_pos c Hc), ?(Qle_bool_pos c Hc); cbn [negb xorb sign_inf];
    try reflexivity;
    try (apply fle_PInf, rnd_not_nan); try (apply fle_NInf, rnd_not_nan).
  apply rnd_mono. now apply Qdiv_le_num.
Qed.

Lemma fsub_const_mono (c : Q) (x y : f64) :
  fle x y = true -> fle (fsub x (Fin c)) (fsub y (Fin c)) = true.
Proof.
  intros H. unfold fsub. cbn [fneg].
  order_cases x y H; cbn [fadd]; try reflexivity;
    try (apply fle_PInf, rnd_not_nan); try (apply fle_NInf, rnd_not_nan).
  apply rnd_mono. lra.
Qed.

Lemma fadd_const_mono (c : Q) (x y : f64) :
  fle x y = true -> fle (fadd (Fin c) x) (fadd (Fin c) y) = true.
Proof.
  intros H.
  order_cases x y H; cbn [fadd]; try reflexivity;
    try (apply fle_PInf, rnd_not_nan); try (apply fle_NInf, rnd_not_nan).
  apply rnd_mono. lra.
Qed.

Lemma fmul_const_mono (c : Q) (x y : f64) :
  (0 < c)%Q -> fle x y = true ->
  fle (fmul (Fin c) x) (fmul (Fin c) y) = true.
Proof.
  intros Hc H.
  order_cases x y H; cbn [fmul is_zero is_neg orb xorb];
    rewrite ?(Qeq_bool_pos c Hc), ?(Qle_bool_pos c Hc);
    cbn [orb negb xorb sign_inf]; try reflexivity;
    try (apply fle_PInf, rnd_not_nan); try (apply fle_NInf, rnd_not_nan).
  apply rnd_mono. rewrite !(Qmult_comm c).
  apply Qmult_le_compat_r; [exact H|lra].
Qed.

(** [max(0, x)]: never below 0 and never NaN, also for a NaN [x]. *)
Lemma py_max_0_nonneg (x : f64) : fle (Fin 0) (py_max (Fin 0) x) = true.
Proof.
  unfold py_max. destruct (flt (Fin 0) x) eqn:E; [|reflexivity].
  destruct x as [a| | |]; cbn [flt] in E; try discriminate; [|reflexivity].
  apply fle_Fin. apply flt_Fin in E. lra.
Qed.

Lemma py_max_0_mono (x y : f64) :
  fle x y = true -> fle (py_max (Fin 0) x) (py_max (Fin 0) y) = true.
Proof.
  intros H. unfold py_max.
  order_cases x y H; cbn [flt]; try reflexivity.
  - destruct (Qle_bool a 0) eqn:Ea; destruct (Qle_bool b 0) eqn:Eb; cbn [negb fle].
    + reflexivity.
    + apply Qle_bool_iff. apply Qle_bool_false in Eb. lra.
    + apply Qle_bool_false in Ea. apply Qle_bool_iff in Eb. lra.
    + now apply Qle_bool_iff.
  - destruct (Qle_bool a 0); reflexivity.
  - destruct (Qle_bool b 0) eqn:Eb; cbn [negb fle]; [reflexivity|].
    apply Qle_bool_iff. apply Qle_bool_false in Eb. lra.
Qed.

(* ================================================================== *)
(** * Ideal weight, Devine and Hamwi *)
(* ================================================================== *)

Lemma py_div_c2_54 (h : f64) : py_div h c2_54 = Ok (fdiv h c2_54).
Proof.
  rewrite c2_54_val. unfold py_div.
  change (is_zero (Fin (2859785763380265 # 1125899906842624))) with false.
  reflexivity.
Qed.

Lemma c2_54_pos : exists c : Q, c2_54 = Fin c /\ (0 < c)%Q.
Proof. rewrite c2_54_val. eexists. split; reflexivity. Qed.

Lemma lit_2_3_pos : exists q : Q, lit (23 # 10) = Fin q /\ (0 < q)%Q.
Proof. vm_compute. eexists. split; reflexivity. Qed.

Lemma lit_2_7_pos : exists q : Q, lit (27 # 10) = Fin q /\ (0 < q)%Q.
Proof. vm_compute. eexists. split; reflexivity. Qed.

Lemma lit_45_5 : lit (455 # 10) = Fin (91 # 2).
Proof. vm_compute. reflexivity. Qed.

Lemma devine_unfold (gender : string) (h : f64) :
  ideal_weight_devine gender h
  = Ok (py_round
          (fadd (if is_male gender then Fin 50 else lit (455 # 10))
                (fmul (lit (23 # 10))
                      (py_max (Fin 0) (fsub (fdiv h c2_54) (Fin 60))))) 1).
Proof. unfold ideal_weight_devine. rewrite py_div_c2_54. reflexivity. Qed.

Lemma hamwi_unfold (gender : string) (h : f64) :
  ideal_weight_hamwi gender h
  = Ok (py_round
          (fadd (if is_male gender then Fin 48 else lit (455 # 10))
                (fmul (if is_male gender then lit (27 # 10) else lit (23 # 10))
                      (py_max (Fin 0) (fsub (fdiv h c2_54) (Fin 60))))) 1).
Proof.
  unfold ideal_weight_hamwi. rewrite py_div_c2_54.
  destruct (is_male gender); reflexivity.
Qed.

Lemma extra_inches_mono (h1 h2 : f64) :
  fle h1 h2 = true ->
  fle (py_max (Fin 0) (fsub (fdiv h1 c2_54) (Fin 60)))
      (py_max (Fin 0) (fsub (fdiv h2 c2_54) (Fin 60))) = true.
Proof.
  intros H. destruct c2_54_pos as (c & -> & Hc).
  apply py_max_0_mono, fsub_const_mono, fdiv_const_mono; assumption.
Qed.

Lemma estimate_mono (base per : f64) (x y : f64) :
  (exists b, base = Fin b) -> (exists p, per = Fin p /\ (0 < p)%Q) ->
  fle x y = true ->
  fle (py_round (fadd base (fmul per x)) 1)
      (py_round (fadd base (fmul per y)) 1) = true.
Proof.
  intros [b ->] (p & -> & Hp) H.
  apply py_round_mono, fadd_const_mono, fmul_const_mono; assumption.
Qed.

Lemma base_is_Fin (m : bool) (x : Q) :
  exists b, (if m then Fin x else lit (455 # 10)) = Fin b.
Proof. destruct m; [|rewrite lit_45_5]; eauto. Qed.

(** A taller person never gets a smaller ideal weight, by either formula
    and for every gender. *)
Theorem ideal_weight_monotone (gender : string) (h1 h2 : f64) :
  fle h1 h2 = true ->
  exists d1 d2 m1 m2 : f64,
    ideal_weight_devine gender h1 = Ok d1
    /\ ideal_weight_devine gender h2 = Ok d2
    /\ fle d1 d2 = true
    /\ ideal_weight_hamwi gender h1 = Ok m1
    /\ ideal_weight_hamwi gender h2 = Ok m2
    /\ fle m1 m2 = true.
Proof.
  intros H. pose proof (extra_inches_mono h1 h2 H) as He.
  rewrite !devine_unfold, !hamwi_unfold.
  do 4 eexists. split; [reflexivity|]. split; [reflexivity|]. split.
  - apply estimate_mono; [apply base_is_Fin|exact lit_2_3_pos|exact He].
  - split; [reflexivity|]. split; [reflexivity|].
    apply estimate_mono; [apply base_is_Fin| |exact He].
    destruct (is_male gender); [exact lit_2_7_pos|exact lit_2_3_pos].
Qed.

Lemma ideal_weight_monotone_witness :
  fle (Fin 170) (Fin 180) = true
  /\ exists d1 d2 m1 m2 : f64,
    ideal_weight_devine "Male" (Fin 170) = Ok d1
    /\ ideal_weight_devine "Male" (Fin 180) = Ok d2
    /\ fle d1 d2 = true
    /\ ideal_weight_hamwi "Male" (Fin 170) = Ok m1
    /\ ideal_weight_hamwi "Male" (Fin 180) = Ok m2
    /\ fle m1 m2 = true.
Proof.
  split; [reflexivity|].
  apply (ideal_weight_monotone "Male" (Fin 170) (Fin 180)). reflexivity.
Defined.

Lemma py_min_self (d : f64) : py_min d d = d.
Proof. unfold py_min. destruct (flt d d); reflexivity. Qed.

Lemma py_max_self (d : f64) : py_max d d = d.
Proof. unfold py_max. destruct (flt d d); reflexivity. Qed.

(** For every gender that is not male the two formulas are the same
    computation: Hamwi's estimate equals Devine's at every height, and the
    range of the tab is 0.95 and 1.05 times that one estimate. *)
Theorem ideal_weight_tab_female_single_estimate (sex : string) (h : f64) :
  is_male sex = false ->
  exists d : f64,
    ideal_weight_devine sex h = Ok d
    /\ ideal_weight_hamwi sex h = Ok d
    /\ ideal_weight_tab sex h
       = Ok (d, d, (py_round (fmul d (lit (95 # 100))) 1,
                    py_round (fmul d (lit (105 # 100))) 1)).
Proof.
  intros Hf. unfold ideal_weight_tab.
  rewrite devine_unfold, hamwi_unfold, Hf. cbn [bind].
  eexists. split; [reflexivity|]. split; [reflexivity|].
  unfold ideal_weight_range. now rewrite py_min_self, py_max_self.
Qed.

Lemma ideal_weight_tab_female_single_estimate_witness :
  is_male "Female" = false
  /\ exists d : f64,
    ideal_weight_devine "Female" (Fin 170) = Ok d
    /\ ideal_weight_hamwi "Female" (Fin 170) = Ok d
    /\ ideal_weight_tab "Female" (Fin 170)
       = Ok (d, d, (py_round (fmul d (lit (95 # 100))) 1,
                    py_round (fmul d (lit (105 # 100))) 1)).
Proof.
  split; [reflexivity|].
  apply (ideal_weight_tab_female_single_estimate "Female" (Fin 170)).
  reflexivity.
Defined.

Lemma fle_flt_false (x y : f64) : fle y x = true -> flt x y = false.
Proof.
  intros H. destruct (flt x y) eqn:E; [|reflexivity].
  apply flt_fle_false in E. congruence.
Qed.

Lemma rnd_le_Z (q : Q) (z : Z) :
  - 2 ^ 53 < z < 2 ^ 53 -> (q <= inject_Z z)%Q ->
  fle (rnd q) (Fin (inject_Z z)) = true.
Proof. intros Hz H. rewrite <- (rnd_Z z Hz). now apply rnd_mono. Qed.

Lemma rnd_ge_Z (q : Q) (z : Z) :
  - 2 ^ 53 < z < 2 ^ 53 -> (inject_Z z <= q)%Q ->
  fle (Fin (inject_Z z)) (rnd q) = true.
Proof. intros Hz H. rewrite <- (rnd_Z z Hz). now apply rnd_mono. Qed.

(** Up to 152.4 cm (5 feet) no inch counts as extra. *)
Lemma extra_inches_none (a : Q) :
  (a <= 1524 # 10)%Q ->
  py_max (Fin 0) (fsub (fdiv (Fin a) c2_54) (Fin 60)) = Fin 0.
Proof.
  intros Ha. unfold py_max. rewrite fle_flt_false; [reflexivity|].
  rewrite c2_54_val. rewrite fdiv_pos by reflexivity.
  assert (H60 : fle (rnd (a / (2859785763380265 # 1125899906842624))) (Fin 60)
                = true).
  { apply (rnd_le_Z _ 60); [lia|].
    apply Qle_shift_div_r; [reflexivity|]. change (inject_Z 60) with 60%Q. lra. }
  apply (fsub_const_mono 60) in H60.
  replace (fsub (Fin 60) (Fin 60)) with (Fin 0) in H60
    by (vm_compute; reflexivity).
  exact H60.
Qed.

(** Both formulas are clamped at 5 feet: at every height, NaN included, the
    estimate is at least the baseline of the gender (50, 48 or 45.5 kg), and
    up to 152.4 cm it is exactly the baseline. *)
Theorem ideal_weight_baseline (gender : string) (h : f64) :
  let base_d := if is_male gender then Fin 50 else lit (455 # 10) in
  let base_h := if is_male gender then Fin 48 else lit (455 # 10) in
  (exists d m : f64,
     ideal_weight_devine gender h = Ok d /\ fle base_d d = true
     /\ ideal_weight_hamwi gender h = Ok m /\ fle base_h m = true)
  /\ (forall a : Q, h = Fin a -> (a <= 1524 # 10)%Q ->
      ideal_weight_devine gender h = Ok base_d
      /\ ideal_weight_hamwi gender h = Ok base_h).
Proof.
  cbv zeta. rewrite devine_unfold, hamwi_unfold. split.
  - pose proof (py_max_0_nonneg (fsub (fdiv h c2_54) (Fin 60))) as He.
    do 2 eexists. split; [reflexivity|]. split; [|split; [reflexivity|]].
    + replace (if is_male gender then Fin 50 else lit (455 # 10))
        with (py_round (fadd (if is_male gender then Fin 50 else lit (455 # 10))
                             (fmul (lit (23 # 10)) (Fin 0))) 1) at 1
        by (destruct (is_male gender); vm_compute; reflexivity).
      apply estimate_mono; [apply base_is_Fin|exact lit_2_3_pos|exact He].
    + replace (if is_male gender then Fin 48 else lit (455 # 10))
        with (py_round (fadd (if is_male gender then Fin 48 else lit (455 # 10))
                (fmul (if is_male gender then lit (27 # 10) else lit (23 # 10))
                      (Fin 0))) 1) at 1
        by (destruct (is_male gender); vm_compute; reflexivity).
      apply estimate_mono; [apply base_is_Fin| |exact He].
      destruct (is_male gender); [exact lit_2_7_pos|exact lit_2_3_pos].
  - intros a -> Ha. rewrite (extra_inches_none a Ha).
    destruct (is_male gender); split; vm_compute; reflexivity.
Qed.

(* ================================================================== *)
(** * How far [round] moves a number *)
(* ================================================================== *)

Ltac num_consts_all :=
  num_consts;
  repeat match goal with
  | H : context [half_step ?n] |- _ =>
      let e := eval vm_compute in (half_step n) in
      change (half_step n) with e in H
  | |- context [half_step ?n] =>
      let e := eval vm_compute in (half_step n) in
      change (half_step n) with e
  | |- context [eps ?k] =>
      let e := eval vm_compute in (eps k) in change (eps k) with e
  end.

Lemma py_round_near (k : Z) (n : nat) (s : Q) :
  0 <= k <= 999 -> (n <= 323)%nat ->
  (- inject_Z (2 ^ k) <= s)%Q -> (s <= inject_Z (2 ^ k))%Q ->
  exists r : Q,
    py_round (Fin s) n = Fin r
    /\ (s - half_step n - eps (k + 1) <= r)%Q
    /\ (r <= s + half_step n + eps (k + 1))%Q.
Proof.
  intros Hk Hn Hl Hu. cbn [py_round].
  destruct (Nat.ltb_spec 323 n) as [Hbig|_]; [lia|].
  unfold half_step. set (p := inject_Z (10 ^ Z.of_nat n)).
  assert (Hp : (1 <= p)%Q).
  { unfold p. change 1%Q with (inject_Z 1). rewrite <- Zle_Qle.
    pose proof (Z.pow_pos_nonneg 10 (Z.of_nat n)). lia. }
  destruct (rne_bounds (s * p)) as [Hrl Hru].
  set (N := inject_Z (rne (s * p))) in *.
  assert (Hq : N / p * p == N) by (field; lra).
  assert (Hh : (1 # 2) / p * p == 1 # 2) by (field; lra).
  set (q := (N / p)%Q) in *. set (hs := ((1 # 2) / p)%Q) in *.
  assert (Hhs : (0 <= hs)%Q /\ (hs <= 1 # 2)%Q) by (split; nra).
  assert (Hqs : (s - hs <= q)%Q /\ (q <= s + hs)%Q) by (split; nra).
  assert (H2 : inject_Z (2 ^ (k + 1)) == 2 * inject_Z (2 ^ k)).
  { rewrite Z.pow_add_r by lia. change (2 ^ 1) with 2.
    rewrite inject_Z_mult. change (inject_Z 2) with 2%Q. ring. }
  assert (H1 : (1 <= inject_Z (2 ^ k))%Q).
  { change 1%Q with (inject_Z 1). rewrite <- Zle_Qle.
    pose proof (pow2_pos k). lia. }
  destruct (rnd_near (k + 1) q ltac:(lia)) as (r & Hr & Hrl' & Hru' & _).
  - rewrite H2. lra.
  - rewrite H2. lra.
  - exists r. split; [exact Hr|]. split; lra.
Qed.

Tactic Notation "pyround" constr(k) constr(n) constr(s) "as" ident(r) ident(Hr) :=
  let Hl := fresh "Hlo" in
  let Hu := fresh "Hhi" in
  assert (Hl : (- inject_Z (2 ^ k) <= s)%Q);
  [ num_consts_all
  | assert (Hu : (s <= inject_Z (2 ^ k))%Q);
    [ num_consts_all
    | destruct (py_round_near k n s ltac:(lia) ltac:(lia) Hl Hu)
        as (r & Hr & ? & ?);
      clear Hl Hu; num_consts_all ] ].

Ltac eval_lit q :=
  let v := eval vm_compute in (lit q) in
  replace (lit q) with v by (vm_compute; reflexivity).

Lemma py_min_Fin (a b : Q) :
  exists m : Q, py_min (Fin a) (Fin b) = Fin m
                /\ (m <= a)%Q /\ (m <= b)%Q /\ (m == a \/ m == b).
Proof.
  unfold py_min. destruct (flt (Fin b) (Fin a)) eqn:E; cmp_to_Q.
  - exists b. split; [reflexivity|]. split; [lra|]. split; [lra|].
    right. reflexivity.
  - exists a. split; [reflexivity|]. split; [lra|]. split; [lra|].
    left. reflexivity.
Qed.

Lemma py_max_Fin (a b : Q) :
  exists m : Q, py_max (Fin a) (Fin b) = Fin m
                /\ (a <= m)%Q /\ (b <= m)%Q /\ (m == a \/ m == b).
Proof.
  unfold py_max. destruct (flt (Fin a) (Fin b)) eqn:E; cmp_to_Q.
  - exists b. split; [reflexivity|]. split; [lra|]. split; [lra|].
    right. reflexivity.
  - exists a. split; [reflexivity|]. split; [lra|]. split; [lra|].
    left. reflexivity.
Qed.

Lemma ideal_weight_range_around (dev ham : Q) :
  (45 <= dev)%Q -> (dev <= 160)%Q -> (45 <= ham)%Q -> (ham <= 160)%Q ->
  exists lo up : Q,
    ideal_weight_range (Fin dev) (Fin ham) = (Fin lo, Fin up)
    /\ (lo < dev)%Q /\ (lo < ham)%Q /\ (dev < up)%Q /\ (ham < up)%Q
    /\ ((94 # 100) * dev <= lo \/ (94 # 100) * ham <= lo)%Q
    /\ (up <= (106 # 100) * dev \/ up <= (106 # 100) * ham)%Q.
Proof.
  intros Hd1 Hd2 Hh1 Hh2. unfold ideal_weight_range.
  destruct (py_min_Fin dev ham) as (m & -> & Hm1 & Hm2 & Hm).
  destruct (py_max_Fin dev ham) as (M & -> & HM1 & HM2 & HM).
  eval_lit (95 # 100). eval_lit (105 # 100). cbn [fmul].
  assert (Hm45 : (45 <= m)%Q) by (destruct Hm as [E|E]; rewrite E; assumption).
  assert (HM160 : (M <= 160)%Q) by (destruct HM as [E|E]; rewrite E; assumption).
  round 8 (m * (4278419646001971 # 4503599627370496))%Q as pl Hpl; [lra|lra|].
  rewrite Hpl.
  round 8 (M * (4728779608739021 # 4503599627370496))%Q as pu Hpu; [lra|lra|].
  rewrite Hpu.
  pyround 8 1%nat pl as lo Elo; [lra|lra|]. rewrite Elo.
  pyround 8 1%nat pu as up Eup; [lra|lra|]. rewrite Eup.
  exists lo, up. split; [reflexivity|].
  split; [lra|]. split; [lra|]. split; [lra|]. split; [lra|]. split.
  - destruct Hm as [E|E]; [left|right]; rewrite <- E; lra.
  - destruct HM as [E|E]; [left|right]; rewrite <- E; lra.
Qed.

(** For two estimates between 45 and 160 kg the range of the Ideal Weight
    tab lies strictly around both: its lower end is below the smaller and its
    upper end above the larger, by between 4 and 6 percent. *)
Theorem ideal_weight_range_contains (dev ham : Q) :
  (45 <= dev)%Q -> (dev <= 160)%Q -> (45 <= ham)%Q -> (ham <= 160)%Q ->
  exists lo up : Q,
    ideal_weight_range (Fin dev) (Fin ham) = (Fin lo, Fin up)
    /\ (lo < dev)%Q /\ (lo < ham)%Q /\ (dev < up)%Q /\ (ham < up)%Q
    /\ ((94 # 100) * dev <= lo \/ (94 # 100) * ham <= lo)%Q
    /\ (up <= (106 # 100) * dev \/ up <= (106 # 100) * ham)%Q.
Proof. exact (ideal_weight_range_around dev ham). Qed.

Lemma ideal_weight_range_contains_witness :
  (45 <= 65)%Q /\ (65 <= 160)%Q /\ (45 <= 63)%Q /\ (63 <= 160)%Q
  /\ exists lo up : Q,
    ideal_weight_range (Fin 65) (Fin 63) = (Fin lo, Fin up)
    /\ (lo < 65)%Q /\ (lo < 63)%Q /\ (65 < up)%Q /\ (63 < up)%Q
    /\ ((94 # 100) * 65 <= lo \/ (94 # 100) * 63 <= lo)%Q
    /\ (up <= (106 # 100) * 65 \/ up <= (106 # 100) * 63)%Q.
Proof.
  repeat (split; [discriminate|]).
  apply (ideal_weight_range_contains 65 63); discriminate.
Defined.

(** Inches over 5 feet for a height from 120 to 250 cm: between 0 and 38.5. *)
Lemma extra_inches_admitted (h : Q) :
  (120 <= h)%Q -> (h <= 250)%Q ->
  exists e : Q,
    py_max (Fin 0) (fsub (fdiv (Fin h) c2_54) (Fin 60)) = Fin e
    /\ (0 <= e)%Q /\ (e <= 385 # 10)%Q.
Proof.
  intros Hl Hu. rewrite c2_54_val.
  set (K := (2859785763380265 # 1125899906842624)%Q).
  rewrite fdiv_pos by reflexivity.
  assert (Hq : h / K * K == h) by (field; discriminate).
  set (u := (h / K)%Q) in *. subst K.
  round 7 u as i Hi; [lra|lra|]. rewrite Hi, fsub_Fin.
  round 7 (i - 60)%Q as x Hx; [lra|lra|]. rewrite Hx.
  destruct (py_max_Fin 0 x) as (e & -> & He0 & Hex & [E|E]).
  - exists e. split; [reflexivity|]. split; lra.
  - exists e. split; [reflexivity|]. split; lra.
Qed.

Lemma estimate_admitted (base per e : Q) :
  (455 # 10 <= base)%Q -> (base <= 50)%Q -> (2 <= per)%Q -> (per <= 271 # 100)%Q ->
  (0 <= e)%Q -> (e <= 385 # 10)%Q ->
  exists d : Q,
    py_round (fadd (Fin base) (fmul (Fin per) (Fin e))) 1 = Fin d
    /\ (454 # 10 <= d)%Q /\ (d <= base + (385 # 10) * per + (6 # 100))%Q.
Proof.
  intros Hb1 Hb2 Hp1 Hp2 He1 He2. cbn [fmul].
  assert (Hpe : (0 <= per * e)%Q /\ (per * e <= 105)%Q) by (split; nra).
  destruct Hpe as [Hpe1 Hpe2].
  round 7 (per * e)%Q as p Hp; [lra|lra|]. rewrite Hp. cbn [fadd].
  round 8 (base + p)%Q as s Hs; [lra|lra|]. rewrite Hs.
  pyround 8 1%nat s as d Ed; [lra|lra|].
  exists d. split; [exact Ed|]. split.
  - lra.
  - assert (Hd : (d <= base + per * e + (6 # 100))%Q) by lra.
    assert (Hx : (per * e <= (385 # 10) * per)%Q) by nra.
    lra.
Qed.

(** On the heights that its input admits (120 to 250 cm) the Ideal Weight
    tab never fails: both estimates are numbers between 45.4 and 153 kg, and
    the range lies strictly around both of them. *)
Theorem ideal_weight_tab_admitted (sex : string) (h : Q) :
  (120 <= h)%Q -> (h <= 250)%Q ->
  exists dev ham lo up : Q,
    ideal_weight_tab sex (Fin h) = Ok (Fin dev, Fin ham, (Fin lo, Fin up))
    /\ (454 # 10 <= dev)%Q /\ (dev <= 153)%Q
    /\ (454 # 10 <= ham)%Q /\ (ham <= 153)%Q
    /\ (lo < dev)%Q /\ (lo < ham)%Q /\ (dev < up)%Q /\ (ham < up)%Q.
Proof.
  intros Hl Hu. unfold ideal_weight_tab.
  rewrite devine_unfold, hamwi_unfold. cbn [bind].
  destruct (extra_inches_admitted h Hl Hu) as (e & -> & He0 & He1).
  rewrite lit_45_5.
  assert (Hdev : exists d, py_round
            (fadd (if is_male sex then Fin 50 else Fin (91 # 2))
                  (fmul (lit (23 # 10)) (Fin e))) 1 = Fin d
            /\ (454 # 10 <= d)%Q /\ (d <= 153)%Q).
  { eval_lit (23 # 10).
    destruct (is_male sex);
      (edestruct estimate_admitted as (d & Ed & Hd1 & Hd2);
        [| | | | exact He0 | exact He1
         | exists d; split; [exact Ed|]; split; [exact Hd1|lra]]; lra). }
  assert (Hham : exists d, py_round
            (fadd (if is_male sex then Fin 48 else Fin (91 # 2))
                  (fmul (if is_male sex then lit (27 # 10) else lit (23 # 10))
                        (Fin e))) 1 = Fin d
            /\ (454 # 10 <= d)%Q /\ (d <= 153)%Q).
  { eval_lit (23 # 10). eval_lit (27 # 10).
    destruct (is_male sex).
    - cbn [fmul].
      assert (Hpe : (0 <= (3039929748475085 # 1125899906842624) * e)%Q
                    /\ ((3039929748475085 # 1125899906842624) * e <= 105)%Q)
        by (split; lra).
      destruct Hpe as [Hpe1 Hpe2].
      round 7 ((3039929748475085 # 1125899906842624) * e)%Q as p Hp; [lra|lra|].
      rewrite Hp. cbn [fadd].
      round 8 (48 + p)%Q as s Hs; [lra|lra|]. rewrite Hs.
      pyround 8 1%nat s as d Ed; [lra|lra|].
      exists d. split; [exact Ed|]. split; lra.
    - edestruct estimate_admitted as (d & Ed & Hd1 & Hd2);
        [| | | | exact He0 | exact He1
         | exists d; split; [exact Ed|]; split; [exact Hd1|lra]]; lra. }
  destruct Hdev as (dev & -> & Hd1 & Hd2).
  destruct Hham as (ham & -> & Hh1 & Hh2).
  destruct (ideal_weight_range_around dev ham)
    as (lo & up & -> & H1 & H2 & H3 & H4 & _); [lra|lra|lra|lra|].
  exists dev, ham, lo, up. repeat split; assumption.
Qed.

Lemma ideal_weight_tab_admitted_witness :
  (120 <= 170)%Q /\ (170 <= 250)%Q
  /\ exists dev ham lo up : Q,
    ideal_weight_tab "Male" (Fin 170) = Ok (Fin dev, Fin ham, (Fin lo, Fin up))
    /\ (454 # 10 <= dev)%Q /\ (dev <= 153)%Q
    /\ (454 # 10 <= ham)%Q /\ (ham <= 153)%Q
    /\ (lo < dev)%Q /\ (lo < ham)%Q /\ (dev < up)%Q /\ (ham < up)%Q.
Proof.
  split; [discriminate|]. split; [discriminate|].
  apply (ideal_weight_tab_admitted "Male" 170); discriminate.
Defined.

(* ================================================================== *)
(** * Devine against Hamwi *)
(* ================================================================== *)

Lemma extra_inches_near (h : Q) :
  (120 <= h)%Q -> (h <= 250)%Q ->
  exists e : Q,
    py_max (Fin 0) (fsub (fdiv (Fin h) c2_54) (Fin 60)) = Fin e
    /\ (0 <= e)%Q /\ (e <= 385 # 10)%Q
    /\ ((h <= 165)%Q -> (e <= 497 # 100)%Q)
    /\ ((1652 # 10 <= h)%Q -> (503 # 100 <= e)%Q).
Proof.
  intros Hl Hu. rewrite c2_54_val.
  set (K := (2859785763380265 # 1125899906842624)%Q).
  rewrite fdiv_pos by reflexivity.
  assert (HK1 : (25399 # 10000 <= K)%Q) by (unfold K; discriminate).
  assert (HK2 : (K <= 25401 # 10000)%Q) by (unfold K; discriminate).
  assert (Hq : h / K * K == h) by (field; discriminate).
  set (u := (h / K)%Q) in *. clearbody K.
  assert (Hu1 : (47 <= u)%Q) by nra.
  assert (Hu2 : (u <= 9849 # 100)%Q) by nra.
  assert (Hs : (h <= 165)%Q -> (u <= 64969 # 1000)%Q) by (intros; nra).
  assert (Ht : (1652 # 10 <= h)%Q -> (65031 # 1000 <= u)%Q) by (intros; nra).
  round 7 u as i Hi; [lra|lra|]. rewrite Hi, fsub_Fin.
  round 7 (i - 60)%Q as x Hx; [lra|lra|]. rewrite Hx.
  destruct (py_max_Fin 0 x) as (e & -> & He0 & Hex & [E|E]);
    exists e; (split; [reflexivity|]); (split; [lra|]); (split; [lra|]);
    split; intros Hh; [specialize (Hs Hh)|specialize (Ht Hh)
                      |specialize (Hs Hh)|specialize (Ht Hh)]; lra.
Qed.

(** For a man the two formulas cross at 5 feet 5 inches, where
    [50 + 2.3 * 5 = 48 + 2.7 * 5]: on the heights of the tab, up to 165 cm
    Hamwi's estimate is not above Devine's, and from 165.2 cm on it is not
    below. *)
Theorem ideal_weight_male_crossover (gender : string) (h : Q) :
  is_male gender = true ->
  (120 <= h)%Q -> (h <= 250)%Q ->
  exists dev ham : Q,
    ideal_weight_devine gender (Fin h) = Ok (Fin dev)
    /\ ideal_weight_hamwi gender (Fin h) = Ok (Fin ham)
    /\ ((h <= 165)%Q -> (ham <= dev)%Q)
    /\ ((1652 # 10 <= h)%Q -> (dev <= ham)%Q).
Proof.
  intros Hm Hl Hu. rewrite devine_unfold, hamwi_unfold, Hm.
  destruct (extra_inches_near h Hl Hu) as (e & -> & He0 & He1 & Hs & Ht).
  eval_lit (23 # 10). eval_lit (27 # 10). cbn [fmul].
  match goal with
  | |- context [rnd (?c * e)] => set (c23 := c)
  end.
  match goal with
  | |- context [fadd (Fin 48) (rnd (?c * e))] => set (c27 := c)
  end.
  assert (Hc1 : ((23 # 10) - (1 # 1000000000000) <= c23)%Q
                /\ (c23 <= (23 # 10) + (1 # 1000000000000))%Q)
    by (unfold c23; split; discriminate).
  assert (Hc2 : ((27 # 10) - (1 # 1000000000000) <= c27)%Q
                /\ (c27 <= (27 # 10) + (1 # 1000000000000))%Q)
    by (unfold c27; split; discriminate).
  destruct Hc1 as [Hc1 Hc1'], Hc2 as [Hc2 Hc2']. clearbody c23 c27.
  assert (Hp1 : (0 <= c23 * e)%Q /\ (c23 * e <= 105)%Q) by (split; nra).
  assert (Hp2 : (0 <= c27 * e)%Q /\ (c27 * e <= 105)%Q) by (split; nra).
  destruct Hp1 as [Hp1 Hp1'], Hp2 as [Hp2 Hp2'].
  assert (Hlow : (e <= 497 # 100)%Q -> (48 + c27 * e + (1 # 100) <= 50 + c23 * e)%Q)
    by (intros; nra).
  assert (Hhigh : (503 # 100 <= e)%Q -> (50 + c23 * e + (1 # 100) <= 48 + c27 * e)%Q)
    by (intros; nra).
  round 7 (c23 * e)%Q as p Hp; [lra|lra|]. rewrite Hp.
  round 7 (c27 * e)%Q as r Hr; [lra|lra|]. rewrite Hr. cbn [fadd].
  round 8 (50 + p)%Q as sd Hsd; [lra|lra|]. rewrite Hsd.
  round 8 (48 + r)%Q as sm Hsm; [lra|lra|]. rewrite Hsm.
  pyround 8 1%nat sd as dev Ed; [lra|lra|].
  pyround 8 1%nat sm as ham Em; [lra|lra|].
  rewrite Ed, Em. exists dev, ham.
  split; [reflexivity|]. split; [reflexivity|].
  split; intros Hh.
  - specialize (Hlow (Hs Hh)).
    apply fle_Fin. rewrite <- Ed, <- Em. apply py_round_mono.
    apply fle_Fin. lra.
  - specialize (Hhigh (Ht Hh)).
    apply fle_Fin. rewrite <- Ed, <- Em. apply py_round_mono.
    apply fle_Fin. lra.
Qed.

Lemma ideal_weight_male_crossover_witness :
  is_male "Male" = true /\ (120 <= 180)%Q /\ (180 <= 250)%Q
  /\ exists dev ham : Q,
    ideal_weight_devine "Male" (Fin 180) = Ok (Fin dev)
    /\ ideal_weight_hamwi "Male" (Fin 180) = Ok (Fin ham)
    /\ ((180 <= 165)%Q -> (ham <= dev)%Q)
    /\ ((1652 # 10 <= 180)%Q -> (dev <= ham)%Q).
Proof.
  split; [reflexivity|]. split; [discriminate|]. split; [discriminate|].
  apply (ideal_weight_male_crossover "Male" 180);
    [reflexivity|discriminate|discriminate].
Defined.

(* ================================================================== *)
(** * Body fat labels *)
(* ================================================================== *)

(** [bf_interpretation] buckets a number by half-open intervals closed on
    the left, with the thresholds 6, 14, 18, 25 for a male gender and 14, 21,
    25, 32 for any other; it always answers one of the five labels, and the
    age does not matter. *)
Theorem bf_interpretation_buckets (gender : string) (age : Z) (bf : f64) :
  (is_male gender = true ->
     (flt bf (Fin 6) = true ->
        bf_interpretation gender age (Some bf) = "Essential fat")
     /\ (fle (Fin 6) bf = true -> flt bf (Fin 14) = true ->
        bf_interpretation gender age (Some bf) = "Athlete")
     /\ (fle (Fin 14) bf = true -> flt bf (Fin 18) = true ->
        bf_interpretation gender age (Some bf) = "Fit")
     /\ (fle (Fin 18) bf = true -> flt bf (Fin 25) = true ->
        bf_interpretation gender age (Some bf) = "Average")
     /\ (fle (Fin 25) bf = true ->
        bf_interpretation gender age (Some bf) = "Obese"))
  /\ (is_male gender = false ->
     (flt bf (Fin 14) = true ->
        bf_interpretation gender age (Some bf) = "Essential fat")
     /\ (fle (Fin 14) bf = true -> flt bf (Fin 21) = true ->
        bf_interpretation gender age (Some bf) = "Athlete")
     /\ (fle (Fin 21) bf = true -> flt bf (Fin 25) = true ->
        bf_interpretation gender age (Some bf) = "Fit")
     /\ (fle (Fin 25) bf = true -> flt bf (Fin 32) = true ->
        bf_interpretation gender age (Some bf) = "Average")
     /\ (fle (Fin 32) bf = true ->
        bf_interpretation gender age (Some bf) = "Obese"))
  /\ In (bf_interpretation gender age (Some bf))
        ["Essential fat"; "Athlete"; "Fit"; "Average"; "Obese"]
  /\ (forall age' : Z,
        bf_interpretation gender age' (Some bf)
        = bf_interpretation gender age (Some bf)).
Proof.
  unfold bf_interpretation.
  split; [|split; [|split; [|reflexivity]]].
  - intros ->. repeat split; destruct bf as [a| | |]; intros;
      try discriminate; try reflexivity; by_thresholds.
  - intros ->. repeat split; destruct bf as [a| | |]; intros;
      try discriminate; try reflexivity; by_thresholds.
  - destruct (is_male gender); case_cmp; cbn; auto 10.
Qed.

(* ================================================================== *)
(** * BMR on the accepted inputs *)
(* ================================================================== *)

Lemma of_int_exact (z : Z) :
  - 2 ^ 53 < z < 2 ^ 53 -> of_int z = Ok (Fin (inject_Z z)).
Proof. intros Hz. unfold of_int. now rewrite (rnd_Z z Hz). Qed.

Lemma lit_6_25 : lit (625 # 100) = Fin (25 # 4).
Proof. vm_compute. reflexivity. Qed.

Lemma bmr_unfold (gender : string) (age : Z) (w h : Q) :
  - 2 ^ 53 < 5 * age < 2 ^ 53 ->
  calculate_bmr gender age (Fin w) (Fin h)
  = Ok (py_round
          (fadd (fsub (fadd (fmul (Fin 10) (Fin w)) (fmul (Fin (25 # 4)) (Fin h)))
                      (Fin (inject_Z (5 * age))))
                (Fin (if is_male gender then 5 else - (161)))) 0).
Proof.
  intros Ha. unfold calculate_bmr. rewrite (of_int_exact _ Ha), lit_6_25.
  destruct (is_male gender); reflexivity.
Qed.

Lemma rnd_le (a b r s : Q) :
  (a <= b)%Q -> rnd a = Fin r -> rnd b = Fin s -> (r <= s)%Q.
Proof.
  intros H Ha Hb. apply fle_Fin. rewrite <- Ha, <- Hb. now apply rnd_mono.
Qed.

(** The float sum of the formula on accepted inputs: the rounding steps,
    with the error of the last one against the exact value. *)
Lemma bmr_sum_admitted (c : Q) (age : Z) (w h : Q) :
  (- (161) <= c)%Q -> (c <= 5)%Q ->
  10 <= age <= 120 -> (30 <= w)%Q -> (w <= 300)%Q ->
  (100 <= h)%Q -> (h <= 250)%Q ->
  exists t1 t2 s1 s2 s3 : Q,
    rnd (10 * w) = Fin t1 /\ rnd ((25 # 4) * h) = Fin t2
    /\ rnd (t1 + t2) = Fin s1
    /\ rnd (s1 - inject_Z (5 * age)) = Fin s2
    /\ rnd (s2 + c) = Fin s3
    /\ (Qabs (s3 - (10 * w + (25 # 4) * h - inject_Z (5 * age) + c))
        <= 1 # 1000000000)%Q.
Proof.
  intros Hc1 Hc2 Ha Hw1 Hw2 Hh1 Hh2.
  assert (Ha1 : (50 <= inject_Z (5 * age))%Q)
    by (change 50%Q with (inject_Z 50); rewrite <- Zle_Qle; lia).
  assert (Ha2 : (inject_Z (5 * age) <= 600)%Q)
    by (change 600%Q with (inject_Z 600); rewrite <- Zle_Qle; lia).
  set (a5 := inject_Z (5 * age)) in *.
  round 12 (10 * w)%Q as t1 Ht1; [lra|lra|].
  round 12 ((25 # 4) * h)%Q as t2 Ht2; [lra|lra|].
  round 13 (t1 + t2)%Q as s1 Hs1; [lra|lra|].
  round 13 (s1 - a5)%Q as s2 Hs2; [lra|lra|].
  round 13 (s2 + c)%Q as s3 Hs3; [lra|lra|].
  exists t1, t2, s1, s2, s3. repeat (split; [assumption|]).
  apply Qabs_Qle_condition. split; lra.
Qed.

Lemma bmr_of_sum (gender : string) (age : Z) (w h : Q) (t1 t2 s1 s2 s3 : Q) :
  10 <= age <= 120 ->
  rnd (10 * w) = Fin t1 -> rnd ((25 # 4) * h) = Fin t2 ->
  rnd (t1 + t2) = Fin s1 ->
  rnd (s1 - inject_Z (5 * age)) = Fin s2 ->
  rnd (s2 + (if is_male gender then 5 else - (161))) = Fin s3 ->
  calculate_bmr gender age (Fin w) (Fin h) = Ok (py_round (Fin s3) 0).
Proof.
  intros Ha Ht1 Ht2 Hs1 Hs2 Hs3. rewrite bmr_unfold by lia.
  cbn [fmul]. rewrite Ht1, Ht2. cbn [fadd]. rewrite Hs1, fsub_Fin, Hs2.
  cbn [fadd]. now rewrite Hs3.
Qed.

Lemma py_round_0_whole (s : Q) :
  - 2 ^ 52 < rne s < 2 ^ 52 ->
  py_round (Fin s) 0 = Fin (inject_Z (rne s))
  /\ (inject_Z (rne s) - (1 # 2) <= s)%Q /\ (s <= inject_Z (rne s) + (1 # 2))%Q.
Proof.
  intros Hn. split; [|apply rne_bounds].
  cbn [py_round Nat.ltb Nat.leb]. change (10 ^ Z.of_nat 0) with 1.
  assert (E : rne (s * inject_Z 1) = rne s) by (apply rne_comp; ring).
  rewrite E. rewrite <- (rnd_Z (rne s)) by lia.
  apply rnd_comp. field.
Qed.

Lemma calculate_bmr_whole (gender : string) (age : Z) (w h : Q) :
  10 <= age <= 120 -> (30 <= w)%Q -> (w <= 300)%Q ->
  (100 <= h)%Q -> (h <= 250)%Q ->
  exists n : Z,
    calculate_bmr gender age (Fin w) (Fin h) = Ok (Fin (inject_Z n))
    /\ 164 <= n <= 4518
    /\ (Qabs (inject_Z n
              - (10 * w + (25 # 4) * h - inject_Z (5 * age)
                 + (if is_male gender then 5 else - (161))))
        <= (1 # 2) + (1 # 1000000000))%Q.
Proof.
  intros Ha Hw1 Hw2 Hh1 Hh2.
  set (c := (if is_male gender then 5 else - (161))%Q).
  assert (Hc : (- (161) <= c)%Q /\ (c <= 5)%Q)
    by (unfold c; destruct (is_male gender); split; discriminate).
  destruct Hc as [Hc1 Hc2].
  destruct (bmr_sum_admitted c age w h Hc1 Hc2 Ha Hw1 Hw2 Hh1 Hh2)
    as (t1 & t2 & s1 & s2 & s3 & Ht1 & Ht2 & Hs1 & Hs2 & Hs3 & Herr).
  rewrite (bmr_of_sum gender age w h t1 t2 s1 s2 s3 Ha Ht1 Ht2 Hs1 Hs2 Hs3).
  apply Qabs_Qle_condition in Herr. destruct Herr as [He1 He2].
  assert (Ha1 : (50 <= inject_Z (5 * age))%Q)
    by (change 50%Q with (inject_Z 50); rewrite <- Zle_Qle; lia).
  assert (Ha2 : (inject_Z (5 * age) <= 600)%Q)
    by (change 600%Q with (inject_Z 600); rewrite <- Zle_Qle; lia).
  destruct (rne_bounds s3) as [Hn1 Hn2].
  assert (Hc3 : (c == 5 \/ c == - (161))%Q)
    by (unfold c; destruct (is_male gender); [left|right]; reflexivity).
  assert (Hex : (164 <= 10 * w + (25 # 4) * h - inject_Z (5 * age) + c)%Q
                /\ (10 * w + (25 # 4) * h - inject_Z (5 * age) + c
                    <= 9035 # 2)%Q)
    by (destruct Hc3 as [E|E]; rewrite E; split; lra).
  destruct Hex as [Hex1 Hex2].
  assert (Hn : 164 <= rne s3 <= 4518).
  { split.
    - assert (H : (inject_Z 163 < inject_Z (rne s3))%Q)
        by (change (inject_Z 163) with 163%Q; lra).
      rewrite <- Zlt_Qlt in H. lia.
    - assert (H : (inject_Z (rne s3) < inject_Z 4519)%Q)
        by (change (inject_Z 4519) with 4519%Q; lra).
      rewrite <- Zlt_Qlt in H. lia. }
  destruct (py_round_0_whole s3 ltac:(lia)) as (-> & _ & _).
  exists (rne s3). split; [reflexivity|]. split; [exact Hn|].
  apply Qabs_Qle_condition. split; lra.
Qed.

(** On the inputs that the BMR tab admits (age 10 to 120, weight 30 to 300
    kg, height 100 to 250 cm) [calculate_bmr] returns a whole number of kcal
    between 164 and 4518, within half a kcal of the exact value of the
    formula. *)
Theorem calculate_bmr_admitted (gender : string) (age : Z) (w h : Q) :
  10 <= age <= 120 -> (30 <= w)%Q -> (w <= 300)%Q ->
  (100 <= h)%Q -> (h <= 250)%Q ->
  exists n : Z,
    calculate_bmr gender age (Fin w) (Fin h) = Ok (Fin (inject_Z n))
    /\ 164 <= n <= 4518
    /\ (Qabs (inject_Z n
              - (10 * w + (25 # 4) * h - inject_Z (5 * age)
                 + (if is_male gender then 5 else - (161))))
        <= (1 # 2) + (1 # 1000000000))%Q.
Proof. exact (calculate_bmr_whole gender age w h). Qed.

Lemma calculate_bmr_admitted_witness :
  10 <= 30 <= 120 /\ (30 <= 70)%Q /\ (70 <= 300)%Q
  /\ (100 <= 170)%Q /\ (170 <= 250)%Q
  /\ exists n : Z,
    calculate_bmr "Female" 30 (Fin 70) (Fin 170) = Ok (Fin (inject_Z n))
    /\ 164 <= n <= 4518
    /\ (Qabs (inject_Z n
              - (10 * 70 + (25 # 4) * 170 - inject_Z (5 * 30)
                 + (if is_male "Female" then 5 else - (161))))
        <= (1 # 2) + (1 # 1000000000))%Q.
Proof.
  split; [lia|]. repeat (split; [discriminate|]).
  apply (calculate_bmr_admitted "Female" 30 70 170); (lia || discriminate).
Defined.

(** On the admitted inputs the BMR never falls when the weight or the
    height grows or the age drops, for either formula. *)
Theorem calculate_bmr_monotone (gender : string)
  (age1 age2 : Z) (w1 w2 h1 h2 : Q) :
  10 <= age2 -> age2 <= age1 -> age1 <= 120 ->
  (30 <= w1)%Q -> (w1 <= w2)%Q -> (w2 <= 300)%Q ->
  (100 <= h1)%Q -> (h1 <= h2)%Q -> (h2 <= 250)%Q ->
  exists b1 b2 : f64,
    calculate_bmr gender age1 (Fin w1) (Fin h1) = Ok b1
    /\ calculate_bmr gender age2 (Fin w2) (Fin h2) = Ok b2
    /\ fle b1 b2 = true.
Proof.
  intros Ha1 Ha2 Ha3 Hw1 Hw2 Hw3 Hh1 Hh2 Hh3.
  set (c := (if is_male gender then 5 else - (161))%Q).
  assert (Hc : (- (161) <= c)%Q /\ (c <= 5)%Q)
    by (unfold c; destruct (is_male gender); split; discriminate).
  destruct Hc as [Hc1 Hc2].
  destruct (bmr_sum_admitted c age1 w1 h1 Hc1 Hc2)
    as (t1 & t2 & s1 & s2 & s3 & Ht1 & Ht2 & Hs1 & Hs2 & Hs3 & _);
    [lia|lra|lra|lra|lra|].
  destruct (bmr_sum_admitted c age2 w2 h2 Hc1 Hc2)
    as (t1' & t2' & s1' & s2' & s3' & Ht1' & Ht2' & Hs1' & Hs2' & Hs3' & _);
    [lia|lra|lra|lra|lra|].
  rewrite (bmr_of_sum gender age1 w1 h1 t1 t2 s1 s2 s3) by (assumption || lia).
  rewrite (bmr_of_sum gender age2 w2 h2 t1' t2' s1' s2' s3')
    by (assumption || lia).
  do 2 eexists. split; [reflexivity|]. split; [reflexivity|].
  apply py_round_mono, fle_Fin.
  assert (L1 : (t1 <= t1')%Q) by (eapply rnd_le; [|exact Ht1|exact Ht1']; lra).
  assert (L2 : (t2 <= t2')%Q) by (eapply rnd_le; [|exact Ht2|exact Ht2']; lra).
  assert (L3 : (s1 <= s1')%Q) by (eapply rnd_le; [|exact Hs1|exact Hs1']; lra).
  assert (La : (inject_Z (5 * age2) <= inject_Z (5 * age1))%Q)
    by (rewrite <- Zle_Qle; lia).
  assert (L4 : (s2 <= s2')%Q) by (eapply rnd_le; [|exact Hs2|exact Hs2']; lra).
  eapply rnd_le; [|exact Hs3|exact Hs3']; lra.
Qed.

Lemma calculate_bmr_monotone_witness :
  10 <= 25 /\ 25 <= 30 /\ 30 <= 120
  /\ (30 <= 70)%Q /\ (70 <= 80)%Q /\ (80 <= 300)%Q
  /\ (100 <= 170)%Q /\ (170 <= 180)%Q /\ (180 <= 250)%Q
  /\ exists b1 b2 : f64,
    calculate_bmr "Male" 30 (Fin 70) (Fin 170) = Ok b1
    /\ calculate_bmr "Male" 25 (Fin 80) (Fin 180) = Ok b2
    /\ fle b1 b2 = true.
Proof.
  do 3 (split; [lia|]). repeat (split; [discriminate|]).
  apply (calculate_bmr_monotone "Male" 30 25 70 80 170 180);
    (lia || discriminate).
Defined.

(* ================================================================== *)
(** * Activity levels and TDEE *)
(* ================================================================== *)

Lemma dict_get_none {V : Type} (d : list (string * V)) (key : string) :
  dict_get d key = None <-> ~ In key (map fst d).
Proof.
  unfold dict_get. induction d as [|[k v] d IH]; cbn [find map fst In].
  - cbn. tauto.
  - destruct (String.eqb_spec k key) as [E|N]; cbn [option_map].
    + split; [discriminate|]. intros H. exfalso. apply H. now left.
    + rewrite IH. tauto.
Qed.

(** The TDEE is defined for the five activity levels of the table and for
    no other key: any other string is a [KeyError]. *)
Theorem tdee_of_defined_iff (bmr : f64) (activity : string) :
  tdee_of bmr activity <> None
  <-> In activity
        [ "Sedentary (little or no exercise)"; "Light (1-3 days/week)";
          "Moderate (3-5 days/week)"; "Active (6-7 days/week)";
          "Very Active (hard exercise or physical job)" ].
Proof.
  change [ "Sedentary (little or no exercise)"; "Light (1-3 days/week)";
           "Moderate (3-5 days/week)"; "Active (6-7 days/week)";
           "Very Active (hard exercise or physical job)" ]
    with (map fst ACTIVITY_MULTIPLIERS).
  unfold tdee_of.
  destruct (dict_get ACTIVITY_MULTIPLIERS activity) as [m|] eqn:E.
  - split; [|discriminate]. intros _.
    destruct (in_dec string_dec activity (map fst ACTIVITY_MULTIPLIERS))
      as [Hin|Hout]; [exact Hin|].
    apply dict_get_none in Hout. congruence.
  - apply dict_get_none in E. split; [congruence|]. intros H. contradiction.
Qed.

Lemma tdee_mult_order (b m1 m2 : Q) :
  (0 <= b)%Q -> (m1 <= m2)%Q ->
  fle (py_round (fmul (Fin b) (Fin m1)) 0) (py_round (fmul (Fin b) (Fin m2)) 0)
  = true.
Proof.
  intros Hb Hm. cbn [fmul]. apply py_round_mono, rnd_mono.
  rewrite !(Qmult_comm b). apply Qmult_le_compat_r; assumption.
Qed.

Ltac eval_get k :=
  let v := eval vm_compute in (dict_get ACTIVITY_MULTIPLIERS k) in
  replace (dict_get ACTIVITY_MULTIPLIERS k) with v by (vm_compute; reflexivity).

(** A more active level never lowers the TDEE: for a BMR that is not
    negative, the levels in the order of the table give a TDEE that never
    falls. *)
Theorem tdee_level_order (b : Q) (i j : nat) (k1 k2 : string) :
  (0 <= b)%Q -> (i <= j)%nat ->
  nth_error (map fst ACTIVITY_MULTIPLIERS) i = Some k1 ->
  nth_error (map fst ACTIVITY_MULTIPLIERS) j = Some k2 ->
  exists t1 t2 : f64,
    tdee_of (Fin b) k1 = Some t1 /\ tdee_of (Fin b) k2 = Some t2
    /\ fle t1 t2 = true.
Proof.
  intros Hb Hij H1 H2. unfold tdee_of.
  assert (Hi : (i < 5)%nat)
    by (change 5%nat with (List.length (map fst ACTIVITY_MULTIPLIERS));
        apply nth_error_Some; rewrite H1; discriminate).
  assert (Hj : (j < 5)%nat)
    by (change 5%nat with (List.length (map fst ACTIVITY_MULTIPLIERS));
        apply nth_error_Some; rewrite H2; discriminate).
  destruct i as [|[|[|[|[|i]]]]]; try lia;
    destruct j as [|[|[|[|[|j]]]]]; try lia;
    cbn in H1, H2; injection H1 as <-; injection H2 as <-;
    repeat match goal with
    | |- context [dict_get ACTIVITY_MULTIPLIERS ?a] => eval_get a
    end;
    do 2 eexists; (split; [reflexivity|]); (split; [reflexivity|]);
    (apply tdee_mult_order; [exact Hb|discriminate]).
Qed.

Lemma tdee_level_order_witness :
  (0 <= 1618)%Q /\ (0 <= 2)%nat
  /\ nth_error (map fst ACTIVITY_MULTIPLIERS) 0
     = Some "Sedentary (little or no exercise)"
  /\ nth_error (map fst ACTIVITY_MULTIPLIERS) 2 = Some "Moderate (3-5 days/week)"
  /\ exists t1 t2 : f64,
    tdee_of (Fin 1618) "Sedentary (little or no exercise)" = Some t1
    /\ tdee_of (Fin 1618) "Moderate (3-5 days/week)" = Some t2
    /\ fle t1 t2 = true.
Proof.
  split; [discriminate|]. split; [lia|]. split; [reflexivity|].
  split; [reflexivity|].
  apply (tdee_level_order 1618 0 2); [discriminate|lia|reflexivity|reflexivity].
Defined.

Lemma tdee_mult_whole (n : Z) (m : Q) :
  0 <= n <= 10000 -> (119 # 100 <= m)%Q -> (m <= 191 # 100)%Q ->
  exists t : Z,
    py_round (fmul (Fin (inject_Z n)) (Fin m)) 0 = Fin (inject_Z t)
    /\ n <= t <= 2 * n
    /\ (Qabs (inject_Z t - inject_Z n * m) <= (1 # 2) + (1 # 1000000000))%Q.
Proof.
  intros Hn Hm1 Hm2. cbn [fmul].
  assert (HN : (0 <= inject_Z n)%Q /\ (inject_Z n <= 10000)%Q).
  { change 0%Q with (inject_Z 0). change 10000%Q with (inject_Z 10000).
    rewrite <- !Zle_Qle. lia. }
  destruct HN as [HN1 HN2]. set (N := inject_Z n) in *.
  assert (Hx : ((119 # 100) * N <= N * m)%Q /\ (N * m <= (191 # 100) * N)%Q)
    by (split; nra).
  destruct Hx as [Hx1 Hx2].
  round 15 (N * m)%Q as p Hp; [lra|lra|]. rewrite Hp.
  destruct (rne_bounds p) as [Hr1 Hr2].
  assert (Ht : n <= rne p <= 2 * n).
  { assert (A : (inject_Z (n - 1) < inject_Z (rne p))%Q).
    { unfold Z.sub. rewrite inject_Z_plus, inject_Z_opp. fold N.
      change (inject_Z 1) with 1%Q. lra. }
    assert (B : (inject_Z (rne p) < inject_Z (2 * n + 1))%Q).
    { rewrite inject_Z_plus, inject_Z_mult. fold N.
      change (inject_Z 2) with 2%Q. change (inject_Z 1) with 1%Q. lra. }
    rewrite <- Zlt_Qlt in A, B. lia. }
  destruct (py_round_0_whole p ltac:(lia)) as (-> & _ & _).
  exists (rne p). split; [reflexivity|]. split; [exact Ht|].
  apply Qabs_Qle_condition. split; lra.
Qed.

Lemma tdee_whole (n : Z) (activity : string) :
  0 <= n <= 10000 ->
  In activity (map fst ACTIVITY_MULTIPLIERS) ->
  exists t : Z,
    tdee_of (Fin (inject_Z n)) activity = Some (Fin (inject_Z t))
    /\ n <= t <= 2 * n.
Proof.
  intros Hn Hin. unfold tdee_of.
  cbn [map fst ACTIVITY_MULTIPLIERS In] in Hin.
  destruct Hin as [<-|[<-|[<-|[<-|[<-|[]]]]]];
    match goal with
    | |- context [dict_get ACTIVITY_MULTIPLIERS ?a] => eval_get a
    end;
    (edestruct (tdee_mult_whole n) as (t & Et & Ht & _);
      [exact Hn| | |exists t; rewrite Et; split; [reflexivity|exact Ht]];
      discriminate).
Qed.

(** For a BMR that is a whole number from 0 to 10000 and each of the five
    activity levels, the TDEE is a whole number, at least the BMR and at most
    twice the BMR. *)
Theorem tdee_admitted (n : Z) (activity : string) :
  0 <= n <= 10000 ->
  In activity (map fst ACTIVITY_MULTIPLIERS) ->
  exists t : Z,
    tdee_of (Fin (inject_Z n)) activity = Some (Fin (inject_Z t))
    /\ n <= t <= 2 * n.
Proof. exact (tdee_whole n activity). Qed.

Lemma tdee_admitted_witness :
  0 <= 1618 <= 10000
  /\ In "Light (1-3 days/week)" (map fst ACTIVITY_MULTIPLIERS)
  /\ exists t : Z,
    tdee_of (Fin (inject_Z 1618)) "Light (1-3 days/week)"
    = Some (Fin (inject_Z t))
    /\ 1618 <= t <= 2 * 1618.
Proof.
  split; [lia|]. split; [cbn; auto|].
  apply (tdee_admitted 1618 "Light (1-3 days/week)"); [lia|cbn; auto].
Defined.

(* ================================================================== *)
(** * Feet and inches *)
(* ================================================================== *)

(** On a dividend that is not negative, [x // 12] is the exact floor of the
    quotient. *)
Lemma float_floor_div_12_exact (i : Q) :
  (0 <= i)%Q -> (i <= 1000)%Q ->
  float_floor_div (Fin i) (Fin 12) = Ok (Fin (inject_Z (Qfloor (i / 12)))).
Proof.
  intros Hi0 Hi1.
  assert (Hv : i / 12 * 12 == i) by (field; discriminate).
  assert (Hv0 : (0 <= i / 12)%Q) by (apply Qle_shift_div_l; [reflexivity|lra]).
  pose proof (Qfloor_le (i / 12)) as Hf1. pose proof (Qlt_floor (i / 12)) as Hf2.
  rewrite inject_Z_plus in Hf2. change (inject_Z 1) with 1%Q in Hf2.
  assert (E0 : fmod (Fin i) (Fin 12)
               = Fin (Qred (i - 12 * inject_Z (Qfloor (i / 12))))).
  { cbn [fmod]. change (Qeq_bool 12 0) with false. cbv iota.
    unfold Qtrunc. now rewrite (proj2 (Qle_bool_iff 0 (i / 12)) Hv0). }
  set (k := Qfloor (i / 12)) in *.
  assert (Hk : 0 <= k <= 100).
  { split.
    - rewrite <- (Qfloor_Z 0). apply Qfloor_resp_le. exact Hv0.
    - assert (H : (inject_Z k < inject_Z 101)%Q)
        by (change (inject_Z 101) with 101%Q; lra).
      rewrite <- Zlt_Qlt in H. lia. }
  clearbody k.
  set (md := Qred (i - 12 * inject_Z k)) in *.
  assert (Hmd : md == i - 12 * inject_Z k) by (unfold md; apply Qred_correct).
  clearbody md.
  assert (Hmd0 : (0 <= md)%Q) by lra.
  assert (E1 : fsub (Fin i) (Fin md) = Fin (inject_Z (12 * k))).
  { rewrite fsub_Fin. rewrite <- (rnd_Z (12 * k)) by lia. apply rnd_comp.
    rewrite inject_Z_mult. change (inject_Z 12) with 12%Q. lra. }
  assert (E2 : fdiv (Fin (inject_Z (12 * k))) (Fin 12) = Fin (inject_Z k)).
  { rewrite fdiv_pos by reflexivity. rewrite <- (rnd_Z k) by lia.
    apply rnd_comp. rewrite inject_Z_mult. change (inject_Z 12) with 12%Q.
    field. }
  assert (E3 : is_neg (Fin md) = false).
  { cbn [is_neg]. now rewrite (proj2 (Qle_bool_iff 0 md) Hmd0). }
  unfold float_floor_div. change (is_zero (Fin 12)) with false. cbv iota.
  rewrite E0. cbv zeta. rewrite E1, E2, E3.
  change (is_neg (Fin 12)) with false.
  cbn [Bool.eqb negb]. rewrite andb_false_r.
  destruct (Z.eq_dec k 0) as [Hk0|Hk0]; [rewrite Hk0; reflexivity|].
  assert (E4 : is_zero (Fin (inject_Z k)) = false).
  { cbn [is_zero]. destruct (Qeq_bool (inject_Z k) 0) eqn:E; [|reflexivity].
    apply Qeq_bool_iff in E. unfold Qeq in E. cbn in E. lia. }
  rewrite E4. cbn [negb ffloor]. rewrite Qfloor_Z.
  assert (E5 : fsub (Fin (inject_Z k)) (Fin (inject_Z k)) = Fin 0).
  { rewrite fsub_Fin, <- rnd_0. apply rnd_comp. ring. }
  rewrite E5. reflexivity.
Qed.

Lemma Fin_inj (a b : Q) : Fin a = Fin b -> a = b.
Proof. intros H. now injection H. Qed.

(** A double of magnitude at least [2^j] is a multiple of [2^(j-52)]. *)
Lemma rnd_multiple (j : Z) (q r : Q) :
  0 <= j <= 52 -> (inject_Z (2 ^ j) <= q)%Q -> rnd q = Fin r ->
  exists n : Z, r * inject_Z (2 ^ (52 - j)) == inject_Z n.
Proof.
  intros Hj Hq Hr. unfold rnd in Hr.
  pose proof unitsQ_pos as HU. pose proof units_pos as HUz.
  set (x := (q * inject_Z units)%Q) in *.
  assert (Hx : (inject_Z (2 ^ (j + 1074)) <= x)%Q).
  { rewrite Z.pow_add_r by lia. rewrite inject_Z_mult. unfold x.
    apply Qmult_le_compat_r; [exact Hq|]. apply Qlt_le_weak, HU. }
  assert (Hx0 : (0 <= x)%Q).
  { eapply Qle_trans; [|exact Hx]. apply Qlt_le_weak, pow2Q_pos. lia. }
  unfold round_units in Hr. rewrite (proj2 (Qle_bool_iff 0 x) Hx0) in Hr.
  unfold rn53, grid in Hr.
  assert (Ht : j + 1022 <= ulp_shift x).
  { unfold ulp_shift.
    assert (Hf : 2 ^ (j + 1074) <= Qfloor x).
    { rewrite <- (Qfloor_Z (2 ^ (j + 1074))). now apply Qfloor_resp_le. }
    pose proof (Z.log2_le_mono _ _ Hf) as Hl.
    rewrite Z.log2_pow2 in Hl by lia. lia. }
  set (t := ulp_shift x) in *. set (M := rne (x / inject_Z (2 ^ t))) in *.
  unfold of_units in Hr.
  destruct (huge <=? M * 2 ^ t); [discriminate|].
  destruct (M * 2 ^ t <=? - huge); [discriminate|].
  apply Fin_inj in Hr.
  assert (Er' : r == inject_Z (M * 2 ^ t) / inject_Z units)
    by (rewrite <- Hr; apply Qred_correct).
  clear Hr.
  exists (M * 2 ^ (t - j - 1022)).
  assert (HZ : M * 2 ^ t * 2 ^ (52 - j) = M * 2 ^ (t - j - 1022) * units).
  { unfold units, unit_exp. rewrite <- !Z.mul_assoc, <- !Z.pow_add_r by lia.
    do 2 f_equal. lia. }
  rewrite Er'.
  setoid_replace (inject_Z (M * 2 ^ t) / inject_Z units * inject_Z (2 ^ (52 - j)))%Q
    with (inject_Z (M * 2 ^ t * 2 ^ (52 - j)) / inject_Z units)%Q
    by (rewrite (inject_Z_mult (M * 2 ^ t)); field; lra).
  rewrite HZ, inject_Z_mult. field. lra.
Qed.

Lemma Qtrunc_Z (z : Z) : Qtrunc (inject_Z z) = z.
Proof.
  unfold Qtrunc. rewrite Qfloor_Z, Qceiling_Z.
  destruct (Qle_bool 0 (inject_Z z)); reflexivity.
Qed.

Lemma rnd_below_12 :
  rnd (3377699720527871 # 281474976710656)
  = Fin (3377699720527871 # 281474976710656).
Proof. vm_compute. reflexivity. Qed.

Lemma cm_to_feet_inches_steps (cm : Q) :
  (50 <= cm)%Q -> (cm <= 300)%Q ->
  exists inches rem_in : Q,
    fdiv (Fin cm) c2_54 = Fin inches
    /\ cm_to_feet_inches (Fin cm) = Ok (Qfloor (inches / 12), Fin rem_in)
    /\ 1 <= Qfloor (inches / 12) <= 9
    /\ (0 <= rem_in)%Q /\ (rem_in < 12)%Q
    /\ (Qabs (rem_in - (inches - 12 * inject_Z (Qfloor (inches / 12))))
        <= 1 # 562949953421312)%Q.
Proof.
  intros Hlo Hhi. unfold cm_to_feet_inches.
  rewrite py_div_c2_54, c2_54_val. cbn [bind].
  set (K := (2859785763380265 # 1125899906842624)%Q).
  rewrite fdiv_pos by reflexivity.
  assert (Hu : cm / K * K == cm) by (field; discriminate).
  set (u := (cm / K)%Q) in *. subst K.
  round 7 u as i Hi; [lra|lra|].
  destruct (rnd_multiple 4 u i ltac:(lia)) as (n & Hn);
    [change (inject_Z (2 ^ 4)) with 16%Q; lra|exact Hi|].
  change (inject_Z (2 ^ (52 - 4))) with 281474976710656%Q in Hn.
  rewrite Hi. exists i.
  rewrite float_floor_div_12_exact by lra. cbn [bind py_int].
  rewrite Qtrunc_Z.
  assert (Hv : i / 12 * 12 == i) by (field; discriminate).
  pose proof (Qfloor_le (i / 12)) as Hf1. pose proof (Qlt_floor (i / 12)) as Hf2.
  rewrite inject_Z_plus in Hf2. change (inject_Z 1) with 1%Q in Hf2.
  set (v := (i / 12)%Q) in *. set (k := Qfloor v) in *.
  assert (Hk : 1 <= k <= 9).
  { split.
    - unfold k. rewrite <- (Qfloor_Z 1). apply Qfloor_resp_le.
      change (inject_Z 1) with 1%Q. lra.
    - assert (H9 : (inject_Z k < inject_Z 10)%Q)
        by (change (inject_Z 10) with 10%Q; lra).
      rewrite <- Zlt_Qlt in H9. lia. }
  clearbody k. rewrite of_int_exact by lia. cbn [bind]. rewrite fsub_Fin.
  assert (Ek : inject_Z (k * 12) == 12 * inject_Z k)
    by (rewrite inject_Z_mult; change (inject_Z 12) with 12%Q; ring).
  (* inches is a multiple of 2^-48, so it stays a step below 12 (k + 1) *)
  assert (Hstep : (i * 281474976710656 <= 12 * (inject_Z k + 1) * 281474976710656 - 1)%Q).
  { assert (Hlt : (inject_Z n < inject_Z (12 * (k + 1) * 281474976710656))%Q).
    { rewrite <- Hn. rewrite !inject_Z_mult, inject_Z_plus.
      change (inject_Z 12) with 12%Q. change (inject_Z 1) with 1%Q.
      change (inject_Z 281474976710656) with 281474976710656%Q. lra. }
    rewrite <- Zlt_Qlt in Hlt.
    assert (Hle : (inject_Z n <= inject_Z (12 * (k + 1) * 281474976710656 - 1))%Q)
      by (rewrite <- Zle_Qle; lia).
    rewrite <- Hn in Hle. unfold Z.sub in Hle.
    rewrite inject_Z_plus, !inject_Z_mult, inject_Z_plus, inject_Z_opp in Hle.
    change (inject_Z 12) with 12%Q in Hle. change (inject_Z 1) with 1%Q in Hle.
    change (inject_Z 281474976710656) with 281474976710656%Q in Hle. lra. }
  round 4 (i - inject_Z (k * 12))%Q as rem_in Hrem; [lra|lra|].
  rewrite Hrem. exists rem_in.
  split; [reflexivity|]. split; [reflexivity|]. split; [exact Hk|].
  split; [|split].
  - eapply rnd_le; [|exact rnd_0|exact Hrem]. lra.
  - assert (Hr : (rem_in <= 3377699720527871 # 281474976710656)%Q)
      by (eapply rnd_le; [|exact Hrem|exact rnd_below_12]; lra).
    lra.
  - apply Qabs_Qle_condition. split; lra.
Qed.

(** For every height from 50 to 300 cm, [cm_to_feet_inches] returns the
    whole feet in the inches, from 1 to 9, and a remainder of inches that is
    at least 0 and below 12 and is the rest of the inches up to one rounding
    (2^-49). *)
Theorem cm_to_feet_inches_admitted (cm : Q) :
  (50 <= cm)%Q -> (cm <= 300)%Q ->
  exists inches rem_in : Q,
    fdiv (Fin cm) c2_54 = Fin inches
    /\ cm_to_feet_inches (Fin cm) = Ok (Qfloor (inches / 12), Fin rem_in)
    /\ 1 <= Qfloor (inches / 12) <= 9
    /\ (0 <= rem_in)%Q /\ (rem_in < 12)%Q
    /\ (Qabs (rem_in - (inches - 12 * inject_Z (Qfloor (inches / 12))))
        <= 1 # 562949953421312)%Q.
Proof. exact (cm_to_feet_inches_steps cm). Qed.

Lemma cm_to_feet_inches_admitted_witness :
  (50 <= 170)%Q /\ (170 <= 300)%Q
  /\ exists inches rem_in : Q,
    fdiv (Fin 170) c2_54 = Fin inches
    /\ cm_to_feet_inches (Fin 170) = Ok (Qfloor (inches / 12), Fin rem_in)
    /\ 1 <= Qfloor (inches / 12) <= 9
    /\ (0 <= rem_in)%Q /\ (rem_in < 12)%Q
    /\ (Qabs (rem_in - (inches - 12 * inject_Z (Qfloor (inches / 12))))
        <= 1 # 562949953421312)%Q.
Proof.
  split; [discriminate|]. split; [discriminate|].
  apply (cm_to_feet_inches_admitted 170); discriminate.
Defined.

(* ================================================================== *)
(** * The BMI tab *)
(* ================================================================== *)

Lemma pow_rn_accurate : sq_accurate pow_rn.
Proof.
  intros a H1 H2. unfold pow_rn. cbn [fmul].
  assert (Hl : (2401 # 10000 <= a * a)%Q) by nra.
  assert (Hh : (a * a <= 90601 # 10000)%Q) by nra.
  round 4 (a * a)%Q as s Hs; [lra|lra|].
  exists s. split; [exact Hs|]. split; lra.
Qed.

Lemma square_admitted (libm_pow : f64 -> f64 -> f64) (hm : Q) :
  sq_accurate libm_pow ->
  (49 # 100 <= hm)%Q -> (hm <= 301 # 100)%Q ->
  exists sq : Q,
    float_pow_2 libm_pow (Fin hm) = Ok (Fin sq)
    /\ (hm * hm - (1 # 1000000000) <= sq)%Q
    /\ (sq <= hm * hm + (1 # 1000000000))%Q.
Proof.
  intros Hacc H1 H2. cbn [float_pow_2].
  destruct (Qeq_bool hm 0) eqn:E0.
  { apply Qeq_bool_iff in E0. exfalso. lra. }
  assert (Ha : Qabs hm == hm) by (apply Qabs_pos; lra).
  destruct (Qeq_bool (Qabs hm) 1) eqn:E1.
  - apply Qeq_bool_iff in E1. exists 1%Q. split; [reflexivity|].
    assert (Hm : hm == 1) by (now rewrite <- Ha).
    rewrite Hm. split; discriminate.
  - destruct (Hacc (Qabs hm)) as (s & -> & Hs1 & Hs2);
      [rewrite Ha; exact H1|rewrite Ha; exact H2|].
    exists s. split; [reflexivity|]. rewrite Ha in Hs1, Hs2. split; assumption.
Qed.

Lemma calculate_bmi_near (libm_pow : f64 -> f64 -> f64) (w h : Q) :
  sq_accurate libm_pow ->
  (19 <= w)%Q -> (w <= 409)%Q -> (50 <= h)%Q -> (h <= 300)%Q ->
  exists b : Q,
    calculate_bmi libm_pow (Fin w) (Fin h) = Ok (Some (Fin b))
    /\ (2 <= b)%Q /\ (b <= 1650)%Q
    /\ (Qabs (b - w / (h / 100 * (h / 100))) <= 501 # 100000)%Q.
Proof.
  intros Hacc Hw1 Hw2 Hh1 Hh2.
  rewrite bmi_unfold by (apply fle_false_Fin; lra).
  change (py_div (Fin h) (Fin 100)) with (Ok (rnd (h / 100))). cbn [bind].
  assert (Hu : h / 100 * 100 == h) by (field; discriminate).
  assert (He : w / (h / 100 * (h / 100)) * (h / 100 * (h / 100)) == w).
  { field. intros E. rewrite E in Hh1. lra. }
  set (u := (h / 100)%Q) in *.
  set (e := (w / (u * u))%Q) in *.
  assert (Hu1 : (1 # 2 <= u)%Q) by lra.
  assert (Hu2 : (u <= 3)%Q) by lra.
  round 2 u as hm Hhm; [lra|lra|]. rewrite Hhm.
  assert (Hm1 : (u - (1 # 1000000000000) <= hm)%Q) by lra.
  assert (Hm2 : (hm <= u + (1 # 1000000000000))%Q) by lra.
  destruct (square_admitted libm_pow hm Hacc) as (sq & -> & Hs1 & Hs2);
    [lra|lra|].
  assert (Hd1 : (u * u - (11 # 10000000000) <= sq)%Q) by nra.
  assert (Hd2 : (sq <= u * u + (11 # 10000000000))%Q) by nra.
  assert (Huu1 : (1 # 4 <= u * u)%Q) by nra.
  assert (Huu2 : (u * u <= 9)%Q) by nra.
  clear Hs1 Hs2 Hm1 Hm2.
  cbn [bind]. unfold py_div. cbn [is_zero].
  rewrite (Qeq_bool_pos sq) by lra. cbn [bind].
  rewrite fdiv_pos by lra.
  assert (Hq : w / sq * sq == w) by (field; lra).
  set (q := (w / sq)%Q) in *.
  set (uu := (u * u)%Q) in *.
  assert (He0 : (21 # 10 <= e)%Q) by nra.
  assert (He1 : (e <= 1636)%Q) by nra.
  assert (Hqe : (q - e) * sq == e * (uu - sq)) by (ring_simplify; rewrite Hq, <- He; ring).
  assert (Hqe1 : (- (2 # 1000000) <= (q - e) * sq)%Q) by (rewrite Hqe; nra).
  assert (Hqe2 : ((q - e) * sq <= 2 # 1000000)%Q) by (rewrite Hqe; nra).
  assert (Hsq : (2499 # 10000 <= sq)%Q) by lra.
  assert (Hq1 : (e - (8 # 1000000) <= q)%Q) by nra.
  assert (Hq2 : (q <= e + (8 # 1000000))%Q) by nra.
  round 11 q as bmi Hbmi; [lra|lra|]. rewrite Hbmi.
  pyround 11 2%nat bmi as b Eb; [lra|lra|].
  exists b. split; [now rewrite Eb|].
  split; [lra|]. split; [lra|].
  apply Qabs_Qle_condition. split; lra.
Qed.

(** The BMI that [calculate_bmi] returns is the BMI of the formula: for a
    weight of 19 to 409 kg and a height of 50 to 300 cm, with a C library
    whose [pow] squares a height in metres to within [1e-9], it returns a
    number from 2 to 1650 that is within 0.00501 of
    [weight / (height / 100)^2], so it never answers [None] and never raises
    there. *)
Theorem calculate_bmi_accurate (libm_pow : f64 -> f64 -> f64) (w h : Q) :
  sq_accurate libm_pow ->
  (19 <= w)%Q -> (w <= 409)%Q -> (50 <= h)%Q -> (h <= 300)%Q ->
  exists b : Q,
    calculate_bmi libm_pow (Fin w) (Fin h) = Ok (Some (Fin b))
    /\ (2 <= b)%Q /\ (b <= 1650)%Q
    /\ (Qabs (b - w / (h / 100 * (h / 100))) <= 501 # 100000)%Q.
Proof. exact (calculate_bmi_near libm_pow w h). Qed.

Lemma calculate_bmi_accurate_witness :
  sq_accurate pow_rn
  /\ (19 <= 70)%Q /\ (70 <= 409)%Q /\ (50 <= 170)%Q /\ (170 <= 300)%Q
  /\ exists b : Q,
    calculate_bmi pow_rn (Fin 70) (Fin 170) = Ok (Some (Fin b))
    /\ (2 <= b)%Q /\ (b <= 1650)%Q
    /\ (Qabs (b - 70 / (170 / 100 * (170 / 100))) <= 501 # 100000)%Q.
Proof.
  split; [exact pow_rn_accurate|].
  split; [discriminate|]. split; [discriminate|].
  split; [discriminate|]. split; [discriminate|].
  apply (calculate_bmi_accurate pow_rn 70 170 pow_rn_accurate); discriminate.
Defined.

Lemma feet_inches_to_cm_near (feet : Z) (inches : Q) :
  3 <= feet <= 8 -> (0 <= inches)%Q -> (inches <= 1199 # 100)%Q ->
  exists cm : Q,
    feet_inches_to_cm feet (Fin inches) = Ok (Fin cm)
    /\ (91 <= cm)%Q /\ (cm <= 275)%Q
    /\ (Qabs (cm - (254 # 100) * (inject_Z (feet * 12) + inches))
        <= 1 # 1000000000000)%Q.
Proof.
  intros Hf Hi1 Hi2. unfold feet_inches_to_cm.
  rewrite of_int_exact by lia. cbn [bind fadd].
  assert (HN : (36 <= inject_Z (feet * 12))%Q /\ (inject_Z (feet * 12) <= 96)%Q).
  { change 36%Q with (inject_Z 36). change 96%Q with (inject_Z 96).
    rewrite <- !Zle_Qle. lia. }
  destruct HN as [HN1 HN2]. set (N := inject_Z (feet * 12)) in *.
  round 7 (N + inches)%Q as t Ht; [lra|lra|]. rewrite Ht.
  rewrite c2_54_val. cbn [fmul].
  set (c := (2859785763380265 # 1125899906842624)%Q).
  assert (Hc1 : ((254 # 100) - (1 # 1000000000000000) <= c)%Q)
    by (unfold c; discriminate).
  assert (Hc2 : (c <= (254 # 100) + (1 # 1000000000000000))%Q)
    by (unfold c; discriminate).
  clearbody c.
  assert (Ht1 : (N + inches - (1 # 10000000000000) <= t)%Q) by lra.
  assert (Ht2 : (t <= N + inches + (1 # 10000000000000))%Q) by lra.
  set (x := (N + inches)%Q) in *.
  assert (Hx1 : (36 <= x)%Q) by (unfold x; lra).
  assert (Hx2 : (x <= 108)%Q) by (unfold x; lra).
  assert (Hp1 : ((254 # 100) * x - (4 # 10000000000000) <= t * c)%Q) by nra.
  assert (Hp2 : (t * c <= (254 # 100) * x + (4 # 10000000000000))%Q) by nra.
  round 9 (t * c)%Q as cm Hcm; [lra|lra|]. rewrite Hcm.
  exists cm. split; [reflexivity|].
  split; [lra|]. split; [lra|].
  apply Qabs_Qle_condition. split; lra.
Qed.







Lemma Qfloor_unique (v : Q) (k : Z) :
  (inject_Z k <= v)%Q -> (v < inject_Z k + 1)%Q -> Qfloor v = k.
Proof.
  intros H1 H2.
  assert (A : k <= Qfloor v).
  { rewrite <- (Qfloor_Z k). now apply Qfloor_resp_le. }
  assert (B : (inject_Z (Qfloor v) < inject_Z (k + 1))%Q).
  { rewrite inject_Z_plus. change (inject_Z 1) with 1%Q.
    pose proof (Qfloor_le v). lra. }
  rewrite <- Zlt_Qlt in B. lia.
Qed.

(** Feet and inches survive the way to centimetres and back: for 3 to 8
    feet and 0.01 to 11.99 inches, [cm_to_feet_inches] of
    [feet_inches_to_cm] returns the same feet, and inches within [1e-11]
    of the ones entered. *)
Theorem feet_inches_cm_round_trip (feet : Z) (inches : Q) :
  3 <= feet <= 8 -> (1 # 100 <= inches)%Q -> (inches <= 1199 # 100)%Q ->
  exists cm rem_in : Q,
    feet_inches_to_cm feet (Fin inches) = Ok (Fin cm)
    /\ cm_to_feet_inches (Fin cm) = Ok (feet, Fin rem_in)
    /\ (Qabs (rem_in - inches) <= 1 # 100000000000)%Q.
Proof.
  intros Hf Hi1 Hi2.
  destruct (feet_inches_to_cm_near feet inches Hf) as (cm & Ecm & Hc1 & Hc2 & Hc);
    [lra|exact Hi2|].
  destruct (cm_to_feet_inches_steps cm) as (i & r & Ei & Eback & _ & _ & _ & Hr);
    [lra|lra|].
  exists cm, r. split; [exact Ecm|].
  apply Qabs_Qle_condition in Hc. destruct Hc as [Hx1 Hx2].
  assert (HN : (36 <= inject_Z (feet * 12))%Q /\ (inject_Z (feet * 12) <= 96)%Q).
  { change 36%Q with (inject_Z 36). change 96%Q with (inject_Z 96).
    rewrite <- !Zle_Qle. lia. }
  destruct HN as [HN1 HN2].
  assert (EN : inject_Z (feet * 12) == 12 * inject_Z feet)
    by (rewrite inject_Z_mult; change (inject_Z 12) with 12%Q; ring).
  set (N := inject_Z (feet * 12)) in *.
  set (x := (N + inches)%Q) in *.
  assert (Hx3 : (36 <= x)%Q) by (unfold x; lra).
  assert (Hx4 : (x <= 108)%Q) by (unfold x; lra).
  rewrite c2_54_val in Ei.
  set (K := (2859785763380265 # 1125899906842624)%Q) in *.
  assert (HK1 : ((254 # 100) - (1 # 1000000000000000) <= K)%Q)
    by (unfold K; discriminate).
  assert (HK2 : (K <= (254 # 100) + (1 # 1000000000000000))%Q)
    by (unfold K; discriminate).
  rewrite fdiv_pos in Ei by reflexivity.
  assert (Hu : cm / K * K == cm) by (field; discriminate).
  set (u := (cm / K)%Q) in *. clearbody K.
  assert (Hu1 : (x - (1 # 1000000000000) <= u)%Q) by (clear - Hu HK1 HK2 Hx1 Hx2 Hx3 Hx4; nra).
  assert (Hu2 : (u <= x + (1 # 1000000000000))%Q) by (clear - Hu HK1 HK2 Hx1 Hx2 Hx3 Hx4; nra).
  round 7 u as i' Hi'; [lra|lra|].
  rewrite Ei in Hi'. apply Fin_inj in Hi'. subst i'.
  assert (Hv : i / 12 * 12 == i) by (field; discriminate).
  assert (Efl : Qfloor (i / 12) = feet).
  { set (v := (i / 12)%Q) in *. apply Qfloor_unique; unfold x in *; lra. }
  rewrite Efl in Eback, Hr. split; [exact Eback|].
  apply Qabs_Qle_condition in Hr. destruct Hr as [Hr1 Hr2].
  apply Qabs_Qle_condition. unfold x in *. split; lra.
Qed.

Lemma feet_inches_cm_round_trip_witness :
  3 <= 5 <= 8 /\ (1 # 100 <= 7)%Q /\ (7 <= 1199 # 100)%Q
  /\ exists cm rem_in : Q,
    feet_inches_to_cm 5 (Fin 7) = Ok (Fin cm)
    /\ cm_to_feet_inches (Fin cm) = Ok (5, Fin rem_in)
    /\ (Qabs (rem_in - 7) <= 1 # 100000000000)%Q.
Proof.
  split; [lia|]. split; [discriminate|]. split; [discriminate|].
  apply (feet_inches_cm_round_trip 5 7); [lia|discriminate|discriminate].
Defined.

(* ================================================================== *)
(** * The category of a rounded BMI *)
(* ================================================================== *)

Lemma py_round_unfold (q : Q) (n : nat) :
  (n <= 323)%nat ->
  py_round (Fin q) n
  = rnd (inject_Z (rne (q * inject_Z (10 ^ Z.of_nat n)))
         / inject_Z (10 ^ Z.of_nat n)).
Proof.
  intros Hn. cbn [py_round].
  destruct (Nat.ltb_spec 323 n) as [Hbig|_]; [lia|reflexivity].
Qed.

(** Where [round(q, n)] falls against a threshold [N / 10^n] whose lower
    tie [N - 1/2] goes up to [N]: the cut is half a step below the
    threshold. *)
Lemma round_cut (n : nat) (q : Q) (N : Z) (t c : Q) :
  (n <= 323)%nat ->
  (- (2000) <= q)%Q -> (q <= 2000)%Q ->
  rne (inject_Z N - (1 # 2)) = N ->
  rnd (inject_Z N / inject_Z (10 ^ Z.of_nat n)) = Fin t ->
  rnd (inject_Z (N - 1) / inject_Z (10 ^ Z.of_nat n)) = Fin c ->
  (c < t)%Q ->
  exists b : Q,
    py_round (Fin q) n = Fin b
    /\ ((q * inject_Z (10 ^ Z.of_nat n) < inject_Z N - (1 # 2))%Q -> (b < t)%Q)
    /\ ((inject_Z N - (1 # 2) <= q * inject_Z (10 ^ Z.of_nat n))%Q
        -> (t <= b)%Q).
Proof.
  intros Hn H0 H1 HN Ht Hc Hct.
  destruct (py_round_near 11 n q ltac:(lia) Hn) as (b & Eb & _);
    [num_consts; lra|num_consts; lra|].
  exists b. split; [exact Eb|].
  rewrite py_round_unfold in Eb by exact Hn.
  assert (Hp : (0 < inject_Z (10 ^ Z.of_nat n))%Q).
  { change 0%Q with (inject_Z 0). rewrite <- Zlt_Qlt.
    apply Z.pow_pos_nonneg; lia. }
  set (p := inject_Z (10 ^ Z.of_nat n)) in *.
  destruct (rne_bounds (q * p)) as [Hr1 Hr2].
  set (M := rne (q * p)) in *.
  split.
  - intros Hlt.
    assert (HM : M <= N - 1).
    { assert (HMN : (inject_Z M < inject_Z N)%Q) by lra.
      rewrite <- Zlt_Qlt in HMN. lia. }
    assert (Hle : (b <= c)%Q).
    { apply (rnd_le (inject_Z M / p) (inject_Z (N - 1) / p)); trivial.
      apply Qdiv_le_num; [exact Hp|]. now rewrite <- Zle_Qle. }
    lra.
  - intros Hge.
    assert (HM : N <= M).
    { rewrite <- HN. unfold M. now apply rne_mono. }
    apply (rnd_le (inject_Z N / p) (inject_Z M / p)); trivial.
    apply Qdiv_le_num; [exact Hp|]. now rewrite <- Zle_Qle.
Qed.

(** The threshold [N / 10^n] as a double, and the decimal just below it. *)
Ltac cut_at n q N t b Eb A B :=
  let c := fresh "c" in
  let Ec := fresh "Ec" in
  let Hc := fresh "Hc" in
  assert (exists c : Q,
             rnd (inject_Z (N - 1) / inject_Z (10 ^ Z.of_nat n)) = Fin c
             /\ (c < t)%Q) as (c & Ec & Hc)
    by (eexists; split; [vm_compute; reflexivity|reflexivity]);
  destruct (round_cut n q N t c) as (b & Eb & A & B);
    [lia|assumption|assumption|reflexivity|vm_compute; reflexivity
    |exact Ec|exact Hc|];
  clear c Ec Hc;
  let p := eval vm_compute in (inject_Z (10 ^ Z.of_nat n)) in
  change (inject_Z (10 ^ Z.of_nat n)) with p in A, B;
  let v := eval vm_compute in (inject_Z N) in
  change (inject_Z N) with v in A, B.

Ltac settle_cmp :=
  repeat match goal with
  | |- context [flt (Fin ?x) (Fin ?y)] =>
      let H := fresh in
      first
        [ assert (H : flt (Fin x) (Fin y) = true) by (apply flt_Fin; lra)
        | assert (H : flt (Fin x) (Fin y) = false)
            by (apply flt_false_Fin; lra) ];
      rewrite H; clear H
  | |- context [fle (Fin ?x) (Fin ?y)] =>
      let H := fresh in
      first
        [ assert (H : fle (Fin x) (Fin y) = true) by (apply fle_Fin; lra)
        | assert (H : fle (Fin x) (Fin y) = false)
            by (apply fle_false_Fin; lra) ];
      rewrite H; clear H
  end;
  reflexivity.

Ltac use_cuts :=
  repeat match goal with
  | H : (_ < _)%Q -> _ |- _ => first [specialize (H ltac:(lra)) | clear H]
  | H : (_ <= _)%Q -> _ |- _ => first [specialize (H ltac:(lra)) | clear H]
  end.

(** The page categorises the BMI after rounding it to two decimals, so the
    buckets of the quotient [weight / height^2] start half a hundredth
    lower than the thresholds of [bmi_category]: below 18.495 Underweight,
    from 18.495 below 24.995 Normal, from 24.995 below 29.995 Overweight,
    from 29.995 on Obese. *)
Theorem bmi_category_of_rounded (q : Q) :
  (- (2000) <= q)%Q -> (q <= 2000)%Q ->
  ((q < 18495 # 1000)%Q ->
     bmi_category (Some (py_round (Fin q) 2)) = "Underweight")
  /\ ((18495 # 1000 <= q)%Q -> (q < 24995 # 1000)%Q ->
     bmi_category (Some (py_round (Fin q) 2)) = "Normal")
  /\ ((24995 # 1000 <= q)%Q -> (q < 29995 # 1000)%Q ->
     bmi_category (Some (py_round (Fin q) 2)) = "Overweight")
  /\ ((29995 # 1000 <= q)%Q ->
     bmi_category (Some (py_round (Fin q) 2)) = "Obese").
Proof.
  intros H0 H1.
  cut_at 2%nat q 1850 (37 # 2)%Q b Eb A1 A2.
  cut_at 2%nat q 2500 25%Q b2 Eb2 B1 B2.
  cut_at 2%nat q 3000 30%Q b3 Eb3 D1 D2.
  rewrite Eb in Eb2, Eb3. apply Fin_inj in Eb2, Eb3. subst b2 b3.
  rewrite Eb. unfold bmi_category. rewrite lit_18_5.
  repeat split; intros; use_cuts; settle_cmp.
Qed.

Lemma bmi_category_of_rounded_witness :
  (- (2000) <= 18496 # 1000)%Q /\ (18496 # 1000 <= 2000)%Q
  /\ bmi_category (Some (py_round (Fin (18496 # 1000)) 2)) = "Normal".
Proof.
  split; [discriminate|]. split; [discriminate|].
  destruct (bmi_category_of_rounded (18496 # 1000)) as (_ & H & _);
    [discriminate|discriminate|].
  apply H; [discriminate|reflexivity].
Defined.

(** The body fat percentage is interpreted after [body_fat_navy] rounded
    it to one decimal, so the buckets of the unrounded percentage start
    half a tenth lower than the thresholds of [bf_interpretation]: for a
    man at 5.95, 13.95, 17.95 and 24.95, otherwise at 13.95, 20.95, 24.95
    and 31.95. *)
Theorem bf_interpretation_of_rounded (gender : string) (age : Z) (q : Q) :
  (- (2000) <= q)%Q -> (q <= 2000)%Q ->
  let label := bf_interpretation gender age (Some (py_round (Fin q) 1)) in
  let c1 := if is_male gender then (595 # 100)%Q else (1395 # 100)%Q in
  let c2 := if is_male gender then (1395 # 100)%Q else (2095 # 100)%Q in
  let c3 := if is_male gender then (1795 # 100)%Q else (2495 # 100)%Q in
  let c4 := if is_male gender then (2495 # 100)%Q else (3195 # 100)%Q in
  ((q < c1)%Q -> label = "Essential fat")
  /\ ((c1 <= q)%Q -> (q < c2)%Q -> label = "Athlete")
  /\ ((c2 <= q)%Q -> (q < c3)%Q -> label = "Fit")
  /\ ((c3 <= q)%Q -> (q < c4)%Q -> label = "Average")
  /\ ((c4 <= q)%Q -> label = "Obese").
Proof.
  intros H0 H1. cbv zeta. unfold bf_interpretation.
  destruct (is_male gender).
  - cut_at 1%nat q 60 6%Q b Eb A1 A2.
    cut_at 1%nat q 140 14%Q b2 Eb2 B1 B2.
    cut_at 1%nat q 180 18%Q b3 Eb3 D1 D2.
    cut_at 1%nat q 250 25%Q b4 Eb4 E1 E2.
    rewrite Eb in Eb2, Eb3, Eb4. apply Fin_inj in Eb2, Eb3, Eb4.
    subst b2 b3 b4. rewrite Eb.
    repeat split; intros; use_cuts; settle_cmp.
  - cut_at 1%nat q 140 14%Q b Eb A1 A2.
    cut_at 1%nat q 210 21%Q b2 Eb2 B1 B2.
    cut_at 1%nat q 250 25%Q b3 Eb3 D1 D2.
    cut_at 1%nat q 320 32%Q b4 Eb4 E1 E2.
    rewrite Eb in Eb2, Eb3, Eb4. apply Fin_inj in Eb2, Eb3, Eb4.
    subst b2 b3 b4. rewrite Eb.
    repeat split; intros; use_cuts; settle_cmp.
Qed.

Lemma bf_interpretation_of_rounded_witness :
  (- (2000) <= 1396 # 100)%Q /\ (1396 # 100 <= 2000)%Q
  /\ bf_interpretation "Male" 0 (Some (py_round (Fin (1396 # 100)) 1)) = "Fit".
Proof.
  split; [discriminate|]. split; [discriminate|].
  destruct (bf_interpretation_of_rounded "Male" 0 (1396 # 100))
    as (_ & _ & H & _); [discriminate|discriminate|].
  apply H; [discriminate|reflexivity].
Defined.

(* ================================================================== *)
(** * The BMR tab *)
(* ================================================================== *)

Lemma py_int_whole (n : Z) : py_int (Fin (inject_Z n)) = Ok n.
Proof.
  cbn [py_int]. unfold Qtrunc.
  destruct (Qle_bool 0 (inject_Z n)); [rewrite Qfloor_Z|rewrite Qceiling_Z];
    reflexivity.
Qed.

(** The BMR tab on what its inputs accept (age 10 to 120, weight 30 to 300
    kg, height 100 to 250 cm, one of the five activity levels): nothing
    raises and the level is a key of the dictionary; the BMR is a whole
    number from 164 to 4518 and the TDEE a whole number from the BMR to
    twice the BMR, so the [int] of either, as the page prints them, drops
    nothing. *)
Theorem bmr_tab_admitted (sex : string) (age : Z) (w h : Q) (activity : string) :
  10 <= age <= 120 -> (30 <= w)%Q -> (w <= 300)%Q ->
  (100 <= h)%Q -> (h <= 250)%Q ->
  In activity (map fst ACTIVITY_MULTIPLIERS) ->
  exists n t : Z,
    bmr_tab sex age (Fin w) (Fin h) activity
    = Ok (Some (Fin (inject_Z n), Fin (inject_Z t)))
    /\ py_int (Fin (inject_Z n)) = Ok n
    /\ py_int (Fin (inject_Z t)) = Ok t
    /\ 164 <= n <= 4518
    /\ n <= t <= 2 * n.
Proof.
  intros Ha Hw1 Hw2 Hh1 Hh2 Hact.
  destruct (calculate_bmr_whole sex age w h Ha Hw1 Hw2 Hh1 Hh2)
    as (n & En & Hn & _).
  destruct (tdee_whole n activity ltac:(lia) Hact) as (t & Et & Ht).
  exists n, t. unfold bmr_tab. rewrite En. cbn [bind]. rewrite Et.
  split; [reflexivity|]. split; [apply py_int_whole|].
  split; [apply py_int_whole|]. split; assumption.
Qed.

Lemma bmr_tab_admitted_witness :
  10 <= 30 <= 120 /\ (30 <= 70)%Q /\ (70 <= 300)%Q
  /\ (100 <= 170)%Q /\ (170 <= 250)%Q
  /\ In "Moderate (3-5 days/week)" (map fst ACTIVITY_MULTIPLIERS)
  /\ exists n t : Z,
    bmr_tab "Male" 30 (Fin 70) (Fin 170) "Moderate (3-5 days/week)"
    = Ok (Some (Fin (inject_Z n), Fin (inject_Z t)))
    /\ py_int (Fin (inject_Z n)) = Ok n
    /\ py_int (Fin (inject_Z t)) = Ok t
    /\ 164 <= n <= 4518
    /\ n <= t <= 2 * n.
Proof.
  assert (Hact : In "Moderate (3-5 days/week)" (map fst ACTIVITY_MULTIPLIERS)).
  { cbn. right. right. left. reflexivity. }
  split; [lia|]. repeat (split; [discriminate|]).
  split; [exact Hact|].
  apply (bmr_tab_admitted "Male" 30 70 170 "Moderate (3-5 days/week)");
    first [lia | discriminate | exact Hact].
Defined.

(* ================================================================== *)
(** * The Body Fat tab *)
(* ================================================================== *)

Lemma math_log10_plausible (lg : f64 -> f64) (a : Q) :
  log10_plausible lg -> (0 < a)%Q -> (a <= 1000)%Q ->
  exists r : Q,
    math_log10 lg (Fin a) = Ok (Fin r)
    /\ (- (400) <= r)%Q /\ (r <= 3)%Q /\ ((10 <= a)%Q -> (1 <= r)%Q).
Proof.
  intros Hlg H0 H1. cbn [math_log10].
  destruct (Qle_bool a 0) eqn:E.
  { apply Qle_bool_iff in E. exfalso. lra. }
  destruct (Hlg a H0 H1) as (r & -> & Hr). exists r. split; [reflexivity|exact Hr].
Qed.

(** From the two logarithms to the percentage: the divisor is positive, the
    division and the rounding give a number. *)
Lemma navy_tail (c1 c2 c3 r1 r2 : Q) :
  (1 <= c1)%Q -> (c1 <= 13 # 10)%Q ->
  (19 # 100 <= c2)%Q -> (c2 <= 36 # 100)%Q ->
  (15 # 100 <= c3)%Q -> (c3 <= 23 # 100)%Q ->
  (4 # 10 <= c1 - 3 * c2 + c3)%Q ->
  (- (400) <= r1)%Q -> (r1 <= 3)%Q -> (1 <= r2)%Q -> (r2 <= 3)%Q ->
  exists b : Q,
    (q <- py_div (Fin 495)
            (fadd (fsub (Fin c1) (fmul (Fin c2) (Fin r1)))
                  (fmul (Fin c3) (Fin r2))) ;;
     Ok (py_round (fsub q (Fin 450)) 1)) = Ok (Fin b)
    /\ (- (447) <= b)%Q /\ (b <= 820)%Q.
Proof.
  intros Hc1 Hc1' Hc2 Hc2' Hc3 Hc3' Hc Hr1 Hr1' Hr2 Hr2'.
  cbn [fmul].
  assert (Hp1 : (- (144) <= c2 * r1)%Q) by (clear - Hc2 Hc2' Hr1 Hr1'; nra).
  assert (Hp2 : (c2 * r1 <= 3 * c2)%Q) by (clear - Hc2 Hc2' Hr1 Hr1'; nra).
  round 8 (c2 * r1)%Q as p Hp; [lra|lra|]. rewrite Hp.
  rewrite fsub_Fin.
  round 8 (c1 - p)%Q as s Hs; [lra|lra|]. rewrite Hs.
  assert (Hq1 : (c3 <= c3 * r2)%Q) by (clear - Hc3 Hc3' Hr2 Hr2'; nra).
  assert (Hq2 : (c3 * r2 <= 3 * c3)%Q) by (clear - Hc3 Hc3' Hr2 Hr2'; nra).
  round 2 (c3 * r2)%Q as t Ht; [lra|lra|]. rewrite Ht.
  cbn [fadd].
  round 8 (s + t)%Q as val Hval; [lra|lra|]. rewrite Hval.
  assert (Hv1 : (399 # 1000 <= val)%Q) by lra.
  assert (Hv2 : (val <= 147)%Q) by lra.
  unfold py_div. cbn [is_zero]. rewrite (Qeq_bool_pos val) by lra.
  cbn [bind]. rewrite fdiv_pos by lra.
  assert (Hd : 495 / val * val == 495) by (field; lra).
  set (d := (495 / val)%Q) in *. clearbody d.
  assert (Hd1 : (336 # 100 <= d)%Q) by (clear - Hd Hv1 Hv2; nra).
  assert (Hd2 : (d <= 1241)%Q) by (clear - Hd Hv1 Hv2; nra).
  round 11 d as q Hq; [lra|lra|]. rewrite Hq.
  rewrite fsub_Fin.
  round 11 (q - 450)%Q as bf Hbf; [lra|lra|]. rewrite Hbf.
  pyround 11 1%nat bf as b Eb; [lra|lra|].
  exists b. split; [now rewrite Eb|]. split; lra.
Qed.

Ltac navy_constants :=
  match goal with
  | |- context [fadd (fsub (Fin ?c1) (fmul (Fin ?c2) _)) (fmul (Fin ?c3) _)] =>
      assert ((1 <= c1)%Q /\ (c1 <= 13 # 10)%Q
              /\ (19 # 100 <= c2)%Q /\ (c2 <= 36 # 100)%Q
              /\ (15 # 100 <= c3)%Q /\ (c3 <= 23 # 100)%Q
              /\ (4 # 10 <= c1 - 3 * c2 + c3)%Q)
        as (? & ? & ? & ? & ? & ? & ?)
        by (repeat split; vm_compute; discriminate)
  end.

Lemma navy_male_admitted (lg : f64 -> f64) (gender : string)
  (waist neck height : Q) (hip : option f64) :
  log10_plausible lg -> is_male gender = true ->
  (40 <= waist)%Q -> (waist <= 200)%Q -> (20 <= neck)%Q -> (neck <= 60)%Q ->
  (100 <= height)%Q -> (height <= 250)%Q ->
  fle (fsub (Fin waist) (Fin neck)) (Fin 0) = false ->
  exists b : Q,
    body_fat_navy lg gender (Fin waist) (Fin neck) (Fin height) hip
    = Ok (Some (Fin b))
    /\ (- (447) <= b)%Q /\ (b <= 820)%Q.
Proof.
  intros Hlg Hm Hw1 Hw2 Hn1 Hn2 Hh1 Hh2 Hg.
  rewrite navy_of_body. unfold body_fat_navy_body. rewrite Hm.
  rewrite fsub_Fin in Hg |- *.
  round 8 (waist - neck)%Q as g Eg; [lra|lra|]. rewrite Eg in Hg |- *.
  apply fle_false_Fin in Hg.
  destruct (math_log10_plausible lg g Hlg) as (r1 & -> & Hr1 & Hr1' & _);
    [lra|lra|].
  destruct (math_log10_plausible lg height Hlg) as (r2 & -> & _ & Hr2' & Hr2);
    [lra|lra|].
  cbn [bind]. unfold navy_val_male.
  eval_lit (10324 # 10000)%Q. eval_lit (19077 # 100000)%Q.
  eval_lit (15456 # 100000)%Q.
  navy_constants.
  match goal with
  | |- context [fadd (fsub (Fin ?c1) (fmul (Fin ?c2) _)) (fmul (Fin ?c3) _)] =>
      destruct (navy_tail c1 c2 c3 r1 r2) as (b & Eb & Hb); try assumption;
        [lra|]
  end.
  exists b. rewrite Eb. split; [reflexivity|exact Hb].
Qed.

Lemma navy_female_admitted (lg : f64 -> f64) (gender : string)
  (waist neck height hip : Q) :
  log10_plausible lg -> is_male gender = false ->
  (40 <= waist)%Q -> (waist <= 200)%Q -> (20 <= neck)%Q -> (neck <= 60)%Q ->
  (100 <= height)%Q -> (height <= 250)%Q -> (60 <= hip)%Q -> (hip <= 200)%Q ->
  exists b : Q,
    body_fat_navy lg gender (Fin waist) (Fin neck) (Fin height) (Some (Fin hip))
    = Ok (Some (Fin b))
    /\ (- (447) <= b)%Q /\ (b <= 820)%Q.
Proof.
  intros Hlg Hm Hw1 Hw2 Hn1 Hn2 Hh1 Hh2 Hp1 Hp2.
  rewrite navy_of_body. unfold body_fat_navy_body. rewrite Hm.
  cbn [add_hip bind fadd].
  round 9 (waist + hip)%Q as wh Ewh; [lra|lra|]. rewrite Ewh.
  rewrite fsub_Fin.
  round 9 (wh - neck)%Q as g Eg; [lra|lra|]. rewrite Eg.
  destruct (math_log10_plausible lg g Hlg) as (r1 & -> & Hr1 & Hr1' & _);
    [lra|lra|].
  destruct (math_log10_plausible lg height Hlg) as (r2 & -> & _ & Hr2' & Hr2);
    [lra|lra|].
  cbn [bind]. unfold navy_val_female.
  eval_lit (129579 # 100000)%Q. eval_lit (35004 # 100000)%Q.
  eval_lit (22100 # 100000)%Q.
  navy_constants.
  match goal with
  | |- context [fadd (fsub (Fin ?c1) (fmul (Fin ?c2) _)) (fmul (Fin ?c3) _)] =>
      destruct (navy_tail c1 c2 c3 r1 r2) as (b & Eb & Hb); try assumption;
        [lra|]
  end.
  exists b. rewrite Eb. split; [reflexivity|exact Hb].
Qed.

(** The Body Fat tab on what its inputs accept (waist 40 to 200, neck 20 to
    60, height 100 to 250, hip 60 to 200 cm), with a C library whose [log10]
    is a number between -400 and 3 on the positive numbers up to 1000 and at
    least 1 from 10 on.  For a man the estimate is missing exactly when the
    computed [waist - neck] is not positive, which is what the message of
    the tab asks to check; otherwise it is a number.  For a woman, whose hip
    is passed on, the estimate is always a number.  A gender that is neither
    would be estimated with the female formula but without a hip, and gets
    no estimate.  The two options of the tab are a man and a woman. *)
Theorem body_fat_tab_admitted (lg : f64 -> f64) (sex : string)
  (waist neck height hip : Q) :
  log10_plausible lg ->
  (40 <= waist)%Q -> (waist <= 200)%Q -> (20 <= neck)%Q -> (neck <= 60)%Q ->
  (100 <= height)%Q -> (height <= 250)%Q -> (60 <= hip)%Q -> (hip <= 200)%Q ->
  (is_male sex = true ->
     if fle (fsub (Fin waist) (Fin neck)) (Fin 0)
     then body_fat_tab lg sex (Fin waist) (Fin neck) (Fin height) (Fin hip)
          = Ok None
     else exists b : Q,
         body_fat_tab lg sex (Fin waist) (Fin neck) (Fin height) (Fin hip)
         = Ok (Some (Fin b))
         /\ (- (447) <= b)%Q /\ (b <= 820)%Q)
  /\ (is_male sex = false -> is_female sex = true ->
      exists b : Q,
        body_fat_tab lg sex (Fin waist) (Fin neck) (Fin height) (Fin hip)
        = Ok (Some (Fin b))
        /\ (- (447) <= b)%Q /\ (b <= 820)%Q)
  /\ (is_male sex = false -> is_female sex = false ->
      body_fat_tab lg sex (Fin waist) (Fin neck) (Fin height) (Fin hip)
      = Ok None)
  /\ (is_male "Male" = true
      /\ is_male "Female" = false /\ is_female "Female" = true).
Proof.
  intros Hlg Hw1 Hw2 Hn1 Hn2 Hh1 Hh2 Hp1 Hp2. unfold body_fat_tab.
  split.
  { intros Hm.
    destruct (fle (fsub (Fin waist) (Fin neck)) (Fin 0)) eqn:Hg.
    - now apply navy_male_girth.
    - now apply navy_male_admitted. }
  split.
  { intros Hm Hf. rewrite Hf. now apply navy_female_admitted. }
  split.
  { intros Hm Hf. rewrite Hf.
    apply (navy_caught _ _ _ _ _ _ TypeError).
    unfold body_fat_navy_body, add_hip. now rewrite Hm. }
  repeat split.
Qed.

Lemma body_fat_tab_admitted_witness :
  log10_plausible (fun _ => Fin 2)
  /\ (40 <= 80)%Q /\ (80 <= 200)%Q /\ (20 <= 37)%Q /\ (37 <= 60)%Q
  /\ (100 <= 170)%Q /\ (170 <= 250)%Q /\ (60 <= 95)%Q /\ (95 <= 200)%Q
  /\ is_male "Female" = false /\ is_female "Female" = true
  /\ exists b : Q,
    body_fat_tab (fun _ => Fin 2) "Female" (Fin 80) (Fin 37) (Fin 170) (Fin 95)
    = Ok (Some (Fin b))
    /\ (- (447) <= b)%Q /\ (b <= 820)%Q.
Proof.
  assert (Hlg : log10_plausible (fun _ => Fin 2)).
  { intros a _ _. exists 2%Q. split; [reflexivity|].
    split; [discriminate|]. split; [discriminate|]. intros _. discriminate. }
  split; [exact Hlg|]. repeat (split; [discriminate|]).
  split; [reflexivity|]. split; [reflexivity|].
  destruct (body_fat_tab_admitted (fun _ => Fin 2) "Female" 80 37 170 95 Hlg)
    as (_ & H & _); try discriminate.
  exact (H eq_refl eq_refl).
Defined.

(* ================================================================== *)
(** * The tip on display *)
(* ================================================================== *)

Lemma tip_idx_cases (i : Z) :
  let m := i mod 6 in
  m = 0 \/ m = 1 \/ m = 2 \/ m = 3 \/ m = 4 \/ m = 5.
Proof. cbv zeta. pose proof (Z.mod_pos_bound i 6 ltac:(lia)). lia. Qed.

Lemma tip_to_show_mod (st : session_state) :
  tip_to_show st = py_index HEALTH_TIPS (get_tip_idx st mod 6).
Proof. reflexivity. Qed.

Ltac tip_cases i :=
  let H := fresh "Hm" in
  destruct (tip_idx_cases i) as [H|[H|[H|[H|[H|H]]]]]; cbv zeta in H.

(** The carousel always has a tip to show: whatever integer the session
    holds under [tip_idx], negative ones included, and also when it holds
    none, the subscript [tip_idx % len(HEALTH_TIPS)] is in range and the tip
    on display is one of the six of [HEALTH_TIPS]. *)
Theorem tip_to_show_defined (st : session_state) :
  exists tip : string, tip_to_show st = Some tip /\ In tip HEALTH_TIPS.
Proof.
  rewrite tip_to_show_mod.
  tip_cases (get_tip_idx st); rewrite Hm; eexists;
    (split; [reflexivity|]); unfold HEALTH_TIPS; cbn [In];
    repeat (first [left; reflexivity | right]).
Qed.

Lemma tip_to_show_shift (st : session_state) (n : nat) :
  tip_to_show (repeat_click n on_next st)
  = py_index HEALTH_TIPS ((get_tip_idx st mod 6 + Z.of_nat n mod 6) mod 6).
Proof.
  rewrite tip_to_show_mod, get_repeat_next.
  now rewrite Z.add_mod by lia.
Qed.

(** The stored index goes round: six clicks on [Next], or any multiple of
    six, bring the subscript [tip_idx % len(HEALTH_TIPS)] back to the same
    tip. *)
Lemma stored_tip_cycle (st : session_state) (k : nat) :
  tip_to_show (repeat_click (6 * k) on_next st) = tip_to_show st.
Proof.
  rewrite tip_to_show_shift, tip_to_show_mod.
  rewrite Nat2Z.inj_mul, Z.mul_comm, Z.mod_mul by lia.
  now rewrite Z.add_0_r, Z.mod_mod by lia.
Qed.

(** At most five steps of the stored index bring its subscript to any given
    tip. *)
Lemma stored_tip_within_five (st : session_state) (tip : string) :
  In tip HEALTH_TIPS ->
  exists n : nat,
    (n <= 5)%nat /\ tip_to_show (repeat_click n on_next st) = Some tip.
Proof.
  unfold HEALTH_TIPS at 1. cbn [In].
  intros [<-|[<-|[<-|[<-|[<-|[<-|[]]]]]]];
    tip_cases (get_tip_idx st);
    first
      [ exists 0%nat; split; [lia|]; rewrite tip_to_show_shift, Hm; reflexivity
      | exists 1%nat; split; [lia|]; rewrite tip_to_show_shift, Hm; reflexivity
      | exists 2%nat; split; [lia|]; rewrite tip_to_show_shift, Hm; reflexivity
      | exists 3%nat; split; [lia|]; rewrite tip_to_show_shift, Hm; reflexivity
      | exists 4%nat; split; [lia|]; rewrite tip_to_show_shift, Hm; reflexivity
      | exists 5%nat; split; [lia|]; rewrite tip_to_show_shift, Hm; reflexivity ].
Qed.

Lemma page_after_last (events : list (option click)) (e : option click)
  (st : session_state) :
  page_after (events ++ [e]) st = tips_tab_run e (snd (page_after events st)).
Proof. unfold page_after. now rewrite fold_left_app. Qed.

Lemma session_after_nexts (n : nat) (st : session_state) :
  snd (page_after (repeat (Some Next) n) st) = repeat_click n on_next st.
Proof.
  induction n as [|n IH].
  - reflexivity.
  - change (repeat (Some Next) (S n)) with (Some Next :: repeat (Some Next) n).
    rewrite repeat_cons, page_after_last, IH. reflexivity.
Qed.

Lemma display_after_nexts (n : nat) (st : session_state) :
  tip_on_display (repeat (Some Next) (S n)) st
  = tip_to_show (repeat_click n on_next st).
Proof.
  unfold tip_on_display.
  change (repeat (Some Next) (S n)) with (Some Next :: repeat (Some Next) n).
  rewrite repeat_cons, page_after_last, session_after_nexts. reflexivity.
Qed.

(** [Next] shows one click late.  The tip is drawn before the handler of
    [Next] stores the new index, so the run of a click draws the tip of the
    index as it was: after [n + 1] clicks the page shows the tip that the
    index reached after [n], and the first click changes nothing on the
    page.  Any later run that [Next] did not start draws the tip of the
    stored index, and [Prev], handled before the drawing, shows at once.
    From the first click on the display goes round with period six. *)
Theorem next_shows_one_click_late (st : session_state) (n k : nat)
  (events : list (option click)) :
  tip_on_display (repeat (Some Next) (S n)) st
  = tip_to_show (repeat_click n on_next st)
  /\ tip_on_display [Some Next] st = tip_on_display [] st
  /\ tip_on_display (repeat (Some Next) (S n) ++ [None]) st
     = tip_to_show (repeat_click (S n) on_next st)
  /\ tip_on_display (events ++ [Some Prev]) st
     = tip_to_show (on_prev (snd (page_after events st)))
  /\ tip_on_display (repeat (Some Next) (S (6 * k + n))) st
     = tip_on_display (repeat (Some Next) (S n)) st.
Proof.
  split; [apply display_after_nexts|].
  split; [reflexivity|].
  split.
  { unfold tip_on_display. rewrite page_after_last, session_after_nexts.
    reflexivity. }
  split.
  { unfold tip_on_display. rewrite page_after_last. reflexivity. }
  rewrite !display_after_nexts, !tip_to_show_shift.
  f_equal. rewrite Nat2Z.inj_add, Nat2Z.inj_mul.
  change (Z.of_nat 6) with 6.
  rewrite (Z.add_comm (6 * Z.of_nat k)), Z.mul_comm, Z.mod_add by lia.
  reflexivity.
Qed.

(** Every tip can be reached: from every state of the session at most six
    clicks on [Next] bring any given tip of [HEALTH_TIPS] on display. *)
Theorem every_tip_within_six_next (st : session_state) (tip : string) :
  In tip HEALTH_TIPS ->
  exists n : nat,
    (n <= 6)%nat /\ tip_on_display (repeat (Some Next) n) st = Some tip.
Proof.
  intros Hin. destruct (stored_tip_within_five st tip Hin) as (n & Hn & E).
  exists (S n). split; [lia|]. now rewrite display_after_nexts.
Qed.

Lemma every_tip_within_six_next_witness :
  In (nth 5 HEALTH_TIPS "") HEALTH_TIPS
  /\ exists n : nat,
    (n <= 6)%nat
    /\ tip_on_display (repeat (Some Next) n) fresh_session
       = Some (nth 5 HEALTH_TIPS "").
Proof.
  assert (H : In (nth 5 HEALTH_TIPS "") HEALTH_TIPS).
  { unfold HEALTH_TIPS. cbn [nth In].
    repeat (first [left; reflexivity | right]). }
  split; [exact H|].
  exact (every_tip_within_six_next fresh_session _ H).
Defined.


Lemma get_on_click_bounds (c : click) (st : session_state) :
  0 <= get_tip_idx st ->
  0 <= get_tip_idx (on_click c st)
  /\ get_tip_idx st - 1 <= get_tip_idx (on_click c st)
  /\ get_tip_idx (on_click c st)
     <= get_tip_idx st + Z.of_nat (nexts [c]).
Proof.
  intros H. destruct c; cbn [on_click nexts filter List.length].
  - rewrite get_on_prev. lia.
  - rewrite get_on_next. lia.
Qed.

Lemma nexts_cons (c : click) (cs : list click) :
  nexts (c :: cs) = (nexts [c] + nexts cs)%nat.
Proof. unfold nexts. cbn [filter]. destruct c; reflexivity. Qed.

(** An invariant of the carousel: from an index that is not negative, every
    run of [Prev] and [Next] clicks leaves an index that is not negative, at
    least the start less the length of the run and at most the start plus
    the number of [Next] clicks. *)
Theorem run_clicks_idx_bounds (cs : list click) (st : session_state) :
  0 <= get_tip_idx st ->
  0 <= get_tip_idx (run_clicks cs st)
  /\ get_tip_idx st - Z.of_nat (List.length cs) <= get_tip_idx (run_clicks cs st)
  /\ get_tip_idx (run_clicks cs st) <= get_tip_idx st + Z.of_nat (nexts cs).
Proof.
  revert st. induction cs as [|c cs IH]; intros st H0.
  - cbn. lia.
  - change (run_clicks (c :: cs) st) with (run_clicks cs (on_click c st)).
    destruct (get_on_click_bounds c st H0) as (H1 & H2 & H3).
    destruct (IH (on_click c st) H1) as (I1 & I2 & I3).
    rewrite nexts_cons. cbn [List.length]. lia.
Qed.

Lemma run_clicks_idx_bounds_witness :
  0 <= get_tip_idx fresh_session
  /\ 0 <= get_tip_idx (run_clicks [Prev; Next; Prev; Prev; Next] fresh_session)
  /\ get_tip_idx fresh_session - Z.of_nat (List.length [Prev; Next; Prev; Prev; Next])
     <= get_tip_idx (run_clicks [Prev; Next; Prev; Prev; Next] fresh_session)
  /\ get_tip_idx (run_clicks [Prev; Next; Prev; Prev; Next] fresh_session)
     <= get_tip_idx fresh_session
        + Z.of_nat (nexts [Prev; Next; Prev; Prev; Next]).
Proof.
  split; [cbn; lia|].
  apply (run_clicks_idx_bounds [Prev; Next; Prev; Prev; Next] fresh_session).
  cbn. lia.
Defined.
(* ================================================================== *)
(** * The two BMR formulas side by side *)
(* ================================================================== *)

(** A multiple of [2^(j-52)] below [2^(j+1)] in magnitude is a double. *)
Lemma rnd_on_grid (j n : Z) (x : Q) :
  0 <= j <= 52 -> - 2 ^ 53 < n < 2 ^ 53 ->
  x * inject_Z (2 ^ (52 - j)) == inject_Z n ->
  exists r : Q, rnd x = Fin r /\ r == x.
Proof.
  intros Hj Hn Hx. unfold rnd.
  pose proof unitsQ_pos as HUq. pose proof units_pos as HU.
  assert (EU : units = 2 ^ (52 - j) * 2 ^ (1022 + j)).
  { unfold units, unit_exp. rewrite <- Z.pow_add_r by lia. f_equal. lia. }
  assert (Ex : x * inject_Z units == inject_Z (n * 2 ^ (1022 + j))).
  { rewrite EU, !inject_Z_mult, <- Hx. ring. }
  rewrite (round_units_comp _ _ Ex).
  rewrite round_units_exact by lia.
  unfold of_units.
  assert (Hp : 0 < 2 ^ (1022 + j)) by (apply Z.pow_pos_nonneg; lia).
  assert (Hh : 2 ^ 53 * 2 ^ (1022 + j) < huge).
  { unfold huge, unit_exp. rewrite <- Z.pow_add_r by lia.
    apply Z.pow_lt_mono_r; lia. }
  destruct (Z.leb_spec huge (n * 2 ^ (1022 + j))); [nia|].
  destruct (Z.leb_spec (n * 2 ^ (1022 + j)) (- huge)); [nia|].
  eexists. split; [reflexivity|].
  rewrite Qred_correct, <- Ex. field. lra.
Qed.

(** Rounding to the nearest integer commutes with an even shift. *)
Lemma rne_shift_even (x : Q) (k : Z) :
  Z.even k = true -> rne (x + inject_Z k) = rne x + k.
Proof.
  intros Hk. unfold rne.
  pose proof (Qfloor_le x) as Hl. pose proof (Qlt_floor x) as Hu.
  rewrite inject_Z_plus in Hu. change (inject_Z 1) with 1%Q in Hu.
  assert (Ef : Qfloor (x + inject_Z k) = Qfloor x + k).
  { apply Qfloor_unique; rewrite inject_Z_plus; lra. }
  rewrite Ef.
  assert (Ec : (x + inject_Z k - inject_Z (Qfloor x + k) ?= 1 # 2)%Q
               = (x - inject_Z (Qfloor x) ?= 1 # 2)%Q).
  { apply Qcompare_comp; [rewrite inject_Z_plus; ring|reflexivity]. }
  rewrite Ec, Z.even_add, Hk.
  destruct (x - inject_Z (Qfloor x) ?= 1 # 2)%Q; [|reflexivity|lia].
  destruct (Z.even (Qfloor x)); cbn [Bool.eqb]; lia.
Qed.

(** From the float sum [10 * w + 6.25 * h] on: subtracting [5 * age] and
    adding the constant of the formula are exact, because the sum is a
    multiple of its last bit and the later values are smaller. *)
Lemma bmr_tail_exact (j : Z) (q s1 : Q) (age : Z) :
  9 <= j <= 12 ->
  (inject_Z (2 ^ j) <= q)%Q -> (q <= inject_Z (2 ^ (j + 1)))%Q ->
  rnd q = Fin s1 -> (900 <= s1)%Q ->
  10 <= age <= 120 ->
  exists s2 : Q,
    rnd (s1 - inject_Z (5 * age)) = Fin s2
    /\ s2 == s1 - inject_Z (5 * age)
    /\ forall c : Z, - 161 <= c <= 5 ->
         exists s3 : Q,
           rnd (s2 + inject_Z c) = Fin s3 /\ s3 == s2 + inject_Z c.
Proof.
  intros Hj Hq1 Hq2 Hs1 Hlow Ha.
  destruct (rnd_multiple j q s1 ltac:(lia) Hq1 Hs1) as (n1 & Hn1).
  assert (Hup : (s1 <= inject_Z (2 ^ (j + 1)))%Q).
  { apply (rnd_le q (inject_Z (2 ^ (j + 1)))); [exact Hq2|exact Hs1|].
    apply rnd_Z. split.
    - pose proof (Z.pow_pos_nonneg 2 (j + 1)). lia.
    - apply Z.pow_lt_mono_r; lia. }
  assert (HP : 0 < 2 ^ (52 - j)) by (apply Z.pow_pos_nonneg; lia).
  assert (HPq : (0 < inject_Z (2 ^ (52 - j)))%Q)
    by (change 0%Q with (inject_Z 0); now rewrite <- Zlt_Qlt).
  assert (E53 : inject_Z (2 ^ (j + 1)) * inject_Z (2 ^ (52 - j))
                == inject_Z (2 ^ 53)).
  { rewrite <- inject_Z_mult, <- Z.pow_add_r by lia.
    replace (j + 1 + (52 - j)) with 53 by lia. reflexivity. }
  assert (Ha1 : (50 <= inject_Z (5 * age))%Q)
    by (change 50%Q with (inject_Z 50); rewrite <- Zle_Qle; lia).
  assert (Ha2 : (inject_Z (5 * age) <= 600)%Q)
    by (change 600%Q with (inject_Z 600); rewrite <- Zle_Qle; lia).
  set (p := 2 ^ (52 - j)) in *.
  set (P := inject_Z p) in *.
  set (B := inject_Z (2 ^ (j + 1))) in *.
  set (a5 := inject_Z (5 * age)) in *.
  (* the age *)
  assert (E2 : (s1 - a5) * P == inject_Z (n1 - 5 * age * p)).
  { unfold Z.sub. rewrite inject_Z_plus, inject_Z_opp, inject_Z_mult.
    fold P a5. rewrite <- Hn1. ring. }
  assert (B2 : - 2 ^ 53 < n1 - 5 * age * p < 2 ^ 53).
  { assert (L : (inject_Z 0 < inject_Z (n1 - 5 * age * p))%Q)
      by (rewrite <- E2; change (inject_Z 0) with 0%Q; nra).
    assert (U : (inject_Z (n1 - 5 * age * p) < inject_Z (2 ^ 53))%Q)
      by (rewrite <- E2, <- E53; nra).
    rewrite <- Zlt_Qlt in L, U. lia. }
  destruct (rnd_on_grid j _ _ ltac:(lia) B2 E2) as (s2 & Hs2 & Es2).
  exists s2. split; [exact Hs2|]. split; [exact Es2|].
  (* the constant *)
  intros c Hc.
  assert (Hc1 : (- (161) <= inject_Z c)%Q)
    by (change (- (161))%Q with (inject_Z (- 161)); rewrite <- Zle_Qle; lia).
  assert (Hc2 : (inject_Z c <= 5)%Q)
    by (change 5%Q with (inject_Z 5); rewrite <- Zle_Qle; lia).
  assert (E3 : (s2 + inject_Z c) * P
               == inject_Z (n1 - 5 * age * p + c * p)).
  { rewrite inject_Z_plus, (inject_Z_mult c), <- E2, Es2. fold P. ring. }
  assert (B3 : - 2 ^ 53
               < n1 - 5 * age * p + c * p < 2 ^ 53).
  { assert (L : (inject_Z 0
                 < inject_Z (n1 - 5 * age * p + c * p))%Q)
      by (rewrite <- E3, Es2; change (inject_Z 0) with 0%Q; nra).
    assert (U : (inject_Z (n1 - 5 * age * p + c * p)
                 < inject_Z (2 ^ 53))%Q)
      by (rewrite <- E3, <- E53, Es2; nra).
    rewrite <- Zlt_Qlt in L, U. lia. }
  destruct (rnd_on_grid j _ _ ltac:(lia) B3 E3) as (s3 & Hs3 & Es3).
  exists s3. split; assumption.
Qed.

Lemma calculate_bmr_exact_tail (age : Z) (w h : Q) :
  10 <= age <= 120 -> (30 <= w)%Q -> (w <= 300)%Q ->
  (100 <= h)%Q -> (h <= 250)%Q ->
  exists s2 : Q,
    (300 <= s2)%Q /\ (s2 <= 4600)%Q
    /\ forall gender : string,
         calculate_bmr gender age (Fin w) (Fin h)
         = Ok (Fin (inject_Z
                      (rne (s2 + inject_Z (if is_male gender then 5
                                           else - 161))))).
Proof.
  intros Ha Hw1 Hw2 Hh1 Hh2.
  assert (Ha1 : (50 <= inject_Z (5 * age))%Q)
    by (change 50%Q with (inject_Z 50); rewrite <- Zle_Qle; lia).
  assert (Ha2 : (inject_Z (5 * age) <= 600)%Q)
    by (change 600%Q with (inject_Z 600); rewrite <- Zle_Qle; lia).
  round 12 (10 * w)%Q as t1 Ht1; [lra|lra|].
  round 12 ((25 # 4) * h)%Q as t2 Ht2; [lra|lra|].
  round 13 (t1 + t2)%Q as s1 Hs1; [lra|lra|].
  assert (Hq1 : (924 <= t1 + t2)%Q) by lra.
  assert (Hq2 : (t1 + t2 <= 4563)%Q) by lra.
  assert (Hs1' : (900 <= s1)%Q) by lra.
  assert (Hs1'' : (s1 <= 4564)%Q) by lra.
  assert (Hj : exists j : Z,
             9 <= j <= 12 /\ (inject_Z (2 ^ j) <= t1 + t2)%Q
             /\ (t1 + t2 <= inject_Z (2 ^ (j + 1)))%Q).
  { destruct (Qlt_le_dec (t1 + t2) 1024) as [L1|G1];
      [exists 9; split; [lia|]; split; num_consts; lra|].
    destruct (Qlt_le_dec (t1 + t2) 2048) as [L2|G2];
      [exists 10; split; [lia|]; split; num_consts; lra|].
    destruct (Qlt_le_dec (t1 + t2) 4096) as [L3|G3];
      [exists 11; split; [lia|]; split; num_consts; lra|].
    exists 12; split; [lia|]; split; num_consts; lra. }
  destruct Hj as (j & Hj & Hj1 & Hj2).
  destruct (bmr_tail_exact j (t1 + t2) s1 age Hj Hj1 Hj2 Hs1 Hs1' Ha)
    as (s2 & Hs2 & Es2 & Hc).
  exists s2. split; [lra|]. split; [lra|].
  intros gender.
  destruct (Hc (if is_male gender then 5 else - 161)) as (s3 & Hs3 & Es3);
    [destruct (is_male gender); lia|].
  assert (Hs3' : rnd (s2 + (if is_male gender then 5 else - (161))) = Fin s3).
  { rewrite <- Hs3. destruct (is_male gender); reflexivity. }
  rewrite (bmr_of_sum gender age w h t1 t2 s1 s2 s3 Ha Ht1 Ht2 Hs1 Hs2 Hs3').
  assert (Hc3 : (- (161) <= inject_Z (if is_male gender then 5 else - 161))%Q
                /\ (inject_Z (if is_male gender then 5 else - 161) <= 5)%Q)
    by (destruct (is_male gender); split; discriminate).
  destruct Hc3 as [Hc1 Hc2].
  destruct (rne_bounds s3) as [Hn1 Hn2].
  assert (Hn : - 2 ^ 52 < rne s3 < 2 ^ 52).
  { split.
    - assert (L : (inject_Z 0 < inject_Z (rne s3))%Q)
        by (change (inject_Z 0) with 0%Q; lra).
      rewrite <- Zlt_Qlt in L. lia.
    - assert (U : (inject_Z (rne s3) < inject_Z 5000)%Q)
        by (change (inject_Z 5000) with 5000%Q; lra).
      rewrite <- Zlt_Qlt in U. lia. }
  destruct (py_round_0_whole s3 Hn) as (-> & _ & _).
  now rewrite (rne_comp _ _ Es3).
Qed.

(** The two formulas differ by the constants 5 and -161 only, and the
    result keeps that: on the inputs that the BMR tab admits, the BMR of a
    man is exactly 166 kcal above the BMR of a woman of the same age, weight
    and height.  No rounding step gets in the way: the additions after the
    first sum are exact, and [round] commutes with the even shift. *)
Theorem calculate_bmr_gender_gap (man woman : string) (age : Z) (w h : Q) :
  is_male man = true -> is_male woman = false ->
  10 <= age <= 120 -> (30 <= w)%Q -> (w <= 300)%Q ->
  (100 <= h)%Q -> (h <= 250)%Q ->
  exists n : Z,
    calculate_bmr woman age (Fin w) (Fin h) = Ok (Fin (inject_Z n))
    /\ calculate_bmr man age (Fin w) (Fin h) = Ok (Fin (inject_Z (n + 166))).
Proof.
  intros Hm Hf Ha Hw1 Hw2 Hh1 Hh2.
  destruct (calculate_bmr_exact_tail age w h Ha Hw1 Hw2 Hh1 Hh2)
    as (s2 & _ & _ & Hg).
  exists (rne (s2 + inject_Z (- 161))).
  rewrite (Hg woman), (Hg man), Hm, Hf. split; [reflexivity|].
  rewrite <- rne_shift_even by reflexivity.
  do 3 f_equal. apply rne_comp.
  rewrite <- Qplus_assoc, <- inject_Z_plus. reflexivity.
Qed.

Lemma calculate_bmr_gender_gap_witness :
  is_male "Male" = true /\ is_male "Female" = false
  /\ 10 <= 30 <= 120 /\ (30 <= 70)%Q /\ (70 <= 300)%Q
  /\ (100 <= 170)%Q /\ (170 <= 250)%Q
  /\ exists n : Z,
    calculate_bmr "Female" 30 (Fin 70) (Fin 170) = Ok (Fin (inject_Z n))
    /\ calculate_bmr "Male" 30 (Fin 70) (Fin 170)
       = Ok (Fin (inject_Z (n + 166))).
Proof.
  split; [reflexivity|]. split; [reflexivity|]. split; [lia|].
  repeat (split; [discriminate|]).
  apply (calculate_bmr_gender_gap "Male" "Female" 30 70 170);
    first [reflexivity | lia | discriminate].
Defined.
